(** * Decentralized Sun Tzu Swarm: the tick engine, the decision scheduler,
      the event log and the oracle client, embedded from the TypeScript
      sources (types.ts, App.tsx, services/geminiService.ts).

    Conventions of the embedding.
    - A JavaScript [number] that holds a coordinate is a binary64 value:
      Rocq's primitive [float], with the same rounding as the source.
    - [health] only ever holds 100 minus a multiple of 5 floored at 0, all
      exact in binary64: it is carried as a [Z].
    - A duration of the retry policy, in milliseconds, is an exact rational.
    - A string is a sequence of code units; the alphabet of the model is the
      code units 0..255, one [ascii] each.
    - React state setters are applied at once; the [*Ref.current] mirrors
      always show the committed state. *)

From Stdlib Require Import ZArith List String Ascii Bool Lia.
From Stdlib Require Import Floats Uint63 DecimalString QArith Qminmax Lqa.
Import ListNotations.

Local Open Scope string_scope.
Local Open Scope bool_scope.
Local Open Scope Z_scope.

(* ================================================================== *)
(** * The JavaScript built-ins that the sources call *)
(* ================================================================== *)

Module JS.

(** [s.startsWith(p)] *)
Fixpoint startsWith (s p : string) {struct p} : bool :=
  match p, s with
  | EmptyString, _ => true
  | String _ _, EmptyString => false
  | String b p', String a s' => Ascii.eqb a b && startsWith s' p'
  end.

(** [s.includes(sub)] *)
Fixpoint includes (s sub : string) : bool :=
  startsWith s sub ||
  match s with
  | EmptyString => false
  | String _ s' => includes s' sub
  end.

(** [s.indexOf(sub)], counted from offset [i]; -1 when absent. *)
Fixpoint indexOf_from (i : Z) (s sub : string) : Z :=
  if startsWith s sub then i
  else match s with
       | EmptyString => -1
       | String _ s' => indexOf_from (i + 1) s' sub
       end.

Definition indexOf (s sub : string) : Z := indexOf_from 0 s sub.

(** [s.lastIndexOf(sub)], counted from offset [i]; -1 when absent. *)
Fixpoint lastIndexOf_from (i : Z) (s sub : string) : Z :=
  let later := match s with
               | EmptyString => -1
               | String _ s' => lastIndexOf_from (i + 1) s' sub
               end in
  if 0 <=? later then later
  else if startsWith s sub then i else -1.

Definition lastIndexOf (s sub : string) : Z := lastIndexOf_from 0 s sub.

(** [s.substring(a, b)]: both ends clamped to [0, length], swapped when
    out of order. *)
Definition substring (s : string) (a b : Z) : string :=
  let len := Z.of_nat (String.length s) in
  let clamp := fun k => Z.max 0 (Z.min k len) in
  let lo := Z.min (clamp a) (clamp b) in
  let hi := Z.max (clamp a) (clamp b) in
  String.substring (Z.to_nat lo) (Z.to_nat (hi - lo)) s.

(** [s.substring(a)] *)
Definition substring_from (s : string) (a : Z) : string :=
  substring s a (Z.of_nat (String.length s)).

(** White space of the regular-expression class [\s] and of [trim],
    within the code units 0..255: TAB, LF, VT, FF, CR, SP, NBSP. *)
Definition is_space (c : ascii) : bool :=
  let n := nat_of_ascii c in
  (Nat.leb 9 n && Nat.leb n 13) || Nat.eqb n 32 || Nat.eqb n 160.

Fixpoint trimStart (s : string) : string :=
  match s with
  | EmptyString => EmptyString
  | String c s' => if is_space c then trimStart s' else s
  end.

Fixpoint trimEnd (s : string) : string :=
  match s with
  | EmptyString => EmptyString
  | String c s' =>
      match trimEnd s' with
      | EmptyString => if is_space c then EmptyString else String c EmptyString
      | r => String c r
      end
  end.

(** [s.trim()] *)
Definition trim (s : string) : string := trimEnd (trimStart s).

(** A value used as a condition: a string is truthy when it is not empty. *)
Definition truthy_string (s : string) : bool :=
  match s with EmptyString => false | _ => true end.

(** The double-quote character. *)
Definition dquote : ascii := "034"%char.

(** Template-literal rendering of a non-negative integer. *)
Definition string_of_nat (n : nat) : string :=
  NilEmpty.string_of_uint (Nat.to_uint n).

(** ** Regular expressions with the global flag

    [s.replace(re, ...)] for a [re] that cannot match the empty string:
    at each position outside the previous match, [match_at] gives the
    length of the match that starts there and what replaces it. [skip]
    counts the code units of the current match still to be passed. *)
Fixpoint replace_all (match_at : string -> option (nat * string)) (skip : nat)
         (s : string) : string :=
  match s with
  | EmptyString => EmptyString
  | String c s' =>
      match skip with
      | S n => replace_all match_at n s'
      | O =>
          match match_at s with
          | Some (n, r) => r ++ replace_all match_at (Nat.pred n) s'
          | None => String c (replace_all match_at O s')
          end
      end
  end.

(** [s] without its first [n] code units. *)
Fixpoint drop (n : nat) (s : string) : string :=
  match n, s with
  | O, _ => s
  | S _, EmptyString => EmptyString
  | S n', String _ s' => drop n' s'
  end.

(** The text after the first occurrence of [sub], and the text before it. *)
Fixpoint after_first (s sub : string) : option string :=
  if startsWith s sub then Some (drop (String.length sub) s)
  else match s with
       | EmptyString => None
       | String _ s' => after_first s' sub
       end.

Fixpoint before_first (s sub : string) : option string :=
  if startsWith s sub then Some EmptyString
  else match s with
       | EmptyString => None
       | String c s' => option_map (String c) (before_first s' sub)
       end.

Definition is_digit (c : ascii) : bool :=
  let n := nat_of_ascii c in Nat.leb 48 n && Nat.leb n 57.

(** ** JSON.parse

    The value [JSON.parse] builds. A number keeps the token it was written
    with; an object keeps its members in source order, and a member read
    by name is the last one of that name. *)
#[local] Unset Elimination Schemes.
Inductive json :=
| JNull
| JBool (b : bool)
| JNumber (token : string)
| JString (s : string)
| JArray (items : list json)
| JObject (members : list (string * json)).
#[local] Set Elimination Schemes.

Definition is_json_ws (c : ascii) : bool :=
  let n := nat_of_ascii c in
  Nat.eqb n 32 || Nat.eqb n 9 || Nat.eqb n 10 || Nat.eqb n 13.

Fixpoint skip_json_ws (s : string) : string :=
  match s with
  | EmptyString => EmptyString
  | String c s' => if is_json_ws c then skip_json_ws s' else s
  end.

Definition hex_value (c : ascii) : option nat :=
  let n := nat_of_ascii c in
  if Nat.leb 48 n && Nat.leb n 57 then Some (n - 48)%nat
  else if Nat.leb 65 n && Nat.leb n 70 then Some (n - 55)%nat
  else if Nat.leb 97 n && Nat.leb n 102 then Some (n - 87)%nat
  else None.

(** The characters of a string token after its opening quote: the decoded
    content and the text after the closing quote. An escape [\uXXXX] of a
    code unit above 255 has no image in the alphabet of the model and is
    refused. *)
Fixpoint parse_chars (s : string) : option (string * string) :=
  match s with
  | EmptyString => None
  | String c s' =>
      if Ascii.eqb c dquote then Some (EmptyString, s')
      else if Ascii.eqb c "\"%char then
        match s' with
        | EmptyString => None
        | String e s'' =>
            let continue := fun (d : ascii) (rest : option (string * string)) =>
              match rest with
              | Some (str, r) => Some (String d str, r)
              | None => None
              end in
            if Ascii.eqb e dquote then continue dquote (parse_chars s'')
            else if Ascii.eqb e "\"%char then continue "\"%char (parse_chars s'')
            else if Ascii.eqb e "/"%char then continue "/"%char (parse_chars s'')
            else if Ascii.eqb e "b"%char then continue "008"%char (parse_chars s'')
            else if Ascii.eqb e "f"%char then continue "012"%char (parse_chars s'')
            else if Ascii.eqb e "n"%char then continue "010"%char (parse_chars s'')
            else if Ascii.eqb e "r"%char then continue "013"%char (parse_chars s'')
            else if Ascii.eqb e "t"%char then continue "009"%char (parse_chars s'')
            else if Ascii.eqb e "u"%char then
              match s'' with
              | String h1 (String h2 (String h3 (String h4 s5))) =>
                  match hex_value h1, hex_value h2, hex_value h3, hex_value h4 with
                  | Some a, Some b, Some c', Some d =>
                      let n := (((a * 16 + b) * 16 + c') * 16 + d)%nat in
                      if Nat.ltb n 256 then continue (ascii_of_nat n) (parse_chars s5)
                      else None
                  | _, _, _, _ => None
                  end
              | _ => None
              end
            else None
        end
      else if Nat.ltb (nat_of_ascii c) 32 then None
      else match parse_chars s' with
           | Some (str, r) => Some (String c str, r)
           | None => None
           end
  end.

(** The longest prefix of digits, and the rest. *)
Fixpoint span_digits (s : string) : string * string :=
  match s with
  | EmptyString => (EmptyString, EmptyString)
  | String c s' =>
      if is_digit c
      then let (d, r) := span_digits s' in (String c d, r)
      else (EmptyString, s)
  end.

(** A number token: an optional minus, an integer part without a leading
    zero, an optional fraction and an optional exponent. *)
Definition parse_number (s : string) : option (string * string) :=
  let (sign, s1) := match s with
                    | String "-"%char r => ("-", r)
                    | _ => (EmptyString, s)
                    end in
  let (int, s2) := span_digits s1 in
  let int_ok := match int with
                | EmptyString => false
                | String "0"%char (String _ _) => false
                | _ => true
                end in
  if negb int_ok then None
  else
    let frac := match s2 with
                | String "."%char r =>
                    let (d, r') := span_digits r in
                    match d with
                    | EmptyString => None
                    | _ => Some (String "."%char d, r')
                    end
                | _ => Some (EmptyString, s2)
                end in
    match frac with
    | None => None
    | Some (fr, s3) =>
        let exp := match s3 with
                   | String e r =>
                       if Ascii.eqb e "e"%char || Ascii.eqb e "E"%char then
                         let (sg, r1) := match r with
                                         | String "+"%char r' => ("+", r')
                                         | String "-"%char r' => ("-", r')
                                         | _ => (EmptyString, r)
                                         end in
                         let (d, r2) := span_digits r1 in
                         match d with
                         | EmptyString => None
                         | _ => Some (String e (sg ++ d), r2)
                         end
                       else Some (EmptyString, s3)
                   | EmptyString => Some (EmptyString, s3)
                   end in
        match exp with
        | None => None
        | Some (ex, s4) => Some (sign ++ int ++ fr ++ ex, s4)
        end
    end.

(** One value, then the members of an object and the items of an array
    after the opening bracket. [fuel] bounds the depth of the calls: a call
    is made after at least one more character was read, or by [parse_items]
    for the value it starts with, so twice the length of the text is
    enough. *)
Fixpoint parse_value (fuel : nat) (s : string) : option (json * string) :=
  match fuel with
  | O => None
  | S f =>
      match skip_json_ws s with
      | EmptyString => None
      | String c r =>
          if Ascii.eqb c "{"%char then
            match skip_json_ws r with
            | String "}"%char r' => Some (JObject [], r')
            | _ => parse_members f r []
            end
          else if Ascii.eqb c "["%char then
            match skip_json_ws r with
            | String "]"%char r' => Some (JArray [], r')
            | _ => parse_items f r []
            end
          else if Ascii.eqb c dquote then
            match parse_chars r with
            | Some (str, r') => Some (JString str, r')
            | None => None
            end
          else if startsWith (String c r) "true" then Some (JBool true, drop 4 (String c r))
          else if startsWith (String c r) "false" then Some (JBool false, drop 5 (String c r))
          else if startsWith (String c r) "null" then Some (JNull, drop 4 (String c r))
          else match parse_number (String c r) with
               | Some (tok, r') => Some (JNumber tok, r')
               | None => None
               end
      end
  end
with parse_members (fuel : nat) (s : string) (acc : list (string * json))
     : option (json * string) :=
  match fuel with
  | O => None
  | S f =>
      match skip_json_ws s with
      | String c r =>
          if Ascii.eqb c dquote then
            match parse_chars r with
            | Some (key, r1) =>
                match skip_json_ws r1 with
                | String ":"%char r2 =>
                    match parse_value f r2 with
                    | Some (v, r3) =>
                        match skip_json_ws r3 with
                        | String ","%char r4 => parse_members f r4 (acc ++ [(key, v)])%list
                        | String "}"%char r4 => Some (JObject (acc ++ [(key, v)])%list, r4)
                        | _ => None
                        end
                    | None => None
                    end
                | _ => None
                end
            | None => None
            end
          else None
      | EmptyString => None
      end
  end
with parse_items (fuel : nat) (s : string) (acc : list json) : option (json * string) :=
  match fuel with
  | O => None
  | S f =>
      match parse_value f s with
      | Some (v, r) =>
          match skip_json_ws r with
          | String ","%char r' => parse_items f r' (acc ++ [v])%list
          | String "]"%char r' => Some (JArray (acc ++ [v])%list, r')
          | _ => None
          end
      | None => None
      end
  end.

(** [JSON.parse(text)]: [None] where it throws a SyntaxError. *)
Definition JSON_parse (text : string) : option json :=
  match parse_value (2 * String.length text + 2) text with
  | Some (v, r) =>
      match skip_json_ws r with
      | EmptyString => Some v
      | _ => None
      end
  | None => None
  end.

(** [v[name]] for a parsed value: [None] is [undefined]. Only an object
    has members of its own; the names read by the sources are not
    properties of any prototype. *)
Fixpoint member_of (members : list (string * json)) (name : string) : option json :=
  match members with
  | [] => None
  | (k, v) :: rest =>
      match member_of rest name with
      | Some later => Some later
      | None => if String.eqb k name then Some v else None
      end
  end.

Definition property (v : json) (name : string) : option json :=
  match v with
  | JObject members => member_of members name
  | _ => None
  end.

(** [array.indexOf(p)] on an array of strings, counted from [i]; -1 when
    absent. *)
Fixpoint array_indexOf_from (i : Z) (l : list string) (p : string) : Z :=
  match l with
  | [] => -1
  | q :: l' => if String.eqb q p then i else array_indexOf_from (i + 1) l' p
  end.

Definition array_indexOf (l : list string) (p : string) : Z := array_indexOf_from 0 l p.

(** A [Map<string, V>]: keys in insertion order; [set] on a present key
    replaces the value and keeps the key's place. *)
Section Map.
Context {V : Type}.

Definition Map := list (string * V).

Fixpoint get (m : Map) (k : string) : option V :=
  match m with
  | [] => None
  | (k', v) :: m' => if String.eqb k' k then Some v else get m' k
  end.

Fixpoint set (m : Map) (k : string) (v : V) : Map :=
  match m with
  | [] => [(k, v)]
  | (k', v') :: m' =>
      if String.eqb k' k then (k', v) :: m' else (k', v') :: set m' k v
  end.

Definition keys (m : Map) : list string := map fst m.
Definition values (m : Map) : list V := map snd m.

(** In-place mutation of the object stored under [k]: every later read
    through the map sees it. *)
Definition mutate (m : Map) (k : string) (f : V -> V) : Map :=
  match get m k with
  | Some v => set m k (f v)
  | None => m
  end.
End Map.
Arguments Map : clear implicits.

End JS.

(* ================================================================== *)
(** * types.ts *)
(* ================================================================== *)

Inductive ModelProvider := GoogleAI | Ollama.

Inductive DroneStatus := Idle | Moving | Assessing | Executing | Attacking | Disabled.

Definition DroneStatus_eqb (a b : DroneStatus) : bool :=
  match a, b with
  | Idle, Idle | Moving, Moving | Assessing, Assessing
  | Executing, Executing | Attacking, Attacking | Disabled, Disabled => true
  | _, _ => false
  end.

Record Vector := mkVector { x : float; y : float }.

Inductive SwarmId := blue | red.

Record Drone := mkDrone {
  id : string;
  swarmId : SwarmId;
  position : Vector;
  status : DroneStatus;
  targetPosition : Vector;
  health : Z;
  targetId : option string   (* string | null *)
}.

Inductive SimulationState := Stopped | Running | Paused.

Inductive LogType := Info | Council | Stratagem | Error | Success | Attack.

(** [id] and [timestamp] of a log entry come from the clock and the random
    source and are only displayed; the entry keeps its other fields. *)
Record LogEntry := mkLogEntry {
  message : string;
  type : LogType;
  author : option string
}.

(** [Partial<Drone>]: the fields an update carries. *)
Record PartialDrone := mkPartial {
  p_id : option string;
  p_swarmId : option SwarmId;
  p_position : option Vector;
  p_status : option DroneStatus;
  p_targetPosition : option Vector;
  p_health : option Z;
  p_targetId : option (option string)
}.

(** The object spread [{ ...d, ...updates }]. *)
Definition spread (d : Drone) (u : PartialDrone) : Drone :=
  let pick := fun {A} (o : option A) (a : A) => match o with Some v => v | None => a end in
  mkDrone (pick (p_id u) (id d)) (pick (p_swarmId u) (swarmId d))
          (pick (p_position u) (position d)) (pick (p_status u) (status d))
          (pick (p_targetPosition u) (targetPosition d))
          (pick (p_health u) (health d)) (pick (p_targetId u) (targetId d)).

(* ================================================================== *)
(** * services/geminiService.ts: the decision an oracle call returns *)
(* ================================================================== *)

Inductive ActionType := MOVE | ATTACK | HOLD.

Record Action := mkAction {
  action_type : ActionType;          (* action.type *)
  target_id : option string;         (* target_id?: string *)
  action_position : option Vector    (* position?: Vector *)
}.

Record IndividualStratagem := mkStratagem {
  stratagem_name : string;
  justification : string;
  action : Action
}.

Module GeminiService.

(** A thrown value: whether it is an instance of [Error], and its message. *)
Record Thrown := mkThrown { instanceof_Error : bool; error_message : string }.

Definition new_Error (msg : string) : Thrown := mkThrown true msg.

(** How a call ends. *)
Inductive Outcome (A : Type) :=
| Returns (a : A)
| Throws (e : Thrown).
Arguments Returns {A} a.
Arguments Throws {A} e.

Definition is_closer (c : ascii) : bool :=
  Ascii.eqb c "}"%char || Ascii.eqb c "]"%char.

(** The match of [<think>], any text taken lazily, [</think>] at the head
    of [s]; it is replaced by nothing. *)
Definition think_at (s : string) : option (nat * string) :=
  if JS.startsWith s "<think>" then
    match JS.before_first (JS.drop 7 s) "</think>" with
    | Some inner => Some (7 + String.length inner + 8, EmptyString)%nat
    | None => None
    end
  else None.

(** The match of a comma, white space, and a closing brace or bracket at
    the head of [s]; it is replaced by the closer. *)
Definition trailing_comma_at (s : string) : option (nat * string) :=
  match s with
  | String ","%char r =>
      match JS.trimStart r with
      | String b _ =>
          if is_closer b
          then Some (1 + (String.length r - String.length (JS.trimStart r)) + 1,
                     String b EmptyString)%nat
          else None
      | EmptyString => None
      end
  | _ => None
  end.

Definition fence : string := "```".

(** Group 1 of the first match of the fence expression: the opening
    fence, an optional [json], white space taken greedily, the text up to
    the white space before the next fence. [None] when there is no match. *)
Definition fence_capture (s : string) : option string :=
  match JS.after_first s fence with
  | None => None
  | Some r0 =>
      let r1 := if JS.startsWith r0 "json" then JS.drop 4 r0 else r0 in
      match JS.before_first (JS.trimStart r1) fence with
      | Some body => Some (JS.trimEnd body)
      | None => None
      end
  end.

(** The text [cleanAndParseJson] hands to [JSON.parse]. *)
Definition clean (jsonStr : string) : string :=
  let cleanStr := JS.trim jsonStr in
  let cleanStr := JS.trim (JS.replace_all think_at 0 cleanStr) in
  let cleanStr :=
    match fence_capture cleanStr with
    | Some (String c m) => JS.trim (String c m)
    | _ =>
        let firstBrace := JS.indexOf cleanStr "{" in
        let lastBrace := JS.lastIndexOf cleanStr "}" in
        if (-1 <? firstBrace) && (firstBrace <? lastBrace)
        then JS.substring cleanStr firstBrace (lastBrace + 1)
        else cleanStr
    end in
  JS.replace_all trailing_comma_at 0 cleanStr.

Section Engine.

(** The message of the SyntaxError that the engine's [JSON.parse] throws
    for a text; the sources only embed it in their own messages. *)
Variable syntax_error_message : string -> string.

(** [cleanAndParseJson] *)
Definition cleanAndParseJson (jsonStr : string) : Outcome JS.json :=
  let cleanStr := clean jsonStr in
  match JS.JSON_parse cleanStr with
  | Some v => Returns v
  | None =>
      Throws (new_Error ("Invalid JSON format after cleaning. Details: "
                         ++ syntax_error_message cleanStr))
  end.

End Engine.

(** ** parseRetryDelay *)

Fixpoint digits_value (acc : Z) (s : string) : Z :=
  match s with
  | EmptyString => acc
  | String c s' => digits_value (10 * acc + Z.of_nat (nat_of_ascii c - 48)) s'
  end.

(** [parseFloat] of digits with an optional fraction, as an exact rational. *)
Definition parseFloat_decimal (int frac : string) : Q :=
  (inject_Z (digits_value 0 int)
   + inject_Z (digits_value 0 frac) / inject_Z (10 ^ Z.of_nat (String.length frac)))%Q.

(** The expression [^(\d+(\.\d+)?)s$] on [s]: the digits before and after
    the point of group 1. *)
Definition match_seconds (s : string) : option (string * string) :=
  let (int, r1) := JS.span_digits s in
  match int with
  | EmptyString => None
  | _ =>
      match r1 with
      | String "s"%char EmptyString => Some (int, EmptyString)
      | String "."%char r2 =>
          let (frac, r3) := JS.span_digits r2 in
          match frac, r3 with
          | String _ _, String "s"%char EmptyString => Some (int, frac)
          | _, _ => None
          end
      | _ => None
      end
  end.

Definition RetryInfo_type : string := "type.googleapis.com/google.rpc.RetryInfo".

(** [details.find(d => d['@type'] === RetryInfo)]: [None] when reading an
    item throws (the item is [null]), else the item found, if any. *)
Fixpoint find_RetryInfo (items : list JS.json) : option (option JS.json) :=
  match items with
  | [] => Some None
  | JS.JNull :: _ => None
  | d :: rest =>
      match JS.property d "@type" with
      | Some (JS.JString t) =>
          if String.eqb t RetryInfo_type then Some (Some d) else find_RetryInfo rest
      | _ => find_RetryInfo rest
      end
  end.

(** [parseRetryDelay]: the delay in milliseconds, or [None] for [null]. A
    duration is an exact rational here. *)
Definition parseRetryDelay (errorMessage : string) : option Q :=
  let jsonStartIndex := JS.indexOf errorMessage "{" in
  if jsonStartIndex =? -1 then None
  else
    let jsonString := JS.substring_from errorMessage jsonStartIndex in
    match JS.JSON_parse jsonString with
    | None => None
    | Some errorData =>
        match JS.property errorData "error" with
        | Some error =>
            match JS.property error "details" with
            | Some (JS.JArray items) =>
                match find_RetryInfo items with
                | Some (Some retryInfo) =>
                    match JS.property retryInfo "retryDelay" with
                    | Some (JS.JString delay) =>
                        match match_seconds delay with
                        | Some (int, frac) =>
                            Some (parseFloat_decimal int frac * inject_Z 1000)%Q
                        | None => None
                        end
                    | _ => None
                    end
                | _ => None
                end
            | _ => None
            end
        | None => None
        end
    end.

(** ** getGoogleAIAction *)

Definition MAX_RETRIES : nat := 3.

Definition isRateLimitError (error : Thrown) : bool :=
  instanceof_Error error
  && (JS.includes (error_message error) "429"
      || JS.includes (error_message error) "RESOURCE_EXHAUSTED").

Definition baseWaitMs (attempt : nat) (error : Thrown) : Q :=
  if Nat.eqb attempt 1 then
    match parseRetryDelay (error_message error) with
    | Some apiSuggestedDelay => apiSuggestedDelay
    | None => inject_Z 2000
    end
  else inject_Z (2 ^ Z.of_nat attempt * 1000).

(** [(Math.random() - 0.5) * 1000] *)
Definition jitter (random : Q) : Q := ((random - (1 # 2)) * inject_Z 1000)%Q.

Definition finalWaitMs (attempt : nat) (error : Thrown) (random : Q) : Q :=
  Qmax (inject_Z 500) (baseWaitMs attempt error + jitter random)%Q.

(** What a call of [getGoogleAIAction] did: how it ended, how many
    requests it sent, and the waits it slept, in order. Each wait is also
    announced through [logProgress]. *)
Record Call := mkCall {
  outcome : Outcome JS.json;
  attempts : nat;
  waits : list Q
}.

Definition exhausted : Thrown :=
  new_Error "Exceeded max retries (3) for Google AI API.".

Section Client.

Variable syntax_error_message : string -> string.

(** [backend n] is how the n-th request to the model ends: with the text
    of the response or with a thrown value. [random n] is the value of
    [Math.random()] drawn after the n-th request failed. *)
Variable backend : nat -> Outcome string.
Variable random : nat -> Q.

(** The body of the [try]. *)
Definition request (attempt : nat) : Outcome JS.json :=
  match backend attempt with
  | Returns text => cleanAndParseJson syntax_error_message text
  | Throws e => Throws e
  end.

(** The [for] loop with [left] iterations to go: [attempt] is
    [MAX_RETRIES + 1 - left], and the loop ends when none is left. *)
Fixpoint attempt_loop (left : nat) : Call :=
  match left with
  | O => mkCall (Throws exhausted) 0 []
  | S left' =>
      let attempt := (MAX_RETRIES - left')%nat in
      match request attempt with
      | Returns v => mkCall (Returns v) 1 []
      | Throws error =>
          if isRateLimitError error && Nat.ltb attempt MAX_RETRIES
          then
            let rest := attempt_loop left' in
            mkCall (outcome rest) (S (attempts rest))
                   (finalWaitMs attempt error (random attempt) :: waits rest)
          else mkCall (Throws error) 1 []
      end
  end.

(** [getGoogleAIAction]; [ai] tells whether the client was created. *)
Definition getGoogleAIAction (ai : bool) : Call :=
  if negb ai
  then mkCall (Throws (new_Error "GoogleGenAI not initialized. API_KEY is missing.")) 0 []
  else attempt_loop MAX_RETRIES.

End Client.

(** The [catch] of [getDroneAction]: what the scheduler sees of an error. *)
Definition getDroneAction_catch (error : Thrown) : Thrown :=
  if instanceof_Error error then
    if JS.includes (error_message error) "fetch"
    then new_Error ("Network error talking to Ollama. Is it running? Is CORS configured? Details: "
                    ++ error_message error)
    else new_Error ("Failed to get/parse stratagem. Details: " ++ error_message error)
  else new_Error "An unknown error occurred while getting drone action.".

End GeminiService.

(* ================================================================== *)
(** * App.tsx *)
(* ================================================================== *)

Module App.

Definition SIMULATION_WIDTH : float := 800%float.
Definition SIMULATION_HEIGHT : float := 600%float.
Definition DRONE_COUNT_PER_SWARM : nat := 5%nat.
Definition DRONE_SPEED : float := 1%float.
Definition DRONE_HEALTH : Z := 100.
Definition ATTACK_RANGE : float := 75%float.
Definition ATTACK_DAMAGE : Z := 5.

(** A small non-negative integer as a [number]. *)
Definition number_of_nat (n : nat) : float := of_uint63 (Uint63.of_Z (Z.of_nat n)).

Definition swarm_name (s : SwarmId) : string :=
  match s with blue => "blue" | red => "red" end.

Definition swarm_eqb (a b : SwarmId) : bool :=
  match a, b with blue, blue | red, red => true | _, _ => false end.

(** [createInitialSwarm] *)
Definition createInitialSwarm (swarm : SwarmId) : list Drone :=
  map (fun i =>
         let isBlue := swarm_eqb swarm blue in
         let y_base := (if isBlue then SIMULATION_HEIGHT - 100 else 100)%float in
         let x_base := (SIMULATION_WIDTH / 2
                        - (number_of_nat DRONE_COUNT_PER_SWARM / 2 * 60)
                        + (number_of_nat i * 60))%float in
         let pos := mkVector x_base y_base in
         mkDrone (String.substring 0 1 (swarm_name swarm) ++ "-drone-" ++ JS.string_of_nat i)
                 swarm pos Idle pos DRONE_HEALTH None)
      (seq 0 DRONE_COUNT_PER_SWARM).

(** The state the component holds. [thinkingDrones] is the re-entrancy
    guard. [captured] lists the drone objects that thinking loops closed
    over, at each start of the main effect, and [pending] the calls of
    [runDroneLogic] that are waiting for the oracle; neither is a variable
    of the source: they stand for its closures and promises. A loop whose
    timer a pause cancelled stays listed, so the model allows every run of
    the component, and some more. *)
Record World := mkWorld {
  blueDrones : list Drone;
  redDrones : list Drone;
  simulationState : SimulationState;
  logs : list LogEntry;
  thinkingDrones : list string;
  captured : list Drone;
  pending : list Drone
}.

Definition set_drones (w : World) (b r : list Drone) : World :=
  mkWorld b r (simulationState w) (logs w) (thinkingDrones w) (captured w) (pending w).
Definition set_state (w : World) (s : SimulationState) : World :=
  mkWorld (blueDrones w) (redDrones w) s (logs w) (thinkingDrones w) (captured w) (pending w).
Definition set_logs (w : World) (l : list LogEntry) : World :=
  mkWorld (blueDrones w) (redDrones w) (simulationState w) l (thinkingDrones w) (captured w) (pending w).
Definition set_thinking (w : World) (t : list string) : World :=
  mkWorld (blueDrones w) (redDrones w) (simulationState w) (logs w) t (captured w) (pending w).
Definition set_captured (w : World) (c : list Drone) : World :=
  mkWorld (blueDrones w) (redDrones w) (simulationState w) (logs w) (thinkingDrones w) c (pending w).
Definition set_pending (w : World) (p : list Drone) : World :=
  mkWorld (blueDrones w) (redDrones w) (simulationState w) (logs w) (thinkingDrones w) (captured w) p.

Definition running (w : World) : bool :=
  match simulationState w with Running => true | _ => false end.

(** [prev.slice(-100)] *)
Definition slice_last (n : nat) {A} (l : list A) : list A :=
  skipn (List.length l - n)%nat l.

(** The updater of [addLog]: [prev => [...prev.slice(-100), entry]]. *)
Definition addLog_updater (prev : list LogEntry) (entry : LogEntry) : list LogEntry :=
  (slice_last 100 prev ++ [entry])%list.

Definition addLog (w : World) (msg : string) (t : LogType) (a : option string) : World :=
  set_logs w (addLog_updater (logs w) (mkLogEntry msg t a)).

(** [updateDroneIntent]: the swarm is chosen by the prefix of the id. *)
Definition updateDroneIntent (w : World) (droneId : string) (updates : PartialDrone) : World :=
  let updater := map (fun d => if String.eqb (id d) droneId then spread d updates else d) in
  if JS.startsWith droneId "b-"
  then set_drones w (updater (blueDrones w)) (redDrones w)
  else set_drones w (blueDrones w) (updater (redDrones w)).

Definition is_disabled (d : Drone) : bool := DroneStatus_eqb (status d) Disabled.

Definition swarm_of (w : World) (s : SwarmId) : list Drone :=
  match s with blue => blueDrones w | red => redDrones w end.
Definition enemy_of (w : World) (s : SwarmId) : list Drone :=
  match s with blue => redDrones w | red => blueDrones w end.

Definition has (set : list string) (k : string) : bool := existsb (String.eqb k) set.
Definition add (set : list string) (k : string) : list string :=
  if has set k then set else (set ++ [k])%list.
Definition delete (set : list string) (k : string) : list string :=
  filter (fun k' => negb (String.eqb k' k)) set.

(** What a decision call settles with: a stratagem or [null], or an error. *)
Inductive OracleOutcome :=
| Resolved (s : option IndividualStratagem)
| Rejected (error_message : string).

(** The enemy roster a think cycle hands to the oracle. *)
Definition activeEnemies (w : World) (drone : Drone) : list Drone :=
  filter (fun d => negb (is_disabled d)) (enemy_of w (swarmId drone)).

(** [runDroneLogic], up to the [await]: [None] when the guard returns. *)
Definition runDroneLogic_begin (w : World) (drone : Drone) : option World :=
  if negb (running w) || is_disabled drone || has (thinkingDrones w) (id drone)
  then None
  else
    let w1 := set_thinking w (add (thinkingDrones w) (id drone)) in
    let w2 := updateDroneIntent w1 (id drone)
                (mkPartial None None None (Some Assessing) None None None) in
    Some (set_pending w2 (pending w2 ++ [drone])%list).

Definition set_status (s : DroneStatus) : PartialDrone :=
  mkPartial None None None (Some s) None None None.

Definition render_target (t : option string) : string :=
  match t with Some s => s | None => "undefined" end.

(** The [finally] block. *)
Definition runDroneLogic_finally (w : World) (drone : Drone) : World :=
  set_thinking w (delete (thinkingDrones w) (id drone)).

(** [runDroneLogic], from the [await] on. *)
Definition runDroneLogic_resume (w : World) (drone : Drone) (o : OracleOutcome) : World :=
  let currentDroneState :=
    find (fun d => String.eqb (id d) (id drone)) (swarm_of w (swarmId drone)) in
  let live := match currentDroneState with
              | Some c => negb (is_disabled c)
              | None => false
              end in
  let w' :=
    match o with
    | Resolved stratagem =>
        if negb (running w) then w
        else if negb live then w
        else
          match stratagem with
          | Some s =>
              let w1 := addLog w (String JS.dquote (stratagem_name s) ++ String JS.dquote ": " ++ justification s)
                          Stratagem (Some (id drone)) in
              match action_type (action s) with
              | MOVE =>
                  updateDroneIntent w1 (id drone)
                    (mkPartial None None None (Some Moving)
                       (Some (match action_position (action s) with
                              | Some p => p
                              | None => position drone
                              end))
                       None (Some None))
              | ATTACK =>
                  let targetId := target_id (action s) in
                  let activeEnemiesNow := activeEnemies w1 drone in
                  match targetId with
                  | Some t =>
                      if JS.truthy_string t
                         && existsb (fun e => String.eqb (id e) t) activeEnemiesNow
                      then updateDroneIntent w1 (id drone)
                             (mkPartial None None None (Some Attacking) None None (Some (Some t)))
                      else updateDroneIntent
                             (addLog w1 ("Invalid or defeated target: " ++ render_target targetId ++ ". Holding position.")
                                Error (Some (id drone)))
                             (id drone) (set_status Idle)
                  | None =>
                      updateDroneIntent
                        (addLog w1 ("Invalid or defeated target: " ++ render_target targetId ++ ". Holding position.")
                           Error (Some (id drone)))
                        (id drone) (set_status Idle)
                  end
              | HOLD =>
                  updateDroneIntent w1 (id drone)
                    (mkPartial None None None (Some Idle) None None (Some None))
              end
          | None =>
              updateDroneIntent
                (addLog w "Failed to produce a valid stratagem. Holding position." Error (Some (id drone)))
                (id drone) (set_status Idle)
          end
    | Rejected msg =>
        if negb (running w) then w
        else if live
             then updateDroneIntent
                    (addLog w ("An error occurred during decision making: " ++ msg) Error (Some (id drone)))
                    (id drone) (set_status Idle)
             else w
    end in
  runDroneLogic_finally w' drone.


(** ** The simulation interval: one tick *)

(** The loop works on [nextDronesState], a [Map] from id to a copy of each
    drone; a target is mutated through the map, so a later iteration reads
    what an earlier one wrote. [tk_draws] counts the calls of
    [Math.random] made so far in this tick. *)
Record TickState := mkTick {
  tk_drones : JS.Map Drone;
  tk_logs : list LogEntry;
  tk_draws : nat
}.

Definition distance (dx dy : float) : float := PrimFloat.sqrt (dx * dx + dy * dy)%float.

(** [drone.position.x += (dx / distance) * DRONE_SPEED], and the same on y. *)
Definition advance (p : Vector) (dx dy dist : float) : Vector :=
  mkVector (x p + (dx / dist) * DRONE_SPEED)%float
           (y p + (dy / dist) * DRONE_SPEED)%float.

Definition with_position (p : Vector) (d : Drone) : Drone :=
  mkDrone (id d) (swarmId d) p (status d) (targetPosition d) (health d) (targetId d).
Definition with_status (s : DroneStatus) (d : Drone) : Drone :=
  mkDrone (id d) (swarmId d) (position d) s (targetPosition d) (health d) (targetId d).
Definition with_health (h : Z) (d : Drone) : Drone :=
  mkDrone (id d) (swarmId d) (position d) (status d) (targetPosition d) h (targetId d).
Definition with_targetId (t : option string) (d : Drone) : Drone :=
  mkDrone (id d) (swarmId d) (position d) (status d) (targetPosition d) (health d) t.

(** [drone.status = Idle; drone.targetId = null] *)
Definition stand_down (d : Drone) : Drone := with_targetId None (with_status Idle d).

(** [drone.targetId] as a condition: set and not the empty string. *)
Definition truthy_target (t : option string) : option string :=
  match t with
  | Some s => if JS.truthy_string s then Some s else None
  | None => None
  end.

Definition tick_addLog (st : TickState) (msg : string) (t : LogType) (a : option string) : TickState :=
  mkTick (tk_drones st) (addLog_updater (tk_logs st) (mkLogEntry msg t a)) (tk_draws st).

(** The else-branch of the range test: damage, the sampled combat line,
    and the kill. *)
Definition strike (random : nat -> float) (st : TickState) (key tkey : string) : TickState :=
  let m1 := JS.mutate (tk_drones st) tkey
              (fun t => with_health (Z.max 0 (health t - ATTACK_DAMAGE)) t) in
  let r := random (tk_draws st) in
  let st1 := mkTick m1 (tk_logs st) (S (tk_draws st)) in
  let st2 := if (r <? 0x1.999999999999ap-4)%float
             then tick_addLog st1 (key ++ " attacks " ++ tkey ++ "!") Attack (Some "Combat")
             else st1 in
  match JS.get (tk_drones st2) tkey with
  | Some t =>
      if health t =? 0
      then
        let st3 := tick_addLog st2 (tkey ++ " has been disabled!") Success (Some "Combat") in
        let m3 := JS.mutate (tk_drones st3) tkey (with_status Disabled) in
        let m4 := JS.mutate m3 key stand_down in
        mkTick m4 (tk_logs st3) (tk_draws st3)
      else st2
  | None => st2
  end.

(** The body of [for (const drone of nextDronesState.values())], for the
    drone stored under [key]. *)
Definition tick_body (random : nat -> float) (st : TickState) (key : string) : TickState :=
  match JS.get (tk_drones st) key with
  | None => st
  | Some drone =>
      if is_disabled drone then st
      else
        match (if DroneStatus_eqb (status drone) Attacking
               then truthy_target (targetId drone) else None) with
        | Some tkey =>
            match JS.get (tk_drones st) tkey with
            | Some target =>
                if negb (is_disabled target) then
                  let dx := (x (position target) - x (position drone))%float in
                  let dy := (y (position target) - y (position drone))%float in
                  let dist := distance dx dy in
                  if (ATTACK_RANGE <? dist)%float
                  then mkTick (JS.mutate (tk_drones st) key
                                 (with_position (advance (position drone) dx dy dist)))
                              (tk_logs st) (tk_draws st)
                  else strike random st key tkey
                else mkTick (JS.mutate (tk_drones st) key stand_down) (tk_logs st) (tk_draws st)
            | None => mkTick (JS.mutate (tk_drones st) key stand_down) (tk_logs st) (tk_draws st)
            end
        | None =>
            if DroneStatus_eqb (status drone) Moving then
              let dx := (x (targetPosition drone) - x (position drone))%float in
              let dy := (y (targetPosition drone) - y (position drone))%float in
              let dist := distance dx dy in
              if (dist <? DRONE_SPEED)%float
              then mkTick (JS.mutate (tk_drones st) key
                             (fun d => with_status Idle (with_position (targetPosition d) d)))
                          (tk_logs st) (tk_draws st)
              else mkTick (JS.mutate (tk_drones st) key
                             (with_position (advance (position drone) dx dy dist)))
                          (tk_logs st) (tk_draws st)
            else st
        end
  end.

(** [nextDronesState], filled from [[...blue, ...red]]; the copies are
    values here. *)
Definition nextDronesState (w : World) : JS.Map Drone :=
  fold_left (fun m d => JS.set m (id d) d) (blueDrones w ++ redDrones w)%list [].

(** The handler of the simulation interval. [random k] is the value of
    the k-th call of [Math.random] in this tick. *)
Definition simulationInterval (random : nat -> float) (w : World) : World :=
  let next := nextDronesState w in
  let st := fold_left (tick_body random) (JS.keys next) (mkTick next (logs w) 0) in
  let all := JS.values (tk_drones st) in
  let newBlue := filter (fun d => swarm_eqb (swarmId d) blue) all in
  let newRed := filter (fun d => negb (swarm_eqb (swarmId d) blue)) all in
  let w1 := set_logs (set_drones w newBlue newRed) (tk_logs st) in
  let aliveBlue := existsb (fun d => negb (is_disabled d)) newBlue in
  let aliveRed := existsb (fun d => negb (is_disabled d)) newRed in
  if negb aliveBlue || negb aliveRed
  then
    let winner := if aliveBlue then "Blue Swarm" else "Red Swarm" in
    addLog (set_state w1 Stopped) ("Victory for " ++ winner ++ "! The battle is over.")
           Success (Some "System")
  else w1.

(** ** The controls and the main effect *)

(** The main effect starting: a thinking loop closes over each drone of
    the current rosters that is not Disabled. *)
Definition start_thinking (w : World) : World :=
  set_captured w (captured w
                  ++ filter (fun d => negb (is_disabled d)) (blueDrones w ++ redDrones w))%list.

(** The start/pause button. *)
Definition toggle (w : World) : World :=
  if running w then set_state w Paused
  else start_thinking (set_state w Running).

(** [resetSimulation] *)
Definition resetSimulation (w : World) : World :=
  addLog (mkWorld (createInitialSwarm blue) (createInitialSwarm red) Stopped []
                  [] (captured w) (pending w))
         "Simulation reset. Awaiting new orders." Info (Some "System").

Definition initialWorld : World :=
  mkWorld (createInitialSwarm blue) (createInitialSwarm red) Stopped [] [] [] [].

(** ** The component as a transition system *)

Inductive Event :=
| Tick (random : nat -> float)             (* the interval fires *)
| Think (i : nat)                          (* the timer of the i-th captured drone fires *)
| Answer (i : nat) (o : OracleOutcome)     (* the i-th pending oracle call settles *)
| Toggle
| Reset.

Fixpoint remove_nth {A} (i : nat) (l : list A) : list A :=
  match l, i with
  | [], _ => []
  | _ :: l', O => l'
  | a :: l', S i' => a :: remove_nth i' l'
  end.

(** One event; [None] when it cannot happen in [w]: the interval runs only
    while the simulation is Running, a think timer exists only for a
    captured drone, and only a pending call can settle. *)
Definition fire (w : World) (e : Event) : option World :=
  match e with
  | Tick random => if running w then Some (simulationInterval random w) else None
  | Think i =>
      match nth_error (captured w) i with
      | Some drone =>
          Some (match runDroneLogic_begin w drone with Some w' => w' | None => w end)
      | None => None
      end
  | Answer i o =>
      match nth_error (pending w) i with
      | Some drone =>
          Some (runDroneLogic_resume (set_pending w (remove_nth i (pending w))) drone o)
      | None => None
      end
  | Toggle => Some (toggle w)
  | Reset => Some (resetSimulation w)
  end.

Fixpoint run (w : World) (es : list Event) : option World :=
  match es with
  | [] => Some w
  | e :: es' => match fire w e with Some w' => run w' es' | None => None end
  end.

Definition all_drones (w : World) : list Drone := (blueDrones w ++ redDrones w)%list.

(** ** The principle rotation clock *)

(** The updater of the principle interval:
    [nextIndex = (indexOf(p) + 1) % length], then the principle at that
    index. The list of principles is a constant of a file that is not at
    hand: it is a parameter here. [None] is [undefined], the element of an
    empty list. *)
Definition nextPrinciple (principles : list string) (p : string) : option string :=
  let currentIndex := JS.array_indexOf principles p in
  let nextIndex := (currentIndex + 1) mod Z.of_nat (List.length principles) in
  nth_error principles (Z.to_nat nextIndex).

(** The principle in force after [n] periods. *)
Fixpoint rotate (principles : list string) (n : nat) (p : string) : option string :=
  match n with
  | O => Some p
  | S n' => match rotate principles n' p with
            | Some q => nextPrinciple principles q
            | None => None
            end
  end.

End App.

(* ================================================================== *)
(** * Vocabulary of the statements *)
(* ================================================================== *)

(** Two maps with the same keys, in the same order, and related values. *)
Definition map_rel {V : Type} (R : V -> V -> Prop) (m' m : JS.Map V) : Prop :=
  Forall2 (fun e' e => fst e' = fst e /\ R (snd e') (snd e)) m' m.

(** The drone [d'] is the drone [d] some steps later, as far as identity and
    health go: same id and swarm, and a health that started at 0 or more is
    still at 0 or more and no higher. *)
Definition wears (d' d : Drone) : Prop :=
  id d' = id d /\ swarmId d' = swarmId d /\
  (0 <= health d -> 0 <= health d' <= health d).

Definition health_ok (d : Drone) : Prop := 0 <= health d <= App.DRONE_HEALTH.

Definition healthy (w : App.World) : Prop :=
  forall d, In d (App.all_drones w) -> health_ok d.

(** [c] occurs in [s]. *)
Fixpoint char_in (c : ascii) (s : string) : bool :=
  match s with
  | EmptyString => false
  | String a s' => Ascii.eqb a c || char_in c s'
  end.

(** [s] is white space only. *)
Fixpoint all_space (s : string) : bool :=
  match s with
  | EmptyString => true
  | String c s' => JS.is_space c && all_space s'
  end.

Fixpoint last_char (s : string) : option ascii :=
  match s with
  | EmptyString => None
  | String c EmptyString => Some c
  | String _ s' => last_char s'
  end.

(** Some comma of [s] has only white space between it and the end of [s]. *)
Fixpoint hanging_comma (s : string) : bool :=
  match s with
  | EmptyString => false
  | String c s' => (Ascii.eqb c ","%char && all_space s') || hanging_comma s'
  end.

(** A text that begins with an opening brace and ends with a closing
    brace, and holds neither a markdown fence nor an opening think tag. *)
Definition plain_object (s : string) : Prop :=
  (exists rest, s = String "{"%char rest)
  /\ last_char s = Some "}"%char
  /\ JS.includes s GeminiService.fence = false
  /\ JS.includes s "<think>" = false.

(** The function that [updateDroneIntent] maps over a roster. *)
Definition updater (k : string) (u : PartialDrone) (d : Drone) : Drone :=
  if String.eqb (id d) k then spread d u else d.

(** A drone that the tick does not move: it is neither Attacking nor
    Moving. *)
Definition resting (d : Drone) : bool :=
  negb (DroneStatus_eqb (status d) Attacking) && negb (DroneStatus_eqb (status d) Moving).

(** What a tick may do to a drone: it keeps its id, its swarm and its
    target position; a Disabled drone is left as it is; a resting drone
    keeps its position and stays at rest. *)
Definition ticked (d' d : Drone) : Prop :=
  id d' = id d /\ swarmId d' = swarmId d /\ targetPosition d' = targetPosition d
  /\ (App.is_disabled d = true -> d' = d)
  /\ (resting d = true -> position d' = position d /\ resting d' = true).

(** The rosters hold the drones they were created with, in order, each on
    its side. *)
Definition rosters_intact (w : App.World) : Prop :=
  map id (App.blueDrones w) = map id (App.createInitialSwarm blue)
  /\ map id (App.redDrones w) = map id (App.createInitialSwarm red)
  /\ Forall (fun d => swarmId d = blue) (App.blueDrones w)
  /\ Forall (fun d => swarmId d = red) (App.redDrones w).

(** What the scheduler never touches in a drone. *)
Definition same_body (d d' : Drone) : Prop :=
  id d' = id d /\ swarmId d' = swarmId d /\ position d' = position d
  /\ health d' = health d.

(** The Moving branch of the tick, on one drone: a Moving drone closer
    than DRONE_SPEED to its target position lands on it and turns Idle,
    any other Moving drone takes one step; a drone that is not Moving is
    left as it is. *)
Definition march (d : Drone) : Drone :=
  if DroneStatus_eqb (status d) Moving then
    let dx := (x (targetPosition d) - x (position d))%float in
    let dy := (y (targetPosition d) - y (position d))%float in
    let dist := App.distance dx dy in
    if (dist <? App.DRONE_SPEED)%float
    then App.with_status Idle (App.with_position (targetPosition d) d)
    else App.with_position (App.advance (position d) dx dy dist) d
  else d.

(** Both rosters of [w'] hold the drones of [w], place by place, with the
    same bodies. *)
Definition bodies_kept (w w' : App.World) : Prop :=
  Forall2 same_body (App.blueDrones w) (App.blueDrones w')
  /\ Forall2 same_body (App.redDrones w) (App.redDrones w').

(** The re-entrancy guard lists the ids of the calls in flight, and no id
    twice. *)
Definition one_call_each (w : App.World) : Prop :=
  App.thinkingDrones w = map id (App.pending w) /\ NoDup (App.thinkingDrones w).

(** The id of [d] has the prefix of its swarm. *)
Definition sided (d : Drone) : Prop :=
  JS.startsWith (id d) "b-" = App.swarm_eqb (swarmId d) blue.

(** The target of [d], when it has one, is one of [ids]. *)
Definition aims_at (ids : list string) (d : Drone) : Prop :=
  match targetId d with
  | Some t => In t ids
  | None => True
  end.

(** No drone targets a drone of its own swarm: a target that is set is the
    id of one of the drones the other swarm was created with. *)
Definition no_friendly_fire (w : App.World) : Prop :=
  Forall (aims_at (map id (App.createInitialSwarm red))) (App.blueDrones w)
  /\ Forall (aims_at (map id (App.createInitialSwarm blue))) (App.redDrones w).

(** The drones that closures and calls in flight hold are on their side. *)
Definition closures_sided (w : App.World) : Prop :=
  Forall sided (App.captured w) /\ Forall sided (App.pending w).

(** What a tick may do to a target: keep it or clear it; and it makes no
    drone Attacking that was not. *)
Definition retargets (d' d : Drone) : Prop :=
  id d' = id d /\ swarmId d' = swarmId d
  /\ (targetId d' = targetId d \/ targetId d' = None)
  /\ (status d' = Attacking -> status d = Attacking).

(** The drone [d] is Attacking the drone of id [k]. *)
Definition targets (k : string) (d : Drone) : bool :=
  DroneStatus_eqb (status d) Attacking
  && match targetId d with
     | Some t => String.eqb t k
     | None => false
     end.

Definition is_reset (e : App.Event) : bool :=
  match e with App.Reset => true | _ => false end.

(** Some suffix of [s] begins with a comma, white space and a closing brace
    or bracket. *)
Fixpoint has_trailing_comma (s : string) : bool :=
  match GeminiService.trailing_comma_at s with
  | Some _ => true
  | None => match s with
            | EmptyString => false
            | String _ s' => has_trailing_comma s'
            end
  end.

(** No character of [s] is one of [chars]. *)
Fixpoint free_of (chars s : string) : bool :=
  match s with
  | EmptyString => true
  | String c s' => negb (char_in c chars) && free_of chars s'
  end.

(** ** Sample inputs *)

Module Sample.

(** A text written with apostrophes, read with double quotes. *)
Fixpoint quoted (s : string) : string :=
  match s with
  | EmptyString => EmptyString
  | String c s' => String (if Ascii.eqb c "'"%char then JS.dquote else c) (quoted s')
  end.

Definition newline : string := String "010"%char EmptyString.

(** A source of [Math.random] that never samples a combat line. *)
Definition quiet : nat -> float := fun _ => 1%float.

Definition rate_limited : GeminiService.Thrown :=
  GeminiService.new_Error "429 Too Many Requests".

(** The message of a quota error, as the cloud client reports it. *)
Definition quota_error_message : string :=
  quoted "got status: 429 Too Many Requests. {'error':{'code':429,'message':'Quota exceeded','status':'RESOURCE_EXHAUSTED','details':[{'@type':'type.googleapis.com/google.rpc.Help'},{'@type':'type.googleapis.com/google.rpc.RetryInfo','retryDelay':'27s'}]}}".

(** A payload inside a markdown fence tagged json. *)
Definition fenced (payload : string) : string :=
  GeminiService.fence ++ "json" ++ newline ++ payload ++ newline ++ GeminiService.fence.

(** Scenario 4 of the specification: a Hold decision, well formed, and the
    same with a comma before the brace that closes the action. *)
Definition hold_document : string :=
  quoted "{'stratagem_name':'X','justification':'Y','action':{'type':'HOLD'}}".

Definition hold_document_trailing_comma : string :=
  quoted "{'stratagem_name':'X','justification':'Y','action':{'type':'HOLD',}}".

(** A well-formed Hold decision whose justification quotes a fence. *)
Definition fence_in_text : string :=
  quoted "{'stratagem_name':'X','justification':'use ``` fences','action':{'type':'HOLD'}}".

Definition fence_in_text_trailing_comma : string :=
  quoted "{'stratagem_name':'X','justification':'use ``` fences','action':{'type':'HOLD',}}".

(** [v.action.type] of a parsed decision. *)
Definition action_type_of (o : GeminiService.Outcome JS.json) : option JS.json :=
  match o with
  | GeminiService.Returns v =>
      match JS.property v "action" with
      | Some a => JS.property a "type"
      | None => None
      end
  | GeminiService.Throws _ => None
  end.

Definition attack (t : string) : App.OracleOutcome :=
  App.Resolved (Some (mkStratagem "Focused Fire" "Strike where the enemy is weak."
                        (mkAction ATTACK (Some t) None))).

Definition hold : App.OracleOutcome :=
  App.Resolved (Some (mkStratagem "Stillness" "Wait for the enemy to move."
                        (mkAction HOLD None None))).

(** A Move decision that carries no position. *)
Definition move_nowhere : App.OracleOutcome :=
  App.Resolved (Some (mkStratagem "Reposition" "Take the high ground."
                        (mkAction MOVE None None))).


Definition ticks (n : nat) : list App.Event := repeat (App.Tick quiet) n.

(** The opening line-up with r-drone-0 out of action. *)
Definition casualty : App.World :=
  App.set_state
    (App.updateDroneIntent App.initialWorld "r-drone-0"
       (mkPartial None None None (Some Disabled) None (Some 0) None))
    Running.

(** The opening line-up with b-drone-1 on its way to (10, 10). *)
Definition on_the_way : App.World :=
  App.set_state
    (App.updateDroneIntent App.initialWorld "b-drone-1"
       (mkPartial None None None (Some Moving) (Some (mkVector 10 10)) None None))
    Running.


(** The drone of that id, as a run left it. *)
Definition drone_after (es : list App.Event) (k : string) : option Drone :=
  match App.run App.initialWorld es with
  | Some w => find (fun d => String.eqb (id d) k) (App.all_drones w)
  | None => None
  end.

Definition logged (es : list App.Event) (msg : string) : nat :=
  match App.run App.initialWorld es with
  | Some w => List.length (filter (fun e => String.eqb (message e) msg) (App.logs w))
  | None => 0%nat
  end.

(** The simulation starts; b-drone-0 decides to attack r-drone-0, which
    is 400 away; [n] ticks pass. *)
Definition assault (n : nat) : list App.Event :=
  ([App.Toggle; App.Think 0; App.Answer 0 (attack "r-drone-0")] ++ ticks n)%list.

(** Scenario 1 of the specification: an attacker at (100,100) and its
    target at (100,300). *)
Definition duel : App.World :=
  App.mkWorld
    [mkDrone "b-drone-0" blue (mkVector 100 100) Attacking (mkVector 100 100) 100
             (Some "r-drone-0")]
    [mkDrone "r-drone-0" red (mkVector 100 300) Idle (mkVector 100 300) 100 None]
    Running [] [] [] [].

End Sample.

(* ================================================================== *)
(** * The tick engine: health *)
(* ================================================================== *)

Section MapFacts.
Context {V : Type}.
Variable R : V -> V -> Prop.

Hypothesis R_refl : forall v, R v v.
Hypothesis R_trans : forall a b c, R a b -> R b c -> R a c.

Lemma map_rel_refl m : map_rel R m m.
Proof. induction m; constructor; auto. Qed.

Lemma map_rel_trans m1 m2 m3 : map_rel R m1 m2 -> map_rel R m2 m3 -> map_rel R m1 m3.
Proof.
  intros H12; revert m3.
  induction H12 as [|e1 e2 l1 l2 [Hk Hv] _ IH]; intros m3 H23;
    inversion H23 as [|? e3 ? l3 [Hk' Hv'] Ht]; subst; constructor.
  - split; [congruence | eauto].
  - apply IH; assumption.
Qed.

Lemma set_rel m k v v0 :
  JS.get m k = Some v0 -> R v v0 -> map_rel R (JS.set m k v) m.
Proof.
  induction m as [|[k' v'] m IH]; simpl; intros Hg Hr.
  - discriminate.
  - destruct (String.eqb k' k).
    + injection Hg as ->. constructor; [split; auto | apply map_rel_refl].
    + constructor; [split; auto | apply IH; assumption].
Qed.

Lemma mutate_rel m k f :
  (forall v, R (f v) v) -> map_rel R (JS.mutate m k f) m.
Proof.
  intros Hf. unfold JS.mutate. destruct (JS.get m k) eqn:Hg.
  - eapply set_rel; eauto.
  - apply map_rel_refl.
Qed.

Lemma map_rel_values m' m v' :
  map_rel R m' m -> In v' (JS.values m') -> exists v, In v (JS.values m) /\ R v' v.
Proof.
  induction 1 as [|e' e l' l [_ Hv] _ IH]; simpl; intros Hin; [contradiction|].
  destruct Hin as [<- | Hin].
  - exists (snd e). split; [now left | exact Hv].
  - destruct (IH Hin) as [v [Hin' Hr]]. exists v; split; [now right | exact Hr].
Qed.
End MapFacts.

Lemma values_set_In {V} (m : JS.Map V) k v v' :
  In v' (JS.values (JS.set m k v)) -> v' = v \/ In v' (JS.values m).
Proof.
  induction m as [|[k0 v0] m IH]; simpl.
  - intros [<- | []]. now left.
  - destruct (String.eqb k0 k); simpl.
    + intros [<- | H]; [now left | right; now right].
    + intros [<- | H]; [right; now left |].
      destruct (IH H); [now left | right; now right].
Qed.

Lemma wears_refl d : wears d d.
Proof. unfold wears; intuition lia. Qed.

Lemma wears_trans a b c : wears a b -> wears b c -> wears a c.
Proof. unfold wears; intros (?&?&?) (?&?&?); intuition (congruence || lia). Qed.

Create HintDb tick.
#[local] Hint Resolve wears_refl wears_trans : tick.

Lemma wears_damage d : wears (App.with_health (Z.max 0 (health d - App.ATTACK_DAMAGE)) d) d.
Proof. unfold wears, App.with_health, App.ATTACK_DAMAGE; simpl. intuition lia. Qed.

Lemma wears_frame d' d :
  id d' = id d -> swarmId d' = swarmId d -> health d' = health d -> wears d' d.
Proof. unfold wears; intros -> -> ->; intuition lia. Qed.

Ltac frame_wear := intros; apply wears_frame; reflexivity.

Lemma strike_wears random st key tkey :
  map_rel wears (App.tk_drones (App.strike random st key tkey)) (App.tk_drones st).
Proof.
  unfold App.strike.
  set (m1 := JS.mutate (App.tk_drones st) tkey _).
  assert (H1 : map_rel wears m1 (App.tk_drones st)).
  { apply mutate_rel; auto with tick. intros; apply wears_damage. }
  set (st2 := if (_ <? _)%float then _ else _).
  assert (E2 : App.tk_drones st2 = m1) by (subst st2; destruct (_ <? _)%float; reflexivity).
  rewrite E2. destruct (JS.get m1 tkey) as [t|]; [|rewrite E2; exact H1].
  destruct (health t =? 0); [|rewrite E2; exact H1].
  simpl. rewrite E2.
  eapply map_rel_trans; [exact wears_trans | | exact H1].
  eapply map_rel_trans; [exact wears_trans | |].
  - apply mutate_rel; auto with tick. frame_wear.
  - apply mutate_rel; auto with tick. frame_wear.
Qed.

Lemma tick_body_wears random st key :
  map_rel wears (App.tk_drones (App.tick_body random st key)) (App.tk_drones st).
Proof.
  unfold App.tick_body.
  destruct (JS.get (App.tk_drones st) key) as [drone|]; [|apply map_rel_refl; auto with tick].
  destruct (App.is_disabled drone); [apply map_rel_refl; auto with tick|].
  destruct (if DroneStatus_eqb (status drone) Attacking then _ else None) as [tkey|].
  - destruct (JS.get (App.tk_drones st) tkey) as [target|]; simpl.
    + destruct (negb (App.is_disabled target)); simpl.
      * destruct (_ <? _)%float; simpl.
        -- apply mutate_rel; auto with tick. frame_wear.
        -- apply strike_wears.
      * apply mutate_rel; auto with tick. frame_wear.
    + apply mutate_rel; auto with tick. frame_wear.
  - destruct (DroneStatus_eqb (status drone) Moving); [|apply map_rel_refl; auto with tick].
    destruct (_ <? _)%float; simpl; apply mutate_rel; auto with tick; frame_wear.
Qed.

Lemma tick_loop_wears random keys st :
  map_rel wears (App.tk_drones (fold_left (App.tick_body random) keys st)) (App.tk_drones st).
Proof.
  revert st; induction keys as [|k keys IH]; intros st; simpl.
  - apply map_rel_refl; auto with tick.
  - eapply map_rel_trans; [exact wears_trans | apply IH | apply tick_body_wears].
Qed.

Lemma nextDronesState_values l m0 d :
  In d (JS.values (fold_left (fun m d => JS.set m (id d) d) l m0)) ->
  In d l \/ In d (JS.values m0).
Proof.
  revert m0; induction l as [|a l IH]; intros m0; simpl; [now right|].
  intros H. destruct (IH _ H) as [H1 | H1]; [left; now right|].
  destruct (values_set_In _ _ _ _ H1) as [-> | H2]; [left; now left | now right].
Qed.

(** Every drone that a tick commits is one of the drones it started from,
    worn by the tick. *)
Lemma tick_wears random w d' :
  In d' (App.all_drones (App.simulationInterval random w)) ->
  exists d, In d (App.all_drones w) /\ wears d' d.
Proof.
  unfold App.simulationInterval.
  set (next := App.nextDronesState w).
  set (st := fold_left _ _ _).
  set (all := JS.values (App.tk_drones st)).
  intros Hin.
  assert (Hall : In d' all).
  { destruct (negb _ || negb _); unfold App.all_drones in Hin; simpl in Hin;
      apply in_app_or in Hin; destruct Hin as [H | H];
      apply filter_In in H; tauto. }
  destruct (map_rel_values wears _ _ _ (tick_loop_wears random (JS.keys next) (App.mkTick next (App.logs w) 0)) Hall)
    as [d [Hd Hw]].
  exists d; split; [|exact Hw].
  simpl in Hd. unfold next, App.nextDronesState in Hd.
  apply nextDronesState_values in Hd. destruct Hd as [Hd | []]. exact Hd.
Qed.

(** ** Reading a map after a write *)

Lemma get_set {V} (m : JS.Map V) k v v0 k' :
  JS.get m k = Some v0 ->
  JS.get (JS.set m k v) k' = if String.eqb k k' then Some v else JS.get m k'.
Proof.
  induction m as [|[k0 w0] m IH]; simpl; [discriminate|].
  destruct (String.eqb k0 k) eqn:E0.
  - apply String.eqb_eq in E0; subst k0. intros _. simpl.
    destruct (String.eqb k k'); reflexivity.
  - intros Hg. simpl. destruct (String.eqb k0 k') eqn:E1.
    + apply String.eqb_eq in E1; subst k0.
      rewrite String.eqb_sym, E0. reflexivity.
    + apply IH, Hg.
Qed.

Lemma get_mutate {V} (m : JS.Map V) k f k' :
  JS.get (JS.mutate m k f) k' =
  if String.eqb k k' then option_map f (JS.get m k') else JS.get m k'.
Proof.
  unfold JS.mutate. destruct (JS.get m k) as [v0|] eqn:Hg.
  - rewrite (get_set m k (f v0) v0 k' Hg).
    destruct (String.eqb k k') eqn:E; [|reflexivity].
    apply String.eqb_eq in E; subst k'. rewrite Hg. reflexivity.
  - destruct (String.eqb k k') eqn:E; [|reflexivity].
    apply String.eqb_eq in E; subst k'. rewrite Hg. reflexivity.
Qed.

(** What [strike] leaves as the health of its target. *)
Lemma strike_health random st key tkey target :
  JS.get (App.tk_drones st) tkey = Some target ->
  option_map health (JS.get (App.tk_drones (App.strike random st key tkey)) tkey)
  = Some (Z.max 0 (health target - App.ATTACK_DAMAGE)).
Proof.
  intros Hg. unfold App.strike.
  set (m1 := JS.mutate (App.tk_drones st) tkey _).
  assert (G1 : JS.get m1 tkey
               = Some (App.with_health (Z.max 0 (health target - App.ATTACK_DAMAGE)) target)).
  { unfold m1. rewrite get_mutate, String.eqb_refl, Hg. reflexivity. }
  set (st2 := if (_ <? _)%float then _ else _).
  assert (E2 : App.tk_drones st2 = m1) by (subst st2; destruct (_ <? _)%float; reflexivity).
  rewrite E2, G1. cbn [health App.with_health].
  destruct (Z.max 0 (health target - App.ATTACK_DAMAGE) =? 0).
  - cbn [App.tk_drones App.tick_addLog]. rewrite E2.
    rewrite !get_mutate, String.eqb_refl, G1.
    destruct (String.eqb key tkey); reflexivity.
  - rewrite E2, G1. reflexivity.
Qed.


(** ** The bound on health, along every run *)

Lemma createInitialSwarm_health s d : In d (App.createInitialSwarm s) -> health_ok d.
Proof.
  unfold App.createInitialSwarm. intros H. apply in_map_iff in H.
  destruct H as [i [<- _]]. unfold health_ok, App.DRONE_HEALTH; simpl. lia.
Qed.

Lemma healthy_same_drones w w' :
  App.blueDrones w' = App.blueDrones w -> App.redDrones w' = App.redDrones w ->
  healthy w -> healthy w'.
Proof. unfold healthy, App.all_drones. intros -> ->. auto. Qed.

Lemma updater_keeps_health k u (l : list Drone) d :
  p_health u = None ->
  In d (map (fun d => if String.eqb (id d) k then spread d u else d) l) ->
  exists d0, In d0 l /\ health d = health d0.
Proof.
  intros Hu H. apply in_map_iff in H. destruct H as [d0 [<- Hin]].
  exists d0; split; [assumption|].
  destruct (String.eqb (id d0) k); [|reflexivity].
  unfold spread; simpl. rewrite Hu. reflexivity.
Qed.

Lemma updateDroneIntent_healthy w k u :
  p_health u = None -> healthy w -> healthy (App.updateDroneIntent w k u).
Proof.
  intros Hu Hw d. unfold App.updateDroneIntent, App.all_drones.
  destruct (JS.startsWith k "b-"); simpl; intros H; apply in_app_or in H;
    destruct H as [H | H];
    try (apply (updater_keeps_health k u _ d Hu) in H; destruct H as [d0 [Hin E]];
         unfold health_ok; rewrite E; apply Hw; unfold App.all_drones; apply in_or_app; auto);
    apply Hw; unfold App.all_drones; apply in_or_app; auto.
Qed.

Lemma addLog_healthy w msg t a : healthy w -> healthy (App.addLog w msg t a).
Proof. apply healthy_same_drones; reflexivity. Qed.

#[local] Hint Resolve updateDroneIntent_healthy addLog_healthy : tick.

Lemma runDroneLogic_begin_healthy w drone w' :
  App.runDroneLogic_begin w drone = Some w' -> healthy w -> healthy w'.
Proof.
  unfold App.runDroneLogic_begin. destruct (_ || _); [discriminate|].
  intros [= <-] Hw.
  eapply healthy_same_drones; [reflexivity | reflexivity |].
  apply updateDroneIntent_healthy; [reflexivity|].
  eapply healthy_same_drones; [reflexivity | reflexivity | exact Hw].
Qed.

Ltac intent_healthy :=
  repeat first [ assumption
               | apply updateDroneIntent_healthy; [reflexivity|]
               | apply addLog_healthy ].

Lemma runDroneLogic_resume_healthy w drone o :
  healthy w -> healthy (App.runDroneLogic_resume w drone o).
Proof.
  intros Hw. unfold App.runDroneLogic_resume, App.runDroneLogic_finally.
  eapply healthy_same_drones; [reflexivity | reflexivity |].
  destruct o as [[s|]|msg].
  - destruct (negb (App.running w)); [exact Hw|].
    destruct (negb _); [exact Hw|].
    destruct (action_type (action s)).
    + intent_healthy.
    + destruct (target_id (action s)) as [t|]; [destruct (_ && _)|]; intent_healthy.
    + intent_healthy.
  - destruct (negb (App.running w)); [exact Hw|].
    destruct (negb _); [exact Hw|].
    intent_healthy.
  - destruct (negb (App.running w)); [exact Hw|].
    destruct (match _ with Some c => _ | None => false end); [|exact Hw].
    intent_healthy.
Qed.

Lemma simulationInterval_healthy random w :
  healthy w -> healthy (App.simulationInterval random w).
Proof.
  intros Hw d' Hin. destruct (tick_wears random w d' Hin) as [d [Hd (_ & _ & Hh)]].
  specialize (Hw d Hd). unfold health_ok in *. lia.
Qed.

Lemma fire_healthy w e w' : App.fire w e = Some w' -> healthy w -> healthy w'.
Proof.
  destruct e as [random | i | i o | |]; simpl.
  - destruct (App.running w); [|discriminate]. intros [= <-].
    apply simulationInterval_healthy.
  - destruct (nth_error (App.captured w) i) as [drone|]; [|discriminate].
    intros [= <-] Hw.
    destruct (App.runDroneLogic_begin w drone) eqn:E; [|exact Hw].
    eapply runDroneLogic_begin_healthy; eauto.
  - destruct (nth_error (App.pending w) i) as [drone|]; [|discriminate].
    intros [= <-] Hw. apply runDroneLogic_resume_healthy.
    eapply healthy_same_drones; [reflexivity | reflexivity | exact Hw].
  - intros [= <-]. unfold App.toggle.
    destruct (App.running w); apply healthy_same_drones; reflexivity.
  - intros [= <-] _ d Hin.
    change (In d (App.createInitialSwarm blue ++ App.createInitialSwarm red)) in Hin.
    apply in_app_or in Hin. destruct Hin; eapply createInitialSwarm_health; eauto.
Qed.

Lemma run_healthy es : forall w w', App.run w es = Some w' -> healthy w -> healthy w'.
Proof.
  induction es as [|e es IH]; simpl; intros w w'.
  - intros [= <-]; auto.
  - destruct (App.fire w e) as [w1|] eqn:E; [|discriminate].
    intros Hr Hw. eapply IH; [exact Hr|]. eapply fire_healthy; eauto.
Qed.

Lemma initialWorld_healthy : healthy App.initialWorld.
Proof.
  intros d Hin.
  change (In d (App.createInitialSwarm blue ++ App.createInitialSwarm red)) in Hin.
  apply in_app_or in Hin. destruct Hin; eapply createInitialSwarm_health; eauto.
Qed.

(** C1. Along every run of the component from its initial state, every
    drone's health is within [0, 100] after each event, so at every tick
    boundary; the next tick commits every drone with a health that is still
    within the bounds and no higher than before; and a strike leaves its
    target with its health less ATTACK_DAMAGE, floored at 0. *)
Theorem C1_health_within_bounds (es : list App.Event) (w : App.World) :
  App.run App.initialWorld es = Some w ->
  (forall d, In d (App.all_drones w) -> 0 <= health d <= 100)
  /\ (forall random d',
        In d' (App.all_drones (App.simulationInterval random w)) ->
        0 <= health d' <= 100
        /\ exists d, In d (App.all_drones w) /\ id d' = id d /\ health d' <= health d)
  /\ (forall random st key tkey target,
        JS.get (App.tk_drones st) tkey = Some target ->
        option_map health (JS.get (App.tk_drones (App.strike random st key tkey)) tkey)
        = Some (Z.max 0 (health target - 5))).
Proof.
  intros Hrun.
  assert (Hw : healthy w) by (eapply run_healthy; [exact Hrun | exact initialWorld_healthy]).
  split; [exact Hw | split].
  - intros random d' Hin. split.
    + exact (simulationInterval_healthy random w Hw d' Hin).
    + destruct (tick_wears random w d' Hin) as [d [Hd (Hid & _ & Hh)]].
      exists d. repeat split; auto. specialize (Hw d Hd). unfold health_ok in Hw. lia.
  - intros. apply strike_health; assumption.
Qed.

Lemma C1_health_within_bounds_witness :
  exists w, App.run App.initialWorld [App.Toggle; App.Tick Sample.quiet] = Some w
            /\ forall d, In d (App.all_drones w) -> 0 <= health d <= 100.
Proof.
  eexists. split; [vm_compute; reflexivity|].
  apply (C1_health_within_bounds [App.Toggle; App.Tick Sample.quiet]).
  vm_compute; reflexivity.
Defined.

(* ================================================================== *)
(** * The event log *)
(* ================================================================== *)

Lemma slice_last_length {A} n (l : list A) :
  List.length (App.slice_last n l) = Nat.min (List.length l) n.
Proof. unfold App.slice_last. rewrite length_skipn. lia. Qed.

Lemma slice_last_suffix {A} n (l : list A) :
  l = (firstn (List.length l - n) l ++ App.slice_last n l)%list.
Proof. unfold App.slice_last. symmetry. apply firstn_skipn. Qed.

(** C5. An append keeps the last 100 entries of the log and adds the new
    one after them: the oldest entries go first, and the log then holds one
    more than the smaller of its old length and 100. A log of 100 entries
    has 101 after an append, so the bound of 100 does not hold. *)
Theorem C5_log_holds_101 :
  (forall prev entry,
      List.length (App.addLog_updater prev entry) = S (Nat.min (List.length prev) 100)
      /\ exists dropped kept,
           prev = (dropped ++ kept)%list
           /\ App.addLog_updater prev entry = (kept ++ [entry])%list)
  /\ (let entry := mkLogEntry "tick" Info None in
      List.length (App.addLog_updater (repeat entry 100) entry) = 101%nat).
Proof.
  split.
  - intros prev entry. unfold App.addLog_updater. split.
    + rewrite length_app, slice_last_length. simpl. lia.
    + exists (firstn (List.length prev - 100) prev), (App.slice_last 100 prev).
      split; [apply slice_last_suffix | reflexivity].
  - reflexivity.
Qed.

(* ================================================================== *)
(** * The oracle client: retries *)
(* ================================================================== *)

Import GeminiService.

Section Retries.

Variable sem : string -> string.
Variable backend : nat -> Outcome string.
Variable random : nat -> Q.

Let request := GeminiService.request sem backend.
Let attempt_loop := GeminiService.attempt_loop sem backend random.

Lemma attempt_loop_sends left :
  (1 <= attempts (GeminiService.attempt_loop sem backend random (S left)))%nat.
Proof.
  cbn [GeminiService.attempt_loop]. cbn zeta.
  destruct (GeminiService.request _ _ _); [simpl; lia|].
  destruct (_ && _); simpl; lia.
Qed.

(** The loop with [left] iterations to go sends its k-th request as
    request number [MAX_RETRIES - left + k]. *)
Lemma attempt_loop_spec left :
  (left <= MAX_RETRIES)%nat ->
  let c := attempt_loop left in
  let base := (MAX_RETRIES - left)%nat in
  (attempts c <= left)%nat
  /\ List.length (waits c) = Nat.pred (attempts c)
  /\ (forall k, (1 <= k < attempts c)%nat ->
                exists e, request (base + k)%nat = Throws e /\ isRateLimitError e = true
                          /\ nth_error (waits c) (k - 1)
                             = Some (finalWaitMs (base + k) e (random (base + k)%nat)))
  /\ (forall k e, (1 <= k <= attempts c)%nat ->
                  request (base + k)%nat = Throws e -> isRateLimitError e = false ->
                  attempts c = k /\ outcome c = Throws e)
  /\ (forall e, outcome c = Throws e ->
                (left = 0%nat /\ e = exhausted)
                \/ ((1 <= attempts c)%nat /\ request (base + attempts c)%nat = Throws e)).
Proof.
  unfold request, attempt_loop.
  induction left as [|left IH]; intros Hle; cbn zeta.
  - simpl. split; [lia|]. split; [reflexivity|]. split; [intros k Hk; lia|].
    split; [intros k e Hk; lia|].
    intros e [= <-]. left; auto.
  - destruct (IH ltac:(lia)) as (IHa & IHw & IHr & IHn & IHo). clear IH.
    cbn [GeminiService.attempt_loop]. cbn zeta.
    replace (MAX_RETRIES - left)%nat with (S (MAX_RETRIES - S left)) in * by lia.
    set (base := (MAX_RETRIES - S left)%nat) in *.
    destruct (GeminiService.request sem backend (S base)) as [v|error] eqn:Hreq.
    + cbn [attempts waits outcome].
      split; [lia|]. split; [reflexivity|]. split; [intros k Hk; lia|]. split.
      * intros k e Hk Hr. assert (k = 1%nat) by lia; subst k.
        replace (base + 1)%nat with (S base) in Hr by lia. congruence.
      * intros e [=].
    + destruct (isRateLimitError error && Nat.ltb (S base) MAX_RETRIES) eqn:Hretry.
      * apply andb_true_iff in Hretry. destruct Hretry as [Hrl Hlt].
        cbn [attempts waits outcome].
        split; [lia|]. split.
        { simpl. rewrite IHw.
          apply Nat.ltb_lt in Hlt.
          destruct left as [|left']; [unfold base in Hlt; lia|].
          pose proof (attempt_loop_sends left'). lia. }
        split.
        { intros k Hk. destruct k as [|[|j]]; [lia | |].
          - exists error. replace (base + 1)%nat with (S base) by lia. auto.
          - destruct (IHr (S j) ltac:(lia)) as [e (He1 & He2 & He3)].
            exists e. replace (base + S (S j))%nat with (S base + S j)%nat by lia.
            split; [exact He1|]. split; [exact He2|].
            replace (S j - 1)%nat with j in He3 by lia.
            replace (S (S j) - 1)%nat with (S j) by lia. exact He3. }
        split.
        { intros k e Hk Hr Hn. destruct (Nat.eq_dec k 1) as [->|Hk1].
          - replace (base + 1)%nat with (S base) in Hr by lia. congruence.
          - replace (base + k)%nat with (S base + (k - 1))%nat in Hr by lia.
            destruct (IHn (k - 1)%nat e ltac:(lia) Hr Hn) as [E1 E2].
            split; [lia | exact E2]. }
        { intros e He. right. split; [lia|].
          destruct (IHo e He) as [[H0 _] | [H1 H2]].
          - apply Nat.ltb_lt in Hlt. unfold base in Hlt. lia.
          - replace (base + S (attempts (GeminiService.attempt_loop sem backend random left)))%nat
              with (S base + attempts (GeminiService.attempt_loop sem backend random left))%nat
              by lia.
            exact H2. }
      * cbn [attempts waits outcome].
        split; [lia|]. split; [reflexivity|]. split; [intros k Hk; lia|]. split.
        { intros k e Hk Hr _. assert (k = 1%nat) by lia; subst k.
          replace (base + 1)%nat with (S base) in Hr by lia. split; congruence. }
        { intros e [= <-]. right. split; [lia|].
          replace (base + 1)%nat with (S base) by lia. exact Hreq. }
Qed.

End Retries.



(** C4, as the source has it. When the three requests all fail with
    rate-limit errors, the call re-throws the error of the third request,
    after exactly 3 requests and 2 waits; and whatever a call throws once
    the client exists is what one of its requests threw, so the
    exhausted-retries error written after the loop is never the one raised. *)
Theorem C4_third_failure_is_rethrown
        (sem : string -> string) (backend : nat -> Outcome string) (random : nat -> Q) :
  let call := getGoogleAIAction sem backend random true in
  (forall e1 e2 e3,
      request sem backend 1 = Throws e1 -> isRateLimitError e1 = true ->
      request sem backend 2 = Throws e2 -> isRateLimitError e2 = true ->
      request sem backend 3 = Throws e3 -> isRateLimitError e3 = true ->
      outcome call = Throws e3 /\ attempts call = 3%nat
      /\ List.length (waits call) = 2%nat)
  /\ (forall e, outcome call = Throws e ->
                exists n, (1 <= n <= 3)%nat /\ request sem backend n = Throws e).
Proof.
  cbn zeta. split.
  - intros e1 e2 e3 H1 R1 H2 R2 H3 R3.
    cbv beta iota zeta delta [getGoogleAIAction negb attempt_loop MAX_RETRIES Nat.sub
                              Nat.ltb Nat.leb].
    rewrite H1, R1. cbn [andb]. rewrite H2, R2. cbn [andb]. rewrite H3, R3.
    cbn [andb attempts outcome waits List.length]. repeat split.
  - intros e He. unfold getGoogleAIAction in He; cbn [negb] in He.
    destruct (attempt_loop_spec sem backend random MAX_RETRIES (le_n _))
      as (Ha & _ & _ & _ & Ho).
    destruct (Ho e He) as [[H0 _] | [H1 H2]]; [discriminate H0|].
    exists (attempts (attempt_loop sem backend random MAX_RETRIES)).
    split; [split; [exact H1 | exact Ha] | exact H2].
Qed.

Lemma C4_third_failure_is_rethrown_witness :
  outcome (getGoogleAIAction (fun _ => "") (fun _ => Throws Sample.rate_limited) (fun _ => 0%Q) true)
  = Throws Sample.rate_limited.
Proof.
  apply (proj1 (C4_third_failure_is_rethrown (fun _ => "") (fun _ => Throws Sample.rate_limited)
                  (fun _ => 0%Q)) Sample.rate_limited Sample.rate_limited Sample.rate_limited);
    reflexivity.
Defined.

(** C4 as stated fails: three rate-limit failures do not yield the
    exhausted-retries error. *)
Lemma C4_counterexample :
  ~ (forall (sem : string -> string) (backend : nat -> Outcome string) (random : nat -> Q),
        (forall n, (1 <= n <= 3)%nat ->
                   exists e, request sem backend n = Throws e /\ isRateLimitError e = true) ->
        outcome (getGoogleAIAction sem backend random true) = Throws exhausted).
Proof.
  intros H.
  specialize (H (fun _ => "") (fun _ => Throws Sample.rate_limited) (fun _ => 0%Q)).
  assert (E : outcome (getGoogleAIAction (fun _ => "") (fun _ => Throws Sample.rate_limited)
                         (fun _ => 0%Q) true) = Throws exhausted).
  { apply H. intros n _. exists Sample.rate_limited. split; reflexivity. }
  vm_compute in E. discriminate E.
Qed.

(** ** The waits *)




(* ================================================================== *)
(** * The scheduler: what a decision writes *)
(* ================================================================== *)

Lemma updateDroneIntent_own w k u s :
  JS.startsWith k "b-" = App.swarm_eqb s blue ->
  App.swarm_of (App.updateDroneIntent w k u) s = map (updater k u) (App.swarm_of w s)
  /\ App.enemy_of (App.updateDroneIntent w k u) s = App.enemy_of w s.
Proof.
  unfold App.updateDroneIntent. intros ->. destruct s; simpl; split; reflexivity.
Qed.

Lemma finally_update m k u drone s :
  JS.startsWith k "b-" = App.swarm_eqb s blue ->
  App.swarm_of (App.runDroneLogic_finally (App.updateDroneIntent m k u) drone) s
  = map (updater k u) (App.swarm_of m s)
  /\ App.enemy_of (App.runDroneLogic_finally (App.updateDroneIntent m k u) drone) s
     = App.enemy_of m s.
Proof. exact (updateDroneIntent_own m k u s). Qed.

Lemma swarm_of_addLog w msg t a s : App.swarm_of (App.addLog w msg t a) s = App.swarm_of w s.
Proof. destruct s; reflexivity. Qed.

Lemma enemy_of_addLog w msg t a s : App.enemy_of (App.addLog w msg t a) s = App.enemy_of w s.
Proof. destruct s; reflexivity. Qed.

Lemma Forall2_updater (P : Drone -> Drone -> Prop) k u l :
  (forall d, P d (updater k u d)) -> Forall2 P l (map (updater k u) l).
Proof. intros H. induction l; simpl; constructor; auto. Qed.


(* ================================================================== *)
(** * The tick engine: attack and advance *)
(* ================================================================== *)






(** A strike that takes the last health of a target disables it and
    stands the attacker down: status Idle, no target. *)
Lemma strike_kills random st key tkey drone target :
  JS.get (App.tk_drones st) key = Some drone ->
  JS.get (App.tk_drones st) tkey = Some target ->
  key <> tkey ->
  health target <= App.ATTACK_DAMAGE ->
  JS.get (App.tk_drones (App.strike random st key tkey)) tkey
  = Some (App.with_status Disabled (App.with_health 0 target))
  /\ JS.get (App.tk_drones (App.strike random st key tkey)) key
     = Some (App.stand_down drone).
Proof.
  intros Hd Hg Hne Hh. unfold App.strike.
  assert (Nkt : String.eqb key tkey = false) by (apply String.eqb_neq; exact Hne).
  assert (Ntk : String.eqb tkey key = false) by (rewrite String.eqb_sym; exact Nkt).
  set (m1 := JS.mutate (App.tk_drones st) tkey _).
  assert (G1 : JS.get m1 tkey = Some (App.with_health 0 target)).
  { unfold m1. rewrite get_mutate, String.eqb_refl, Hg. cbn [option_map].
    replace (Z.max 0 (health target - App.ATTACK_DAMAGE)) with 0 by lia. reflexivity. }
  assert (G2 : JS.get m1 key = Some drone).
  { unfold m1. rewrite get_mutate, Ntk. exact Hd. }
  set (st2 := if (_ <? _)%float then _ else _).
  assert (E2 : App.tk_drones st2 = m1) by (subst st2; destruct (_ <? _)%float; reflexivity).
  rewrite E2, G1. cbn [health App.with_health Z.eqb].
  cbn [App.tk_drones App.tick_addLog]. rewrite E2, !get_mutate.
  rewrite !String.eqb_refl, Nkt, Ntk, G1, G2. split; reflexivity.
Qed.

(** The loop body leaves every Disabled drone of the map as it is: the
    tick engine by itself neither damages nor revives one. *)
Lemma tick_body_spares_disabled random st key k d :
  JS.get (App.tk_drones st) k = Some d ->
  App.is_disabled d = true ->
  JS.get (App.tk_drones (App.tick_body random st key)) k = Some d.
Proof.
  intros Hk Hdis. unfold App.tick_body.
  destruct (JS.get (App.tk_drones st) key) as [drone|] eqn:Hd; [|exact Hk].
  destruct (App.is_disabled drone) eqn:Hlive; [exact Hk|].
  assert (Nk : String.eqb key k = false).
  { destruct (String.eqb key k) eqn:E; [|reflexivity].
    apply String.eqb_eq in E; subst k. congruence. }
  destruct (if DroneStatus_eqb (status drone) Attacking then _ else None) as [tkey|].
  - destruct (JS.get (App.tk_drones st) tkey) as [target|] eqn:Hg;
      [|cbn [App.tk_drones]; rewrite get_mutate, Nk; exact Hk].
    destruct (App.is_disabled target) eqn:Htl; cbn [negb];
      [cbn [App.tk_drones]; rewrite get_mutate, Nk; exact Hk|].
    assert (Nt : String.eqb tkey k = false).
    { destruct (String.eqb tkey k) eqn:E; [|reflexivity].
      apply String.eqb_eq in E; subst k. congruence. }
    destruct (_ <? _)%float; [cbn [App.tk_drones]; rewrite get_mutate, Nk; exact Hk|].
    unfold App.strike.
    set (m1 := JS.mutate (App.tk_drones st) tkey _).
    assert (G1 : JS.get m1 k = Some d) by (unfold m1; rewrite get_mutate, Nt; exact Hk).
    set (st2 := if (_ <? _)%float then _ else _).
    assert (E2 : App.tk_drones st2 = m1) by (subst st2; destruct (_ <? _)%float; reflexivity).
    rewrite E2. destruct (JS.get m1 tkey) as [t|]; [|rewrite E2; exact G1].
    destruct (health t =? 0); [|rewrite E2; exact G1].
    cbn [App.tk_drones App.tick_addLog]. rewrite E2, !get_mutate, Nk, Nt. exact G1.
  - destruct (DroneStatus_eqb (status drone) Moving); [|exact Hk].
    destruct (_ <? _)%float; cbn [App.tk_drones]; rewrite get_mutate, Nk; exact Hk.
Qed.

(* ================================================================== *)
(** * The scheduler and the tick engine together *)
(* ================================================================== *)

(** C8. The run below starts from the initial state. b-drone-0 attacks
    r-drone-0 and disables it (health 0). The think timer of r-drone-0 then
    fires with the drone object its loop closed over at the start, whose
    status is Idle: the guard passes and the Disabled drone is set to
    Assessing, then to Idle by a Hold. An Attack decision that names it is
    accepted, and the next tick strikes it and disables it a second time. *)
Theorem C8_disabled_drone_is_struck_again :
  let kill := Sample.assault 345 in
  let wake := (kill ++ [App.Think 5; App.Answer 0 Sample.hold])%list in
  let again := (wake ++ [App.Think 0; App.Answer 0 (Sample.attack "r-drone-0")])%list in
  let seen := fun es k => option_map (fun d => (status d, health d, targetId d))
                                     (Sample.drone_after es k) in
  nth_error (App.captured (App.toggle App.initialWorld)) 5
  = Some (mkDrone "r-drone-0" red (mkVector 250 100) Idle (mkVector 250 100) 100 None)
  /\ seen kill "r-drone-0" = Some (Disabled, 0, None)
  /\ seen kill "b-drone-0" = Some (Idle, 100, None)
  /\ Sample.logged kill "r-drone-0 has been disabled!" = 1%nat
  /\ seen (kill ++ [App.Think 5])%list "r-drone-0" = Some (Assessing, 0, None)
  /\ seen wake "r-drone-0" = Some (Idle, 0, None)
  /\ seen again "b-drone-0" = Some (Attacking, 100, Some "r-drone-0")
  /\ seen (again ++ [App.Tick Sample.quiet])%list "r-drone-0" = Some (Disabled, 0, None)
  /\ Sample.logged (again ++ [App.Tick Sample.quiet])%list "r-drone-0 has been disabled!" = 2%nat.
Proof. vm_compute. repeat split; reflexivity. Qed.

(** A Move decision without a position sets the target position of the
    drone to the position of the drone object that was passed to
    [runDroneLogic], whatever the position on the roster is. *)
Lemma move_without_position_targets_argument w drone s :
  App.running w = true ->
  (exists cur, find (fun d => String.eqb (id d) (id drone)) (App.swarm_of w (swarmId drone))
               = Some cur /\ App.is_disabled cur = false) ->
  JS.startsWith (id drone) "b-" = App.swarm_eqb (swarmId drone) blue ->
  action_type (action s) = MOVE -> action_position (action s) = None ->
  Forall2 (fun d d' => if String.eqb (id d) (id drone)
                       then targetPosition d' = position drone
                            /\ position d' = position d /\ status d' = Moving
                       else d' = d)
          (App.swarm_of w (swarmId drone))
          (App.swarm_of (App.runDroneLogic_resume w drone (App.Resolved (Some s)))
                        (swarmId drone)).
Proof.
  intros Hrun [cur [Hfind Hlive]] Hprefix Hmove Hpos.
  unfold App.runDroneLogic_resume.
  rewrite Hrun, Hfind, Hlive, Hmove, Hpos. cbn [negb].
  rewrite (proj1 (finally_update _ _ _ _ _ Hprefix)), !swarm_of_addLog.
  apply Forall2_updater. intros d. unfold updater.
  destruct (String.eqb (id d) (id drone)); [repeat split | reflexivity].
Qed.

(** C10. In the run below b-drone-0 has advanced from (250,500) to (250,400)
    when a Move decision without a position arrives for the drone object
    its thinking loop closed over at the start, which still says (250,500):
    the target position becomes (250,500), not the position the drone is
    at, and the next tick moves the drone to (250,401) and leaves it
    Moving. *)
Theorem C10_move_without_position_walks_back :
  let es := (Sample.assault 100 ++ [App.Think 0; App.Answer 0 Sample.move_nowhere])%list in
  let seen := fun es => option_map (fun d => (position d, targetPosition d, status d))
                                   (Sample.drone_after es "b-drone-0") in
  nth_error (App.captured (App.toggle App.initialWorld)) 0
  = Some (mkDrone "b-drone-0" blue (mkVector 250 500) Idle (mkVector 250 500) 100 None)
  /\ seen (Sample.assault 100) = Some (mkVector 250 400, mkVector 250 500, Attacking)
  /\ seen es = Some (mkVector 250 400, mkVector 250 500, Moving)
  /\ seen (es ++ [App.Tick Sample.quiet])%list
     = Some (mkVector 250 401, mkVector 250 500, Moving).
Proof. vm_compute. repeat split; reflexivity. Qed.


(* ================================================================== *)
(** * The sanitizer *)
(* ================================================================== *)

(** ** Strings *)

Lemma str_app_nil_r (s : string) : s ++ "" = s.
Proof. induction s as [|c s IH]; simpl; [reflexivity | rewrite IH; reflexivity]. Qed.

Lemma str_app_assoc (a b c : string) : (a ++ b) ++ c = a ++ (b ++ c).
Proof. induction a as [|k a IH]; simpl; [reflexivity | rewrite IH; reflexivity]. Qed.

Lemma str_length_app (a b : string) :
  String.length (a ++ b) = (String.length a + String.length b)%nat.
Proof. induction a as [|k a IH]; simpl; [reflexivity | rewrite IH; reflexivity]. Qed.

Lemma substring_full (s : string) : String.substring 0 (String.length s) s = s.
Proof. induction s as [|c s IH]; simpl; [reflexivity | rewrite IH; reflexivity]. Qed.

Lemma drop_app (a s : string) : JS.drop (String.length a) (a ++ s) = s.
Proof. induction a as [|c a IH]; simpl; [destruct s; reflexivity | exact IH]. Qed.

(** A match of [sub] at the head of [t ++ c :: q] lies within [t] unless
    [c] is one of the characters of [sub]. *)
Lemma startsWith_app (t : string) (c : ascii) (q sub : string) :
  JS.startsWith (t ++ String c q) sub = true ->
  JS.startsWith t sub = true \/ char_in c sub = true.
Proof.
  revert sub. induction t as [|a t IH]; intros sub; destruct sub as [|b sub]; simpl;
    try (intros _; left; reflexivity).
  - intros H. apply andb_true_iff in H. destruct H as [H _].
    right. rewrite Ascii.eqb_sym, H. reflexivity.
  - intros H. apply andb_true_iff in H. destruct H as [Hab H].
    rewrite Hab. simpl. destruct (IH sub H) as [H1 | H1]; [left; exact H1|].
    right. rewrite H1. apply orb_true_r.
Qed.

Lemma startsWith_weaken (t u sub : string) :
  JS.startsWith t sub = true -> JS.startsWith (t ++ u) sub = true.
Proof.
  revert t. induction sub as [|p sub IH]; intros t; destruct t as [|q t]; simpl; auto;
    try discriminate.
  intros H. apply andb_true_iff in H. destruct H as [-> H]. simpl. apply IH, H.
Qed.

Lemma includes_tail (c : ascii) (s sub : string) :
  JS.includes (String c s) sub = false ->
  JS.startsWith (String c s) sub = false /\ JS.includes s sub = false.
Proof. simpl. intros H. apply orb_false_iff in H. exact H. Qed.

Lemma includes_suffix (a b sub : string) :
  JS.includes (a ++ b) sub = false -> JS.includes b sub = false.
Proof.
  induction a as [|c a IH]; simpl; [auto|].
  intros H. apply orb_false_iff in H. apply IH, H.
Qed.

Lemma includes_app (d : string) (c : ascii) (q sub : string) :
  JS.includes d sub = false -> JS.includes (String c q) sub = false ->
  char_in c sub = false ->
  JS.includes (d ++ String c q) sub = false.
Proof.
  intros Hd Hq Hc. induction d as [|a d IH]; [exact Hq|].
  destruct (includes_tail _ _ _ Hd) as [Hs Hd'].
  change (JS.startsWith (String a d ++ String c q) sub
          || JS.includes (d ++ String c q) sub = false).
  rewrite (IH Hd'), orb_false_r.
  destruct (JS.startsWith (String a d ++ String c q) sub) eqn:E; [|reflexivity].
  destruct (startsWith_app (String a d) c q sub E); congruence.
Qed.

(** Inserting text whose first character is foreign to [sub] creates no
    occurrence of [sub]. *)
Lemma includes_insert (a : string) (c : ascii) (ins b sub : string) :
  JS.includes (a ++ b) sub = false ->
  JS.includes (String c ins ++ b) sub = false ->
  char_in c sub = false ->
  JS.includes (a ++ String c ins ++ b) sub = false.
Proof.
  intros Hab Hins Hc. induction a as [|k a IH]; [exact Hins|].
  destruct (includes_tail _ _ _ Hab) as [Hs Hab'].
  change (JS.startsWith (String k a ++ String c (ins ++ b)) sub
          || JS.includes (a ++ String c ins ++ b) sub = false).
  rewrite (IH Hab'), orb_false_r.
  destruct (JS.startsWith (String k a ++ String c (ins ++ b)) sub) eqn:E; [|reflexivity].
  destruct (startsWith_app (String k a) c (ins ++ b) sub E) as [H | H]; [|congruence].
  (* the match lies within [a]: it is a match in [a ++ b] too *)
  pose proof (startsWith_weaken (String k a) b sub H) as W.
  exfalso. apply diff_true_false. exact (eq_trans (eq_sym W) Hs).
Qed.

(** Leading text made of characters foreign to [sub] hides no occurrence. *)
Lemma includes_skip_foreign (ins b sub : string) :
  (forall c, char_in c ins = true -> char_in c sub = false) ->
  sub <> "" ->
  JS.includes (ins ++ b) sub = JS.includes b sub.
Proof.
  intros Hf Hne. induction ins as [|c ins IH]; [reflexivity|].
  change (JS.startsWith (String c (ins ++ b)) sub || JS.includes (ins ++ b) sub
          = JS.includes b sub).
  rewrite IH.
  - destruct sub as [|p sub]; [contradiction|]. simpl.
    assert (Hc : char_in c (String p sub) = false).
    { apply Hf. simpl. rewrite Ascii.eqb_refl. reflexivity. }
    simpl in Hc. apply orb_false_iff in Hc. destruct Hc as [Hc _].
    rewrite Ascii.eqb_sym, Hc. reflexivity.
  - intros k Hk. apply Hf. simpl. rewrite Hk. apply orb_true_r.
Qed.

(** ** White space *)

Lemma trimEnd_fixed (s : string) (c : ascii) :
  last_char s = Some c -> JS.is_space c = false -> JS.trimEnd s = s.
Proof.
  induction s as [|a s IH]; [discriminate|].
  destruct s as [|b s].
  - simpl. intros [= ->] ->. reflexivity.
  - intros Hl Hc. change (last_char (String b s) = Some c) in Hl.
    change (match JS.trimEnd (String b s) with
            | EmptyString => if JS.is_space a then EmptyString else String a EmptyString
            | r => String a r
            end = String a (String b s)).
    rewrite (IH Hl Hc). reflexivity.
Qed.

Lemma trimEnd_all_space (ws : string) : all_space ws = true -> JS.trimEnd ws = "".
Proof.
  induction ws as [|c ws IH]; [reflexivity|]. simpl. intros H.
  apply andb_true_iff in H. destruct H as [Hc Hw]. rewrite (IH Hw), Hc. reflexivity.
Qed.

Lemma trimEnd_app_space (s ws : string) (c : ascii) :
  last_char s = Some c -> JS.is_space c = false -> all_space ws = true ->
  JS.trimEnd (s ++ ws) = s.
Proof.
  intros Hl Hc Hw. revert Hl. induction s as [|a s IH]; [discriminate|].
  destruct s as [|b s].
  - simpl. intros [= ->]. rewrite (trimEnd_all_space ws Hw), Hc. reflexivity.
  - intros Hl. change (last_char (String b s) = Some c) in Hl.
    change (match JS.trimEnd (String b s ++ ws) with
            | EmptyString => if JS.is_space a then EmptyString else String a EmptyString
            | r => String a r
            end = String a (String b s)).
    rewrite (IH Hl). reflexivity.
Qed.

Lemma trimStart_app (r u : string) :
  all_space r = false ->
  JS.trimStart (r ++ u) = JS.trimStart r ++ u
  /\ JS.trimStart r <> ""
  /\ (String.length (JS.trimStart r) <= String.length r)%nat.
Proof.
  induction r as [|c r IH]; [discriminate|]. simpl.
  destruct (JS.is_space c) eqn:E; simpl.
  - intros H. destruct (IH H) as (H1 & H2 & H3). repeat split; auto.
  - intros _. repeat split; [discriminate | lia].
Qed.

Lemma trimStart_all_space (ws u : string) (c : ascii) :
  all_space ws = true -> JS.is_space c = false ->
  JS.trimStart (ws ++ String c u) = String c u.
Proof.
  intros Hw Hc. induction ws as [|a ws IH]; simpl.
  - rewrite Hc. reflexivity.
  - simpl in Hw. apply andb_true_iff in Hw. destruct Hw as [-> Hw]. apply IH, Hw.
Qed.

Lemma last_char_app (a : string) (c : ascii) (b : string) :
  last_char (a ++ String c b) = last_char (String c b).
Proof.
  induction a as [|k a IH]; [reflexivity|].
  change (last_char (String k (a ++ String c b)) = last_char (String c b)).
  destruct a as [|k' a]; simpl in *; exact IH.
Qed.

(** ** The searches *)

Lemma before_first_app (d : string) (c : ascii) (q sub : string) :
  JS.includes d sub = false -> char_in c sub = false -> sub <> "" ->
  JS.before_first (d ++ String c q) sub
  = option_map (fun r => d ++ String c r) (JS.before_first q sub).
Proof.
  intros Hd Hc Hne. induction d as [|a d IH].
  - destruct sub as [|p sub]; [contradiction|]. simpl.
    simpl in Hc. apply orb_false_iff in Hc. destruct Hc as [Hc _].
    rewrite Ascii.eqb_sym, Hc. simpl. destruct (JS.before_first q (String p sub)); reflexivity.
  - destruct (includes_tail _ _ _ Hd) as [Hs Hd'].
    change (JS.before_first (String a (d ++ String c q)) sub
            = option_map (fun r => String a (d ++ String c r)) (JS.before_first q sub)).
    unfold JS.before_first; fold JS.before_first.
    destruct (JS.startsWith (String a (d ++ String c q)) sub) eqn:E.
    + destruct (startsWith_app (String a d) c q sub E); congruence.
    + rewrite (IH Hd'). destruct (JS.before_first q sub); reflexivity.
Qed.

Lemma after_first_none (s sub : string) :
  JS.includes s sub = false -> JS.after_first s sub = None.
Proof.
  induction s as [|c s IH]; simpl; intros H; apply orb_false_iff in H; destruct H as [-> H].
  - reflexivity.
  - apply IH, H.
Qed.

Lemma lastIndexOf_from_cons (i : Z) (c : ascii) (s sub : string) :
  JS.lastIndexOf_from i (String c s) sub
  = if 0 <=? JS.lastIndexOf_from (i + 1) s sub then JS.lastIndexOf_from (i + 1) s sub
    else if JS.startsWith (String c s) sub then i else -1.
Proof. reflexivity. Qed.

Lemma lastIndexOf_last (s : string) (i : Z) :
  0 <= i -> last_char s = Some "}"%char ->
  JS.lastIndexOf_from i s "}" = i + Z.of_nat (String.length s) - 1.
Proof.
  revert i. induction s as [|c s IH]; intros i Hi; [discriminate|].
  destruct s as [|b s].
  - simpl. intros [= ->]. simpl. lia.
  - intros Hl. change (last_char (String b s) = Some "}"%char) in Hl.
    rewrite lastIndexOf_from_cons, (IH (i + 1) ltac:(lia) Hl).
    change (String.length (String c (String b s))) with (S (String.length (String b s))).
    destruct (0 <=? i + 1 + Z.of_nat (String.length (String b s)) - 1) eqn:E; [lia|].
    apply Z.leb_gt in E. lia.
Qed.

Lemma substring_whole (s : string) :
  JS.substring s 0 (Z.of_nat (String.length s) - 1 + 1) = s.
Proof.
  unfold JS.substring. set (len := Z.of_nat (String.length s)).
  assert (0 <= len) by (subst len; lia).
  replace (len - 1 + 1) with len by lia.
  replace (Z.max 0 (Z.min 0 len)) with 0 by lia.
  replace (Z.max 0 (Z.min len len)) with len by lia.
  replace (Z.min 0 len) with 0 by lia.
  replace (Z.max 0 len) with len by lia.
  replace (Z.to_nat (len - 0)) with (String.length s) by (subst len; lia).
  apply substring_full.
Qed.

(** ** The two global replacements *)

Lemma replace_all_cons (f : string -> option (nat * string)) (skip : nat)
      (c : ascii) (s : string) :
  JS.replace_all f skip (String c s)
  = match skip with
    | S n => JS.replace_all f n s
    | O => match f (String c s) with
           | Some (n, r) => r ++ JS.replace_all f (Nat.pred n) s
           | None => String c (JS.replace_all f 0 s)
           end
    end.
Proof. reflexivity. Qed.

Lemma replace_all_skip (f : string -> option (nat * string)) (a s : string) (k : nat) :
  JS.replace_all f (String.length a + k) (a ++ s) = JS.replace_all f k s.
Proof. induction a as [|c a IH]; simpl; [reflexivity | exact IH]. Qed.

Lemma remove_think_none (s : string) :
  JS.includes s "<think>" = false -> JS.replace_all GeminiService.think_at 0 s = s.
Proof.
  induction s as [|c s IH]; [reflexivity|]. intros H.
  destruct (includes_tail _ _ _ H) as [Hs Hi].
  assert (E : GeminiService.think_at (String c s) = None)
    by (unfold GeminiService.think_at; rewrite Hs; reflexivity).
  rewrite replace_all_cons, E, (IH Hi). reflexivity.
Qed.

(** Where a comma of [pre] is followed by something else than white space
    within [pre], what comes after [pre] does not change what the
    expression matches at that comma. *)
Lemma trailing_comma_at_app (c : ascii) (r u : string) :
  (Ascii.eqb c ","%char && all_space r) = false ->
  GeminiService.trailing_comma_at (String c (r ++ u))
  = GeminiService.trailing_comma_at (String c r)
  /\ match GeminiService.trailing_comma_at (String c r) with
     | Some (n, _) => (Nat.pred n <= String.length r)%nat
     | None => True
     end.
Proof.
  intros H. unfold GeminiService.trailing_comma_at.
  destruct (Ascii.eqb_spec c ","%char) as [-> | Hc].
  - simpl in H. destruct (trimStart_app r u H) as (E & Hne & Hlen).
    rewrite E. destruct (JS.trimStart r) as [|b t] eqn:Et; [contradiction|].
    cbn [append]. destruct (GeminiService.is_closer b); [|split; [reflexivity | exact I]].
    rewrite !str_length_app. cbn [String.length] in *. rewrite ?str_length_app. split.
    + do 2 f_equal. lia.
    + simpl. lia.
  - assert (forall z, match c with
                      | ","%char => z
                      | _ => @None (nat * string)
                      end = None) as G.
    { intros z. destruct c as [[] [] [] [] [] [] [] []]; try reflexivity.
      exfalso. apply Hc. reflexivity. }
    rewrite !G. split; [reflexivity | exact I].
Qed.

Lemma strip_inserted_comma (gap post : string) :
  all_space gap = true ->
  forall (pre : string) (skip : nat),
    (skip <= String.length pre)%nat -> hanging_comma pre = false ->
    JS.replace_all GeminiService.trailing_comma_at skip (pre ++ "," ++ gap ++ "}" ++ post)
    = JS.replace_all GeminiService.trailing_comma_at skip (pre ++ "}" ++ post).
Proof.
  intros Hgap. induction pre as [|c pre IH]; intros skip Hskip Hhang.
  - assert (skip = 0%nat) by (simpl in Hskip; lia). subst skip.
    cbn [append]. rewrite !replace_all_cons.
    unfold GeminiService.trailing_comma_at.
    rewrite (trimStart_all_space gap post "}"%char Hgap eq_refl).
    cbn [GeminiService.is_closer Ascii.eqb Bool.eqb orb andb].
    rewrite str_length_app. cbn [String.length].
    replace (Nat.pred (1 + (String.length gap + S (String.length post)
                            - S (String.length post)) + 1))
      with (String.length gap + 1)%nat by lia.
    rewrite (replace_all_skip _ gap (String "}" post) 1).
    reflexivity.
  - simpl in Hhang. apply orb_false_iff in Hhang. destruct Hhang as [Hc Hhang].
    change (String c pre ++ "," ++ gap ++ "}" ++ post)
      with (String c (pre ++ "," ++ gap ++ "}" ++ post)).
    change (String c pre ++ "}" ++ post) with (String c (pre ++ "}" ++ post)).
    rewrite !replace_all_cons.
    destruct skip as [|n].
    + destruct (trailing_comma_at_app c pre ("," ++ gap ++ "}" ++ post) Hc) as [E1 B].
      destruct (trailing_comma_at_app c pre ("}" ++ post) Hc) as [E2 _].
      rewrite E1, E2.
      destruct (GeminiService.trailing_comma_at (String c pre)) as [[n r]|].
      * rewrite (IH (Nat.pred n) B Hhang). reflexivity.
      * rewrite (IH 0%nat ltac:(lia) Hhang). reflexivity.
    + apply IH; [simpl in Hskip; lia | exact Hhang].
Qed.

(** ** What [clean] does to a plain object, bare and fenced *)

Lemma includes_cons (c : ascii) (s sub : string) :
  JS.startsWith (String c s) sub = false ->
  JS.includes (String c s) sub = JS.includes s sub.
Proof. intros H. simpl. rewrite H. reflexivity. Qed.

Lemma trim_fixed (c : ascii) (rest : string) (e : ascii) :
  JS.is_space c = false -> last_char (String c rest) = Some e -> JS.is_space e = false ->
  JS.trim (String c rest) = String c rest.
Proof.
  intros Hc Hl He. unfold JS.trim. cbn [JS.trimStart]. rewrite Hc.
  apply (trimEnd_fixed _ e Hl He).
Qed.

Lemma clean_plain (doc : string) :
  plain_object doc ->
  GeminiService.clean doc = JS.replace_all GeminiService.trailing_comma_at 0 doc.
Proof.
  intros ([rest ->] & Hlast & Hfence & Hthink).
  unfold GeminiService.clean.
  rewrite (trim_fixed "{"%char rest "}"%char eq_refl Hlast eq_refl).
  rewrite (remove_think_none _ Hthink).
  rewrite (trim_fixed "{"%char rest "}"%char eq_refl Hlast eq_refl).
  unfold GeminiService.fence_capture. rewrite (after_first_none _ _ Hfence).
  change (JS.indexOf (String "{" rest) "{") with 0.
  unfold JS.lastIndexOf. rewrite (lastIndexOf_last _ 0 (Z.le_refl 0) Hlast).
  assert (Hlen : (2 <= String.length (String "{" rest))%nat).
  { destruct rest as [|k rest]; [discriminate Hlast | simpl; lia]. }
  replace ((-1 <? 0) && (0 <? 0 + Z.of_nat (String.length (String "{" rest)) - 1)) with true.
  - rewrite Z.add_0_l, substring_whole. reflexivity.
  - symmetry. apply andb_true_iff. split; [reflexivity | apply Z.ltb_lt; lia].
Qed.

Lemma clean_fenced (doc : string) :
  plain_object doc ->
  GeminiService.clean (Sample.fenced doc)
  = JS.replace_all GeminiService.trailing_comma_at 0 doc.
Proof.
  intros ([rest ->] & Hlast & Hfence & Hthink).
  set (doc := String "{"%char rest) in *.
  set (tail := doc ++ Sample.newline ++ GeminiService.fence).
  assert (EF : Sample.fenced doc
               = String "`"%char (String "`"%char (String "`"%char (String "j"%char (String "s"%char (String "o"%char
                   (String "n"%char (String "010"%char tail)))))))) by reflexivity.
  assert (Hl : last_char (Sample.fenced doc) = Some "`"%char).
  { change (Sample.fenced doc)
      with (("```json" ++ Sample.newline) ++ doc ++ String "010"%char "```").
    rewrite <- str_app_assoc, last_char_app. reflexivity. }
  assert (Ht : JS.includes (Sample.fenced doc) "<think>" = false).
  { rewrite EF. rewrite !includes_cons by reflexivity.
    unfold tail. apply includes_app; [exact Hthink | reflexivity | reflexivity]. }
  unfold GeminiService.clean.
  assert (Etrim : JS.trim (Sample.fenced doc) = Sample.fenced doc).
  { rewrite EF in *. exact (trim_fixed "`"%char _ "`"%char eq_refl Hl eq_refl). }
  rewrite Etrim, (remove_think_none _ Ht), Etrim.
  assert (Ecap : GeminiService.fence_capture (Sample.fenced doc) = Some doc).
  { rewrite EF. unfold GeminiService.fence_capture.
    change (JS.after_first _ GeminiService.fence)
      with (Some (String "j"%char (String "s"%char (String "o"%char (String "n"%char (String "010"%char tail)))))).
    cbv beta iota.
    change (if JS.startsWith (String "j"%char (String "s"%char (String "o"%char (String "n"%char (String "010"%char tail))))) "json"
            then JS.drop 4 (String "j"%char (String "s"%char (String "o"%char (String "n"%char (String "010"%char tail)))))
            else _)
      with (String "010"%char tail).
    change (JS.trimStart (String "010"%char tail)) with tail.
    unfold tail.
    change (doc ++ Sample.newline ++ GeminiService.fence)
      with (doc ++ String "010"%char GeminiService.fence).
    rewrite (before_first_app doc "010"%char GeminiService.fence GeminiService.fence
               Hfence eq_refl ltac:(discriminate)).
    change (JS.before_first GeminiService.fence GeminiService.fence) with (Some "").
    cbn [option_map].
    rewrite (trimEnd_app_space doc (String "010"%char "") "}"%char Hlast eq_refl eq_refl).
    reflexivity. }
  rewrite Ecap. clear EF Hl Ht Etrim Ecap. subst tail doc. cbv beta iota.
  rewrite (trim_fixed "{"%char rest "}"%char eq_refl Hlast eq_refl). reflexivity.
Qed.

(** ** A comma before a closing brace *)

Lemma all_space_char_in (gap : string) (c : ascii) :
  all_space gap = true -> char_in c gap = true -> JS.is_space c = true.
Proof.
  induction gap as [|a gap IH]; simpl; [discriminate|].
  intros H Hc. apply andb_true_iff in H. destruct H as [Ha Hg].
  apply orb_true_iff in Hc. destruct Hc as [Hc | Hc]; [|exact (IH Hg Hc)].
  apply Ascii.eqb_eq in Hc. subst c. exact Ha.
Qed.

Lemma comma_gap_foreign (sub gap : string) :
  (forall c, char_in c sub = true -> JS.is_space c = false /\ c <> ","%char) ->
  all_space gap = true ->
  forall c, char_in c (String ","%char gap) = true -> char_in c sub = false.
Proof.
  intros Hsub Hgap c Hc. destruct (char_in c sub) eqn:E; [|reflexivity].
  destruct (Hsub c E) as [Hs Hn]. cbn [char_in] in Hc. apply orb_true_iff in Hc.
  destruct Hc as [Hc | Hc].
  - apply Ascii.eqb_eq in Hc. congruence.
  - rewrite (all_space_char_in gap c Hgap Hc) in Hs. discriminate.
Qed.

Ltac foreign_chars :=
  let c := fresh "c" in
  let H := fresh "H" in
  intros c H; cbn [char_in] in H;
  repeat (apply orb_true_iff in H; destruct H as [H | H]);
  try discriminate H;
  apply Ascii.eqb_eq in H; subst c; (split; [reflexivity | discriminate]).

Lemma includes_comma_inserted (sub a gap b : string) :
  (forall c, char_in c sub = true -> JS.is_space c = false /\ c <> ","%char) ->
  sub <> "" ->
  all_space gap = true ->
  JS.includes (a ++ b) sub = false ->
  JS.includes (a ++ "," ++ gap ++ b) sub = false.
Proof.
  intros Hsub Hne Hgap Hab.
  pose proof (comma_gap_foreign sub gap Hsub Hgap) as Hf.
  change (a ++ "," ++ gap ++ b) with (a ++ String ","%char gap ++ b).
  apply includes_insert; [exact Hab | |].
  - rewrite (includes_skip_foreign (String ","%char gap) b sub Hf Hne).
    exact (includes_suffix a b sub Hab).
  - apply Hf. cbn [char_in]. rewrite Ascii.eqb_refl. reflexivity.
Qed.

Lemma plain_object_with_comma (body gap post : string) :
  all_space gap = true ->
  plain_object ("{" ++ body ++ "}" ++ post) ->
  plain_object ("{" ++ body ++ "," ++ gap ++ "}" ++ post).
Proof.
  intros Hgap (_ & Hlast & Hfence & Hthink). unfold plain_object.
  split; [eexists; reflexivity|]. split; [|split].
  - change ("{" ++ body ++ "}" ++ post) with (("{" ++ body) ++ String "}"%char post) in Hlast.
    rewrite last_char_app in Hlast.
    replace ("{" ++ body ++ "," ++ gap ++ "}" ++ post)
      with ((("{" ++ body) ++ "," ++ gap) ++ String "}"%char post).
    + rewrite last_char_app. exact Hlast.
    + rewrite !str_app_assoc. reflexivity.
  - assert (F : forall c, char_in c GeminiService.fence = true ->
                         JS.is_space c = false /\ c <> ","%char) by foreign_chars.
    exact (includes_comma_inserted GeminiService.fence ("{" ++ body) gap ("}" ++ post)
             F ltac:(discriminate) Hgap Hfence).
  - assert (F : forall c, char_in c "<think>" = true ->
                         JS.is_space c = false /\ c <> ","%char) by foreign_chars.
    exact (includes_comma_inserted "<think>" ("{" ++ body) gap ("}" ++ post)
             F ltac:(discriminate) Hgap Hthink).
Qed.

(** C7, as the source has it. Take a text that begins with an opening
    brace, ends with a closing brace and holds neither a markdown fence nor
    an opening think tag, and one of its closing braces that no comma
    precedes. Put a comma, and any white space, before that brace and wrap
    the result in a json fence: the sanitizer hands [JSON.parse] the same
    text as for the plain document, so both calls end alike. In particular
    the fenced payload of scenario 4 parses to the action type HOLD, as the
    well-formed document does. *)
Theorem C7_fenced_trailing_comma_parses_alike
        (sem : string -> string) (body gap post : string) :
  let doc := "{" ++ body ++ "}" ++ post in
  let doc' := "{" ++ body ++ "," ++ gap ++ "}" ++ post in
  plain_object doc ->
  all_space gap = true ->
  hanging_comma ("{" ++ body) = false ->
  GeminiService.clean (Sample.fenced doc') = GeminiService.clean doc
  /\ GeminiService.cleanAndParseJson sem (Sample.fenced doc')
     = GeminiService.cleanAndParseJson sem doc
  /\ Sample.action_type_of
       (GeminiService.cleanAndParseJson sem (Sample.fenced Sample.hold_document_trailing_comma))
     = Some (JS.JString "HOLD")
  /\ GeminiService.cleanAndParseJson sem (Sample.fenced Sample.hold_document_trailing_comma)
     = GeminiService.cleanAndParseJson sem Sample.hold_document.
Proof.
  intros doc doc' Hplain Hgap Hhang.
  assert (E : GeminiService.clean (Sample.fenced doc') = GeminiService.clean doc).
  { rewrite (clean_fenced doc' (plain_object_with_comma body gap post Hgap Hplain)).
    rewrite (clean_plain doc Hplain). subst doc doc'.
    change ("{" ++ body ++ "," ++ gap ++ "}" ++ post)
      with (("{" ++ body) ++ "," ++ gap ++ "}" ++ post).
    change ("{" ++ body ++ "}" ++ post) with (("{" ++ body) ++ "}" ++ post).
    apply strip_inserted_comma; [exact Hgap | lia | exact Hhang]. }
  split; [exact E|]. split.
  - unfold GeminiService.cleanAndParseJson. rewrite E. reflexivity.
  - split; vm_compute; reflexivity.
Qed.

Lemma C7_fenced_trailing_comma_parses_alike_witness :
  GeminiService.cleanAndParseJson (fun _ => "Unexpected token")
    (Sample.fenced Sample.hold_document_trailing_comma)
  = GeminiService.cleanAndParseJson (fun _ => "Unexpected token") Sample.hold_document.
Proof.
  refine (proj1 (proj2 (C7_fenced_trailing_comma_parses_alike (fun _ => "Unexpected token")
            (Sample.quoted "'stratagem_name':'X','justification':'Y','action':{'type':'HOLD'")
            "" "}" _ eq_refl _))).
  - split; [eexists; reflexivity|]. vm_compute. repeat split; reflexivity.
  - vm_compute. reflexivity.
Defined.

(** C7 as stated fails for a well-formed decision whose justification
    quotes a markdown fence: plain, it parses to the action type HOLD;
    fenced and with the trailing comma, the capture stops at the quoted
    fence and the call throws. *)
Lemma C7_counterexample :
  let sem := fun _ : string => "Unexpected end of JSON input" in
  Sample.action_type_of (GeminiService.cleanAndParseJson sem Sample.fence_in_text)
  = Some (JS.JString "HOLD")
  /\ GeminiService.cleanAndParseJson sem (Sample.fenced Sample.fence_in_text_trailing_comma)
     = GeminiService.Throws
         (GeminiService.new_Error
            "Invalid JSON format after cleaning. Details: Unexpected end of JSON input")
  /\ GeminiService.cleanAndParseJson sem (Sample.fenced Sample.fence_in_text_trailing_comma)
     <> GeminiService.cleanAndParseJson sem Sample.fence_in_text.
Proof.
  vm_compute. repeat split; try reflexivity. intros H; discriminate H.
Qed.

(* ================================================================== *)
(** * The tick engine: what a whole tick does to the rosters *)
(* ================================================================== *)

Section MapOrder.
Context {V : Type}.
Implicit Types (m : JS.Map V) (k : string).

Lemma get_fresh m k : ~ In k (JS.keys m) -> JS.get m k = None.
Proof.
  induction m as [|[k0 v0] m IH]; simpl; intros H; [reflexivity|].
  destruct (String.eqb k0 k) eqn:E.
  - apply String.eqb_eq in E. tauto.
  - apply IH. tauto.
Qed.

Lemma get_known m k v : JS.get m k = Some v -> In k (JS.keys m).
Proof.
  induction m as [|[k0 v0] m IH]; simpl; [discriminate|].
  destruct (String.eqb k0 k) eqn:E.
  - apply String.eqb_eq in E. now left.
  - intros H. right. now apply IH.
Qed.

Lemma set_fresh m k v : ~ In k (JS.keys m) -> JS.set m k v = (m ++ [(k, v)])%list.
Proof.
  induction m as [|[k0 v0] m IH]; simpl; intros H; [reflexivity|].
  destruct (String.eqb k0 k) eqn:E.
  - apply String.eqb_eq in E. tauto.
  - f_equal. apply IH. tauto.
Qed.

(** Filling an empty map from a list without repeated keys keeps the
    order of the list. *)
Lemma fill_in_order (key : V -> string) (l : list V) m0 :
  NoDup (JS.keys m0 ++ map key l) ->
  fold_left (fun m d => JS.set m (key d) d) l m0 = (m0 ++ map (fun d => (key d, d)) l)%list.
Proof.
  revert m0; induction l as [|a l IH]; intros m0 Hnd; simpl.
  - now rewrite app_nil_r.
  - rewrite set_fresh.
    + rewrite IH.
      * now rewrite <- app_assoc.
      * unfold JS.keys in *. rewrite map_app, <- app_assoc. exact Hnd.
    + simpl in Hnd. apply NoDup_remove_2 in Hnd. intros Hin. apply Hnd.
      apply in_or_app. now left.
Qed.

Lemma map_rel_same_keys (R : V -> V -> Prop) m' m : map_rel R m' m -> JS.keys m' = JS.keys m.
Proof.
  induction 1 as [|e' e l' l [Hk _] _ IH]; simpl; [reflexivity|].
  now rewrite Hk, IH.
Qed.

(** Two maps with the same keys, none repeated: values related key by key
    are related place by place. *)
Lemma related_values (R : V -> V -> Prop) m' m :
  JS.keys m' = JS.keys m ->
  NoDup (JS.keys m) ->
  (forall k v, JS.get m k = Some v -> exists v', JS.get m' k = Some v' /\ R v' v) ->
  Forall2 R (JS.values m') (JS.values m).
Proof.
  revert m; induction m' as [|[k' v'] m' IH]; intros [|[k v] m]; simpl;
    intros Hk Hnd H; try discriminate; constructor.
  - injection Hk as -> _.
    destruct (H k v) as [v2 [E Hr]]; [now rewrite String.eqb_refl|].
    rewrite String.eqb_refl in E. now injection E as <-.
  - injection Hk as -> Hk. inversion Hnd as [|? ? Hnotin Hnd']; subst.
    apply IH; [exact Hk | exact Hnd' |].
    intros k2 v2 Hg.
    assert (Hne : String.eqb k k2 = false).
    { apply String.eqb_neq. intros ->. apply Hnotin. eapply get_known; eassumption. }
    specialize (H k2 v2). rewrite Hne in H. exact (H Hg).
Qed.

End MapOrder.

Lemma ticked_refl d : ticked d d.
Proof. unfold ticked; intuition. Qed.

Lemma ticked_trans a b c : ticked a b -> ticked b c -> ticked a c.
Proof.
  unfold ticked. intros (I1 & S1 & T1 & D1 & R1) (I2 & S2 & T2 & D2 & R2).
  repeat split; try congruence.
  - intros H. pose proof (D2 H) as E. rewrite <- E in H. rewrite (D1 H). exact E.
  - destruct (R2 H) as [P2 Q2]. destruct (R1 Q2) as [P1 _]. congruence.
  - destruct (R2 H) as [_ Q2]. exact (proj2 (R1 Q2)).
Qed.

(** A drone that is not Disabled, changed in ways a tick may change it. *)
Lemma ticked_intro d' d :
  id d' = id d -> swarmId d' = swarmId d -> targetPosition d' = targetPosition d ->
  App.is_disabled d = false ->
  (resting d = true -> position d' = position d /\ resting d' = true) ->
  ticked d' d.
Proof. unfold ticked. intros. repeat split; try tauto. congruence. Qed.

Lemma mutate_own_ticked (m : JS.Map Drone) key f drone k d :
  JS.get m key = Some drone ->
  JS.get m k = Some d ->
  ticked (f drone) drone ->
  exists d', JS.get (JS.mutate m key f) k = Some d' /\ ticked d' d.
Proof.
  intros Hd Hk Hf. rewrite get_mutate.
  destruct (String.eqb key k) eqn:E.
  - apply String.eqb_eq in E; subst k. rewrite Hk in Hd. injection Hd as ->.
    rewrite Hk. simpl. eauto.
  - eauto using ticked_refl.
Qed.

Lemma attacking_not_resting d : DroneStatus_eqb (status d) Attacking = true -> resting d = false.
Proof. unfold resting. now intros ->. Qed.

Lemma moving_not_resting d : DroneStatus_eqb (status d) Moving = true -> resting d = false.
Proof. unfold resting. intros ->. apply Bool.andb_false_r. Qed.

Lemma strike_ticked random st key tkey drone target k d :
  JS.get (App.tk_drones st) key = Some drone ->
  App.is_disabled drone = false ->
  DroneStatus_eqb (status drone) Attacking = true ->
  JS.get (App.tk_drones st) tkey = Some target ->
  App.is_disabled target = false ->
  JS.get (App.tk_drones st) k = Some d ->
  exists d', JS.get (App.tk_drones (App.strike random st key tkey)) k = Some d' /\ ticked d' d.
Proof.
  intros Hd Hlive Hatt Ht Htlive Hk. unfold App.strike.
  set (dmg := fun t => App.with_health _ t).
  assert (Hrest := attacking_not_resting _ Hatt).
  assert (E1 : forall st2, App.tk_drones st2 = JS.mutate (App.tk_drones st) tkey dmg ->
               JS.get (App.tk_drones st2) tkey = Some (dmg target)).
  { intros st2 ->. now rewrite get_mutate, String.eqb_refl, Ht. }
  match goal with |- context [if ?c then App.tick_addLog ?a ?b ?t ?au else ?a'] =>
    set (st2 := if c then App.tick_addLog a b t au else a') end.
  assert (E2 : App.tk_drones st2 = JS.mutate (App.tk_drones st) tkey dmg).
  { subst st2. destruct (_ <? _)%float; reflexivity. }
  rewrite (E1 st2 E2).
  assert (Hown : forall d', id d' = id d -> swarmId d' = swarmId d ->
                   targetPosition d' = targetPosition d -> position d' = position d ->
                   (resting d = true -> resting d' = true) ->
                   String.eqb key k = true \/ String.eqb tkey k = true ->
                   ticked d' d).
  { intros d' Hi Hs Htp Hp Hr [E | E]; apply String.eqb_eq in E; subst k;
      rewrite Hk in *.
    - injection Hd as ->. apply ticked_intro; auto.
    - injection Ht as ->. apply ticked_intro; auto. }
  destruct (health (dmg target) =? 0).
  - cbn [App.tk_drones App.tick_addLog]. rewrite E2, !get_mutate, Hk.
    destruct (String.eqb key k) eqn:Ek, (String.eqb tkey k) eqn:Etk; cbn [option_map];
      eexists; (split; [reflexivity|]);
      try (apply Hown; auto; fail); try apply ticked_refl.
  - rewrite E2, get_mutate, Hk.
    destruct (String.eqb tkey k) eqn:Etk; cbn [option_map];
      eexists; (split; [reflexivity|]); [apply Hown; auto | apply ticked_refl].
Qed.

Lemma tick_body_ticked random st key k d :
  JS.get (App.tk_drones st) k = Some d ->
  exists d', JS.get (App.tk_drones (App.tick_body random st key)) k = Some d' /\ ticked d' d.
Proof.
  intros Hk. unfold App.tick_body.
  destruct (JS.get (App.tk_drones st) key) as [drone|] eqn:Hd; [|eauto using ticked_refl].
  destruct (App.is_disabled drone) eqn:Hlive; [eauto using ticked_refl|].
  assert (Hact : forall f, id (f drone) = id drone -> swarmId (f drone) = swarmId drone ->
                   targetPosition (f drone) = targetPosition drone ->
                   resting drone = false ->
                   exists d', JS.get (JS.mutate (App.tk_drones st) key f) k = Some d'
                              /\ ticked d' d).
  { intros f Hi Hs Ht Hr. eapply mutate_own_ticked; eauto.
    apply ticked_intro; auto. congruence. }
  destruct (DroneStatus_eqb (status drone) Attacking) eqn:Hatt.
  - assert (Hrest := attacking_not_resting _ Hatt).
    destruct (App.truthy_target (targetId drone)) as [tkey|].
    + destruct (JS.get (App.tk_drones st) tkey) as [target|] eqn:Htg.
      * destruct (App.is_disabled target) eqn:Htl; cbn [negb].
        -- cbn [App.tk_drones]. now apply Hact.
        -- destruct (_ <? _)%float.
           ++ cbn [App.tk_drones]. now apply Hact.
           ++ eapply strike_ticked; eauto.
      * cbn [App.tk_drones]. now apply Hact.
    + destruct (DroneStatus_eqb (status drone) Moving) eqn:Hmov; [|eauto using ticked_refl].
      destruct (status drone); discriminate.
  - destruct (DroneStatus_eqb (status drone) Moving) eqn:Hmov; [|eauto using ticked_refl].
    assert (Hrest := moving_not_resting _ Hmov).
    destruct (_ <? _)%float; cbn [App.tk_drones]; now apply Hact.
Qed.

Lemma tick_loop_ticked random keys st k d :
  JS.get (App.tk_drones st) k = Some d ->
  exists d', JS.get (App.tk_drones (fold_left (App.tick_body random) keys st)) k = Some d'
             /\ ticked d' d.
Proof.
  revert st d; induction keys as [|key keys IH]; intros st d Hk; simpl.
  - eauto using ticked_refl.
  - destruct (tick_body_ticked random st key k d Hk) as [d1 [H1 R1]].
    destruct (IH _ _ H1) as [d2 [H2 R2]].
    exists d2; split; [exact H2 | eapply ticked_trans; eassumption].
Qed.

(** The rosters a tick commits: the values of the map, split by side. *)
Lemma simulationInterval_rosters random w :
  let st := fold_left (App.tick_body random) (JS.keys (App.nextDronesState w))
              (App.mkTick (App.nextDronesState w) (App.logs w) 0) in
  let all := JS.values (App.tk_drones st) in
  App.blueDrones (App.simulationInterval random w)
  = filter (fun d => App.swarm_eqb (swarmId d) blue) all
  /\ App.redDrones (App.simulationInterval random w)
     = filter (fun d => negb (App.swarm_eqb (swarmId d) blue)) all.
Proof.
  intros st all. unfold App.simulationInterval. fold st. fold all.
  destruct (_ || _); split; reflexivity.
Qed.

Lemma filter_side (p : SwarmId -> bool) (R : Drone -> Drone -> Prop) l' l :
  (forall d' d, R d' d -> swarmId d' = swarmId d) ->
  Forall2 R l' l ->
  Forall2 R (filter (fun d => p (swarmId d)) l') (filter (fun d => p (swarmId d)) l).
Proof.
  intros HR. induction 1 as [|d' d l' l Hr _ IH]; simpl; [constructor|].
  rewrite (HR _ _ Hr). destruct (p (swarmId d)); [constructor|]; assumption.
Qed.

Lemma filter_all {A} (p : A -> bool) l : Forall (fun a => p a = true) l -> filter p l = l.
Proof. induction 1 as [|a l Ha _ IH]; simpl; [reflexivity|]. now rewrite Ha, IH. Qed.

Lemma filter_none {A} (p : A -> bool) l : Forall (fun a => p a = false) l -> filter p l = [].
Proof. induction 1 as [|a l Ha _ IH]; simpl; [reflexivity|]. now rewrite Ha, IH. Qed.

Lemma rosters_split (w : App.World) :
  Forall (fun d => swarmId d = blue) (App.blueDrones w) ->
  Forall (fun d => swarmId d = red) (App.redDrones w) ->
  filter (fun d => App.swarm_eqb (swarmId d) blue) (App.all_drones w) = App.blueDrones w
  /\ filter (fun d => negb (App.swarm_eqb (swarmId d) blue)) (App.all_drones w)
     = App.redDrones w.
Proof.
  intros Hb Hr. unfold App.all_drones. rewrite !filter_app. split.
  - rewrite filter_all, filter_none, app_nil_r; [reflexivity | |].
    + eapply Forall_impl; [|exact Hr]. now intros d ->.
    + eapply Forall_impl; [|exact Hb]. now intros d ->.
  - rewrite filter_none, filter_all; [reflexivity | |].
    + eapply Forall_impl; [|exact Hr]. now intros d ->.
    + eapply Forall_impl; [|exact Hb]. now intros d ->.
Qed.

(** With no id used twice and each drone on the roster of its side, a tick
    relates every drone to the drone at the same place before it. *)
Lemma tick_rosters random w :
  NoDup (map id (App.all_drones w)) ->
  Forall (fun d => swarmId d = blue) (App.blueDrones w) ->
  Forall (fun d => swarmId d = red) (App.redDrones w) ->
  Forall2 ticked (App.blueDrones (App.simulationInterval random w)) (App.blueDrones w)
  /\ Forall2 ticked (App.redDrones (App.simulationInterval random w)) (App.redDrones w).
Proof.
  intros Hnd Hb Hr.
  destruct (simulationInterval_rosters random w) as [-> ->].
  set (next := App.nextDronesState w).
  set (st := fold_left _ _ _).
  assert (Hnext : next = map (fun d => (id d, d)) (App.all_drones w)).
  { unfold next, App.nextDronesState. fold (App.all_drones w).
    now rewrite (fill_in_order id (App.all_drones w) []). }
  assert (Hkeys : JS.keys next = map id (App.all_drones w)).
  { rewrite Hnext. unfold JS.keys. rewrite map_map. reflexivity. }
  assert (Hvals : JS.values next = App.all_drones w).
  { rewrite Hnext. unfold JS.values. rewrite map_map. apply map_id. }
  assert (Hall : Forall2 ticked (JS.values (App.tk_drones st)) (App.all_drones w)).
  { rewrite <- Hvals. apply related_values.
    - apply (map_rel_same_keys wears). subst st. apply tick_loop_wears.
    - now rewrite Hkeys.
    - intros k v Hg. subst st. now apply tick_loop_ticked. }
  destruct (rosters_split w Hb Hr) as [Eb Er].
  split.
  - rewrite <- Eb.
    apply (filter_side (fun s => App.swarm_eqb s blue)); [|exact Hall].
    intros d' d H; apply H.
  - rewrite <- Er.
    apply (filter_side (fun s => negb (App.swarm_eqb s blue))); [|exact Hall].
    intros d' d H; apply H.
Qed.

(* ================================================================== *)
(** * The scheduler: what a think cycle leaves alone *)
(* ================================================================== *)

Lemma Forall2_same {A} (R : A -> A -> Prop) l : (forall a, R a a) -> Forall2 R l l.
Proof. intros H. induction l; constructor; auto. Qed.

Lemma Forall2_chain {A} (R : A -> A -> Prop) l1 l2 l3 :
  (forall a b c, R a b -> R b c -> R a c) ->
  Forall2 R l1 l2 -> Forall2 R l2 l3 -> Forall2 R l1 l3.
Proof.
  intros HR H12. revert l3. induction H12 as [|a b l1 l2 Hab _ IH]; intros l3 H23;
    inversion H23; subst; constructor; eauto.
Qed.

Lemma same_body_refl d : same_body d d.
Proof. unfold same_body; auto. Qed.

Lemma same_body_trans a b c : same_body a b -> same_body b c -> same_body a c.
Proof. unfold same_body. intuition congruence. Qed.

Lemma bodies_kept_refl w : bodies_kept w w.
Proof. split; apply Forall2_same, same_body_refl. Qed.

Lemma bodies_kept_trans a b c : bodies_kept a b -> bodies_kept b c -> bodies_kept a c.
Proof.
  intros [B1 R1] [B2 R2]. split; eapply Forall2_chain; eauto using same_body_trans.
Qed.

Lemma updater_same_body k u d :
  p_id u = None -> p_swarmId u = None -> p_position u = None -> p_health u = None ->
  same_body d (updater k u d).
Proof.
  intros Hi Hs Hp Hh. unfold updater, same_body, spread.
  destruct (String.eqb (id d) k); cbn; rewrite ?Hi, ?Hs, ?Hp, ?Hh; auto.
Qed.

Lemma bodies_kept_update w0 w k u :
  p_id u = None -> p_swarmId u = None -> p_position u = None -> p_health u = None ->
  bodies_kept w0 w -> bodies_kept w0 (App.updateDroneIntent w k u).
Proof.
  intros Hi Hs Hp Hh H. eapply bodies_kept_trans; [exact H|].
  unfold App.updateDroneIntent.
  destruct (JS.startsWith k "b-"); split; cbn;
    try (apply Forall2_same, same_body_refl);
    apply (Forall2_updater same_body); intros d; now apply updater_same_body.
Qed.

Lemma bodies_kept_addLog w0 w msg t a :
  bodies_kept w0 w -> bodies_kept w0 (App.addLog w msg t a).
Proof. intros H; exact H. Qed.

Lemma bodies_kept_thinking w0 w t :
  bodies_kept w0 w -> bodies_kept w0 (App.set_thinking w t).
Proof. intros H; exact H. Qed.

Lemma bodies_kept_pending w0 w p :
  bodies_kept w0 w -> bodies_kept w0 (App.set_pending w p).
Proof. intros H; exact H. Qed.

Ltac keep_bodies :=
  repeat first
    [ apply bodies_kept_refl
    | apply bodies_kept_thinking
    | apply bodies_kept_pending
    | apply bodies_kept_addLog
    | apply bodies_kept_update; [reflexivity | reflexivity | reflexivity | reflexivity |] ].

Lemma resume_bodies_kept w drone o : bodies_kept w (App.runDroneLogic_resume w drone o).
Proof.
  unfold App.runDroneLogic_resume, App.runDroneLogic_finally, App.set_status.
  destruct o as [[s|]|msg]; destruct (App.running w); cbn [negb];
    try destruct (find _ _) as [c|]; try destruct (App.is_disabled c); cbn [negb];
    try destruct (action_type (action s));
    try destruct (target_id (action s)) as [t|]; try destruct (_ && _);
    keep_bodies.
Qed.

Lemma begin_bodies_kept w drone w' :
  App.runDroneLogic_begin w drone = Some w' -> bodies_kept w w'.
Proof.
  unfold App.runDroneLogic_begin. destruct (_ || _); [discriminate|].
  intros [= <-]. keep_bodies.
Qed.

(** ** The rosters along a run *)

Lemma bodies_kept_intact w w' : bodies_kept w w' -> rosters_intact w -> rosters_intact w'.
Proof.
  intros [Hb Hr] (Ib & Ir & Sb & Sr).
  assert (Hids : forall l l', Forall2 same_body l l' -> map id l' = map id l).
  { induction 1 as [|a b l l' H _ IH]; simpl; [reflexivity|].
    destruct H as (-> & _). now rewrite IH. }
  assert (Hside : forall s l l', Forall2 same_body l l' ->
            Forall (fun d => swarmId d = s) l -> Forall (fun d => swarmId d = s) l').
  { intros s l l'. induction 1 as [|a b l l' H _ IH]; intros HF; [constructor|].
    inversion HF; subst. constructor; [|auto]. destruct H as (_ & -> & _). reflexivity. }
  repeat split.
  - now rewrite (Hids _ _ Hb).
  - now rewrite (Hids _ _ Hr).
  - eapply Hside; eassumption.
  - eapply Hside; eassumption.
Qed.

Lemma ticked_intact l' l s :
  Forall2 ticked l' l -> Forall (fun d => swarmId d = s) l ->
  map id l' = map id l /\ Forall (fun d => swarmId d = s) l'.
Proof.
  induction 1 as [|a b l' l H _ IH]; intros HF; [split; constructor|].
  inversion HF; subst. destruct (IH H3) as [E F]. destruct H as (Hi & Hs & _).
  split; [simpl; now rewrite Hi, E | constructor; [congruence | exact F]].
Qed.

Lemma initial_ids_distinct :
  NoDup (map id (App.createInitialSwarm blue) ++ map id (App.createInitialSwarm red)).
Proof.
  vm_compute. repeat (constructor; [simpl; intuition discriminate|]). constructor.
Qed.

Lemma intact_distinct w : rosters_intact w -> NoDup (map id (App.all_drones w)).
Proof.
  intros (Ib & Ir & _). unfold App.all_drones. rewrite map_app, Ib, Ir.
  exact initial_ids_distinct.
Qed.

Lemma initial_intact b r st l t c p :
  b = App.createInitialSwarm blue -> r = App.createInitialSwarm red ->
  rosters_intact (App.mkWorld b r st l t c p).
Proof.
  intros -> ->. repeat split; cbn [App.blueDrones App.redDrones];
    unfold App.createInitialSwarm; apply Forall_forall; intros d Hin;
    apply in_map_iff in Hin; destruct Hin as [i [<- _]]; reflexivity.
Qed.

Lemma tick_intact random w : rosters_intact w -> rosters_intact (App.simulationInterval random w).
Proof.
  intros H. pose proof (intact_distinct w H) as Hnd. destruct H as (Ib & Ir & Sb & Sr).
  destruct (tick_rosters random w Hnd Sb Sr) as [Tb Tr].
  destruct (ticked_intact _ _ _ Tb Sb) as [Eb Fb].
  destruct (ticked_intact _ _ _ Tr Sr) as [Er Fr].
  repeat split; [now rewrite Eb | now rewrite Er | exact Fb | exact Fr].
Qed.

Lemma fire_intact w e w' : rosters_intact w -> App.fire w e = Some w' -> rosters_intact w'.
Proof.
  intros H. destruct e as [random | i | i o | | ]; simpl.
  - destruct (App.running w); [|discriminate]. intros [= <-]. now apply tick_intact.
  - destruct (nth_error (App.captured w) i) as [drone|]; [|discriminate].
    intros [= <-]. destruct (App.runDroneLogic_begin w drone) as [w1|] eqn:E; [|exact H].
    eapply bodies_kept_intact; [eapply begin_bodies_kept; eassumption | exact H].
  - destruct (nth_error (App.pending w) i) as [drone|]; [|discriminate].
    intros [= <-]. eapply bodies_kept_intact; [apply resume_bodies_kept | exact H].
  - intros [= <-]. unfold App.toggle. destruct (App.running w); exact H.
  - intros [= <-]. unfold App.resetSimulation. now apply initial_intact.
Qed.

Lemma run_intact es : forall w w',
  rosters_intact w -> App.run w es = Some w' -> rosters_intact w'.
Proof.
  induction es as [|e es IH]; simpl; intros w w' H.
  - now intros [= <-].
  - destruct (App.fire w e) as [w1|] eqn:E; [|discriminate].
    apply IH. eapply fire_intact; eassumption.
Qed.

(* ================================================================== *)
(** * The rosters and the tick, as a user sees them *)
(* ================================================================== *)

(** X1. Along every run of the component from its initial state, each
    roster holds the five drones it was created with, in the order of
    their creation, and each drone is on the roster of its own swarm: no
    event removes, adds, renames or reorders a drone. *)
Theorem X1_rosters_are_fixed (es : list App.Event) (w : App.World) :
  App.run App.initialWorld es = Some w ->
  rosters_intact w.
Proof. apply run_intact. now apply initial_intact. Qed.

Lemma X1_rosters_are_fixed_witness :
  exists w, App.run App.initialWorld (Sample.assault 3) = Some w /\ rosters_intact w.
Proof.
  eexists. split; [vm_compute; reflexivity|].
  apply (X1_rosters_are_fixed (Sample.assault 3)). vm_compute; reflexivity.
Defined.

Lemma Forall2_weaken {A B} (P Q : A -> B -> Prop) l l' :
  (forall a b, P a b -> Q a b) -> Forall2 P l l' -> Forall2 Q l l'.
Proof. intros H. induction 1; constructor; auto. Qed.

Lemma tick_all random w :
  rosters_intact w ->
  Forall2 ticked (App.all_drones (App.simulationInterval random w)) (App.all_drones w).
Proof.
  intros H. pose proof (intact_distinct w H) as Hnd. destruct H as (_ & _ & Sb & Sr).
  destruct (tick_rosters random w Hnd Sb Sr) as [Tb Tr].
  unfold App.all_drones. now apply Forall2_app.
Qed.

(** X2. A tick leaves every Disabled drone exactly as it was: position,
    status, health and targetId. (The rosters are the ones of X1.) *)
Theorem X2_tick_leaves_disabled_alone (random : nat -> float) (w : App.World) :
  rosters_intact w ->
  Forall2 (fun d' d => App.is_disabled d = true -> d' = d)
          (App.all_drones (App.simulationInterval random w)) (App.all_drones w).
Proof.
  intros H. eapply Forall2_weaken; [|apply tick_all; exact H].
  intros d' d T. apply T.
Qed.

Lemma X2_tick_leaves_disabled_alone_witness :
  Forall2 (fun d' d => App.is_disabled d = true -> d' = d)
          (App.all_drones (App.simulationInterval Sample.quiet Sample.casualty))
          (App.all_drones Sample.casualty).
Proof.
  apply (X2_tick_leaves_disabled_alone Sample.quiet Sample.casualty).
  repeat split; try reflexivity; repeat constructor.
Defined.

(** X3. A tick never changes a drone's targetPosition, and it moves only
    drones that are Attacking or Moving: a drone of any other status keeps
    its position and is again neither Attacking nor Moving afterwards. *)
Theorem X3_tick_moves_only_the_active (random : nat -> float) (w : App.World) :
  rosters_intact w ->
  Forall2 (fun d' d => targetPosition d' = targetPosition d
                       /\ (resting d = true -> position d' = position d /\ resting d' = true))
          (App.all_drones (App.simulationInterval random w)) (App.all_drones w).
Proof.
  intros H. eapply Forall2_weaken; [|apply tick_all; exact H].
  intros d' d T. split; apply T.
Qed.

Lemma X3_tick_moves_only_the_active_witness :
  Forall2 (fun d' d => targetPosition d' = targetPosition d
                       /\ (resting d = true -> position d' = position d /\ resting d' = true))
          (App.all_drones (App.simulationInterval Sample.quiet Sample.on_the_way))
          (App.all_drones Sample.on_the_way).
Proof.
  apply (X3_tick_moves_only_the_active Sample.quiet Sample.on_the_way).
  repeat split; try reflexivity; repeat constructor.
Defined.

(** X4. The verdict of a tick. If each roster it commits still has a drone
    that is not Disabled, the simulation state is unchanged. Otherwise the
    state is Stopped and the last log entry is the victory line, from
    System: it names the Blue Swarm when blue has a drone left, and the Red
    Swarm otherwise, also when neither side has one. *)
Theorem X4_tick_verdict (random : nat -> float) (w : App.World) :
  let w' := App.simulationInterval random w in
  let alive := existsb (fun d => negb (App.is_disabled d)) in
  if alive (App.blueDrones w') && alive (App.redDrones w')
  then App.simulationState w' = App.simulationState w
  else App.simulationState w' = Stopped
       /\ exists earlier,
            App.logs w'
            = (earlier ++ [mkLogEntry ("Victory for "
                                       ++ (if alive (App.blueDrones w')
                                           then "Blue Swarm" else "Red Swarm")
                                       ++ "! The battle is over.")
                                      Success (Some "System")])%list.
Proof.
  intros w' alive. subst w'.
  destruct (simulationInterval_rosters random w) as [-> ->].
  unfold App.simulationInterval.
  set (st := fold_left _ _ _).
  set (newBlue := filter _ _). set (newRed := filter _ _).
  fold (alive newBlue). fold (alive newRed).
  destruct (alive newBlue), (alive newRed); cbn [negb orb andb].
  - reflexivity.
  - split; [reflexivity|]. eexists. reflexivity.
  - split; [reflexivity|]. eexists. reflexivity.
  - split; [reflexivity|]. eexists. reflexivity.
Qed.

(** ** A tick without attackers *)

Lemma keys_set {V} (m : JS.Map V) k v v0 :
  JS.get m k = Some v0 -> JS.keys (JS.set m k v) = JS.keys m.
Proof.
  induction m as [|[k0 w0] m IH]; simpl; [discriminate|].
  destruct (String.eqb k0 k); [reflexivity|]. intros H. simpl. now rewrite IH.
Qed.

Lemma keys_mutate {V} (m : JS.Map V) k f : JS.keys (JS.mutate m k f) = JS.keys m.
Proof.
  unfold JS.mutate. destruct (JS.get m k) eqn:E; [|reflexivity].
  eapply keys_set; eassumption.
Qed.

Lemma set_same {V} (m : JS.Map V) k v : JS.get m k = Some v -> JS.set m k v = m.
Proof.
  induction m as [|[k0 w0] m IH]; simpl; [discriminate|].
  destruct (String.eqb k0 k).
  - now intros [= ->].
  - intros H. now rewrite IH.
Qed.

Lemma march_not_attacking d :
  DroneStatus_eqb (status d) Attacking = false ->
  DroneStatus_eqb (status (march d)) Attacking = false.
Proof.
  intros H. unfold march.
  destruct (DroneStatus_eqb (status d) Moving) eqn:E; [|exact H].
  destruct (_ <? _)%float; [reflexivity | exact H].
Qed.

Lemma march_side d : swarmId (march d) = swarmId d.
Proof.
  unfold march. destruct (DroneStatus_eqb (status d) Moving); [|reflexivity].
  destruct (_ <? _)%float; reflexivity.
Qed.

(** Without an attacker under [key], the body of the loop is the march of
    the drone stored there. *)
Lemma tick_body_march random st key :
  (forall d, JS.get (App.tk_drones st) key = Some d ->
             DroneStatus_eqb (status d) Attacking = false) ->
  App.tick_body random st key
  = App.mkTick (JS.mutate (App.tk_drones st) key march) (App.tk_logs st) (App.tk_draws st).
Proof.
  intros Hno. unfold App.tick_body, JS.mutate.
  destruct (JS.get (App.tk_drones st) key) as [drone|] eqn:Hd; [|now destruct st].
  rewrite (Hno drone eq_refl). unfold march.
  destruct (App.is_disabled drone) eqn:Hdis.
  - replace (DroneStatus_eqb (status drone) Moving) with false
      by (unfold App.is_disabled in Hdis; destruct (status drone); try discriminate; reflexivity).
    rewrite (set_same _ _ _ Hd). now destruct st.
  - destruct (DroneStatus_eqb (status drone) Moving).
    + destruct (_ <? _)%float; reflexivity.
    + rewrite (set_same _ _ _ Hd). now destruct st.
Qed.

Lemma march_each keys : forall (m : JS.Map Drone),
  NoDup keys ->
  forall k d, JS.get m k = Some d ->
  JS.get (fold_left (fun m k => JS.mutate m k march) keys m) k
  = Some (if App.has keys k then march d else d).
Proof.
  induction keys as [|key keys IH]; intros m Hnd k d Hk; simpl; [exact Hk|].
  inversion Hnd as [|? ? Hnotin Hnd']; subst.
  assert (H1 : JS.get (JS.mutate m key march) k
               = Some (if String.eqb key k then march d else d)).
  { rewrite get_mutate, Hk. now destruct (String.eqb key k). }
  rewrite (IH _ Hnd' _ _ H1).
  rewrite (String.eqb_sym k key).
  destruct (String.eqb key k) eqn:E; simpl; [|reflexivity].
  apply String.eqb_eq in E; subst k.
  replace (App.has keys key) with false; [reflexivity|].
  symmetry. apply Bool.not_true_is_false. intros H. apply Hnotin.
  unfold App.has in H. apply existsb_exists in H. destruct H as [k' [Hin E]].
  apply String.eqb_eq in E. now subst.
Qed.

Lemma keys_march_all keys (m : JS.Map Drone) :
  JS.keys (fold_left (fun m k => JS.mutate m k march) keys m) = JS.keys m.
Proof.
  revert m; induction keys as [|key keys IH]; intros m; simpl; [reflexivity|].
  now rewrite IH, keys_mutate.
Qed.

Lemma tick_loop_march random keys : forall st,
  (forall k d, JS.get (App.tk_drones st) k = Some d ->
               DroneStatus_eqb (status d) Attacking = false) ->
  fold_left (App.tick_body random) keys st
  = App.mkTick (fold_left (fun m k => JS.mutate m k march) keys (App.tk_drones st))
               (App.tk_logs st) (App.tk_draws st).
Proof.
  induction keys as [|key keys IH]; intros st Hno; simpl; [now destruct st|].
  rewrite (tick_body_march random st key (Hno key)).
  rewrite IH; [reflexivity|].
  cbn [App.tk_drones]. intros k d. rewrite get_mutate.
  destruct (String.eqb key k); [|apply Hno].
  destruct (JS.get (App.tk_drones st) k) as [d0|] eqn:E; [|discriminate].
  intros [= <-]. apply march_not_attacking. eapply Hno; eassumption.
Qed.

Lemma Forall2_eq_map {A B} (f : A -> B) l' l :
  Forall2 (fun b a => b = f a) l' l -> l' = map f l.
Proof. induction 1 as [|b a l' l H _ IH]; simpl; [reflexivity|]. now rewrite H, IH. Qed.

Lemma filter_map_side (p : SwarmId -> bool) (f : Drone -> Drone) l :
  (forall d, swarmId (f d) = swarmId d) ->
  filter (fun d => p (swarmId d)) (map f l) = map f (filter (fun d => p (swarmId d)) l).
Proof.
  intros H. induction l as [|a l IH]; simpl; [reflexivity|].
  rewrite H. destruct (p (swarmId a)); simpl; now rewrite IH.
Qed.

Lemma get_listed (l : list Drone) k d :
  JS.get (map (fun d => (id d, d)) l) k = Some d -> In d l.
Proof.
  induction l as [|a l IH]; simpl; [discriminate|].
  destruct (String.eqb (id a) k); [intros [= ->]; now left | intros H; right; auto].
Qed.

(** X5. A tick in which no drone is Attacking treats every drone on its
    own: a Moving drone closer than DRONE_SPEED to its target position
    lands on it and turns Idle, any other Moving drone takes one step
    towards it, and every other drone is exactly as before. No health
    changes, and unless the tick ends the battle the log is as it was. *)
Theorem X5_tick_without_attackers (random : nat -> float) (w : App.World) :
  rosters_intact w ->
  forallb (fun d => negb (DroneStatus_eqb (status d) Attacking)) (App.all_drones w) = true ->
  let w' := App.simulationInterval random w in
  App.blueDrones w' = map march (App.blueDrones w)
  /\ App.redDrones w' = map march (App.redDrones w)
  /\ (App.simulationState w' = App.simulationState w \/ App.simulationState w' = Stopped)
  /\ (App.logs w' = App.logs w \/ App.simulationState w' = Stopped).
Proof.
  intros H Hno w'. subst w'.
  pose proof (intact_distinct w H) as Hnd. destruct H as (_ & _ & Sb & Sr).
  assert (Hnext : App.nextDronesState w = map (fun d => (id d, d)) (App.all_drones w)).
  { unfold App.nextDronesState. fold (App.all_drones w).
    now rewrite (fill_in_order id (App.all_drones w) []). }
  assert (Hkeys : JS.keys (App.nextDronesState w) = map id (App.all_drones w)).
  { rewrite Hnext. unfold JS.keys. rewrite map_map. reflexivity. }
  assert (Hvals : JS.values (App.nextDronesState w) = App.all_drones w).
  { rewrite Hnext. unfold JS.values. rewrite map_map. apply map_id. }
  assert (Hquiet : forall k d, JS.get (App.nextDronesState w) k = Some d ->
                     DroneStatus_eqb (status d) Attacking = false).
  { intros k d Hg. rewrite Hnext in Hg. apply get_listed in Hg.
    rewrite forallb_forall in Hno. apply Bool.negb_true_iff. now apply Hno. }
  assert (Hloop := tick_loop_march random (JS.keys (App.nextDronesState w))
                     (App.mkTick (App.nextDronesState w) (App.logs w) 0) Hquiet).
  cbn [App.tk_drones App.tk_logs App.tk_draws] in Hloop.
  assert (Hall : JS.values (fold_left (fun m k => JS.mutate m k march)
                              (JS.keys (App.nextDronesState w)) (App.nextDronesState w))
                 = map march (App.all_drones w)).
  { apply Forall2_eq_map. rewrite <- Hvals. apply related_values.
    - apply keys_march_all.
    - now rewrite Hkeys.
    - intros k d Hg. eexists. split; [apply march_each; [now rewrite Hkeys | exact Hg]|].
      replace (App.has (JS.keys (App.nextDronesState w)) k) with true; [reflexivity|].
      symmetry. apply existsb_exists. exists k. split; [|apply String.eqb_refl].
      eapply get_known; eassumption. }
  destruct (rosters_split w Sb Sr) as [Eb Er].
  destruct (simulationInterval_rosters random w) as [Rb Rr].
  rewrite Hloop in Rb, Rr. cbn [App.tk_drones] in Rb, Rr. rewrite Hall in Rb, Rr.
  rewrite (filter_map_side (fun s => App.swarm_eqb s blue) march _ march_side), Eb in Rb.
  rewrite (filter_map_side (fun s => negb (App.swarm_eqb s blue)) march _ march_side), Er in Rr.
  split; [exact Rb | split; [exact Rr|]].
  unfold App.simulationInterval. rewrite Hloop. cbn [App.tk_drones App.tk_logs].
  destruct (_ || _); split; (now right) || (now left).
Qed.

Lemma X5_tick_without_attackers_witness :
  let w' := App.simulationInterval Sample.quiet Sample.on_the_way in
  App.blueDrones w' = map march (App.blueDrones Sample.on_the_way)
  /\ App.redDrones w' = map march (App.redDrones Sample.on_the_way)
  /\ (App.simulationState w' = App.simulationState Sample.on_the_way
      \/ App.simulationState w' = Stopped)
  /\ (App.logs w' = App.logs Sample.on_the_way \/ App.simulationState w' = Stopped).
Proof.
  apply (X5_tick_without_attackers Sample.quiet Sample.on_the_way).
  - repeat split; try reflexivity; repeat constructor.
  - vm_compute; reflexivity.
Defined.

(* ================================================================== *)
(** * The scheduler, as a user sees it *)
(* ================================================================== *)

(** X6. A think cycle never changes the body of a drone: whatever the
    oracle answers, and whether the cycle starts or is turned away by its
    guard, every drone of both rosters keeps its place, its id, its swarm,
    its position and its health. *)
Theorem X6_scheduler_keeps_bodies (w : App.World) (drone : Drone) (o : App.OracleOutcome) :
  bodies_kept w (App.runDroneLogic_resume w drone o)
  /\ match App.runDroneLogic_begin w drone with
     | Some w' => bodies_kept w w'
     | None => True
     end.
Proof.
  split; [apply resume_bodies_kept|].
  destruct (App.runDroneLogic_begin w drone) eqn:E; [|exact I].
  eapply begin_bodies_kept; eassumption.
Qed.

(** ** What a think cycle does to the guard and the log *)

Lemma update_frame w k u :
  App.thinkingDrones (App.updateDroneIntent w k u) = App.thinkingDrones w
  /\ App.pending (App.updateDroneIntent w k u) = App.pending w
  /\ App.logs (App.updateDroneIntent w k u) = App.logs w
  /\ App.simulationState (App.updateDroneIntent w k u) = App.simulationState w.
Proof. unfold App.updateDroneIntent. destruct (JS.startsWith k "b-"); repeat split. Qed.

(** The world a settled call leaves before its [finally] block runs. *)
Lemma resume_shape w drone o :
  exists w', App.runDroneLogic_resume w drone o = App.runDroneLogic_finally w' drone
             /\ App.thinkingDrones w' = App.thinkingDrones w
             /\ App.pending w' = App.pending w
             /\ App.simulationState w' = App.simulationState w
             /\ (List.length (App.logs w) <= 101 -> List.length (App.logs w') <= 101)%nat.
Proof.
  unfold App.runDroneLogic_resume. eexists. split; [reflexivity|].
  assert (Hlog : forall prev e, (List.length (App.addLog_updater prev e) <= 101)%nat).
  { intros prev e. unfold App.addLog_updater.
    rewrite length_app, slice_last_length. simpl. lia. }
  destruct o as [[s|]|msg]; destruct (App.running w); cbn [negb];
    try destruct (find _ _) as [c|]; try destruct (App.is_disabled c); cbn [negb];
    try destruct (action_type (action s));
    try destruct (target_id (action s)) as [t|]; try destruct (_ && _);
    repeat match goal with
           | |- context [App.updateDroneIntent ?a ?b ?c] =>
               let H := fresh in
               destruct (update_frame a b c) as (-> & -> & -> & ->)
           end;
    cbn [App.addLog App.set_logs App.thinkingDrones App.pending App.simulationState App.logs];
    repeat split; auto.
Qed.

Lemma has_delete set k : App.has (App.delete set k) k = false.
Proof.
  unfold App.has, App.delete. apply Bool.not_true_is_false. intros H.
  apply existsb_exists in H. destruct H as [k' [Hin E]].
  apply filter_In in Hin. destruct Hin as [_ Hne].
  apply String.eqb_eq in E; subst k'. now rewrite String.eqb_refl in Hne.
Qed.

(** X7. When a decision call settles, in whatever way, the drone's id is
    off the re-entrancy guard: its next think cycle is not turned away for
    being already in progress. *)
Theorem X7_settled_call_releases_the_guard (w : App.World) (drone : Drone)
    (o : App.OracleOutcome) :
  App.has (App.thinkingDrones (App.runDroneLogic_resume w drone o)) (id drone) = false.
Proof.
  destruct (resume_shape w drone o) as (w' & -> & Ht & _).
  unfold App.runDroneLogic_finally. cbn [App.thinkingDrones App.set_thinking].
  apply has_delete.
Qed.

Lemma NoDup_snoc {A} (l : list A) a : NoDup l -> ~ In a l -> NoDup (l ++ [a]).
Proof.
  induction 1 as [|b l Hb Hnd IH]; simpl; intros Ha.
  - constructor; [intros []|constructor].
  - constructor.
    + intros Hin. apply in_app_or in Hin. destruct Hin as [Hin | [<- | []]]; tauto.
    + apply IH. tauto.
Qed.

Lemma delete_nth (p : list Drone) : forall i drone,
  NoDup (map id p) -> nth_error p i = Some drone ->
  App.delete (map id p) (id drone) = map id (App.remove_nth i p).
Proof.
  unfold App.delete.
  induction p as [|a p IH]; intros [|i] drone Hnd Hn; simpl in *; try discriminate.
  - injection Hn as ->. rewrite String.eqb_refl. simpl.
    inversion Hnd as [|? ? Hnotin _]; subst.
    apply filter_all. apply Forall_forall. intros k Hin.
    apply Bool.negb_true_iff, String.eqb_neq. intros ->. contradiction.
  - inversion Hnd as [|? ? Hnotin Hnd']; subst.
    replace (String.eqb (id a) (id drone)) with false.
    + simpl. f_equal. now apply IH.
    + symmetry. apply String.eqb_neq. intros E. apply Hnotin. rewrite E.
      apply in_map. eapply nth_error_In; eassumption.
Qed.

Lemma tick_frame random w :
  App.thinkingDrones (App.simulationInterval random w) = App.thinkingDrones w
  /\ App.pending (App.simulationInterval random w) = App.pending w.
Proof. unfold App.simulationInterval. destruct (_ || _); split; reflexivity. Qed.

Lemma fire_one_call w e w' :
  one_call_each w -> is_reset e = false -> App.fire w e = Some w' -> one_call_each w'.
Proof.
  intros [Hp Hnd] Hr. unfold one_call_each.
  destruct e as [random | i | i o | | ]; simpl; try discriminate.
  - destruct (App.running w); [|discriminate]. intros [= <-].
    destruct (tick_frame random w) as [-> ->]. now split.
  - destruct (nth_error (App.captured w) i) as [drone|]; [|discriminate].
    intros [= <-]. unfold App.runDroneLogic_begin.
    destruct (negb (App.running w) || App.is_disabled drone) eqn:E1; [now split|].
    destruct (App.has (App.thinkingDrones w) (id drone)) eqn:E2; cbn [orb]; [now split|].
    cbn [App.thinkingDrones App.pending App.set_pending].
    destruct (update_frame (App.set_thinking w (App.add (App.thinkingDrones w) (id drone)))
                (id drone) (mkPartial None None None (Some Assessing) None None None))
      as (-> & -> & _).
    cbn [App.thinkingDrones App.pending App.set_thinking]. unfold App.add. rewrite E2.
    rewrite map_app, Hp. split; [reflexivity|].
    rewrite <- Hp. apply NoDup_snoc; [exact Hnd|].
    intros Hin. apply Bool.not_true_iff_false in E2. apply E2.
    apply existsb_exists. exists (id drone). split; [exact Hin | apply String.eqb_refl].
  - destruct (nth_error (App.pending w) i) as [drone|] eqn:Hn; [|discriminate].
    intros [= <-].
    destruct (resume_shape (App.set_pending w (App.remove_nth i (App.pending w))) drone o)
      as (w1 & -> & Ht & Hq & _).
    unfold App.runDroneLogic_finally.
    cbn [App.thinkingDrones App.pending App.set_thinking App.set_pending] in *.
    rewrite Ht, Hq, Hp. rewrite Hp in Hnd. split.
    + now apply delete_nth.
    + unfold App.delete. now apply NoDup_filter.
  - intros [= <-]. unfold App.toggle. destruct (App.running w); now split.
Qed.

Lemma run_one_call es : forall w w',
  one_call_each w -> forallb (fun e => negb (is_reset e)) es = true ->
  App.run w es = Some w' -> one_call_each w'.
Proof.
  induction es as [|e es IH]; simpl; intros w w' H Hes.
  - now intros [= <-].
  - apply andb_prop in Hes. destruct Hes as [He Hes].
    destruct (App.fire w e) as [w1|] eqn:E; [|discriminate].
    apply IH; [|exact Hes]. eapply fire_one_call; [exact H | | exact E].
    now apply Bool.negb_true_iff.
Qed.

(** X8. As long as the simulation is not reset, the re-entrancy guard holds
    exactly the ids of the decision calls in flight, in the order in which
    they were sent, and no drone has two calls in flight. (A reset empties
    the guard while the calls it interrupts are still waiting.) *)
Theorem X8_one_call_in_flight_per_drone (es : list App.Event) (w : App.World) :
  forallb (fun e => negb (is_reset e)) es = true ->
  App.run App.initialWorld es = Some w ->
  App.thinkingDrones w = map id (App.pending w) /\ NoDup (map id (App.pending w)).
Proof.
  intros Hes Hrun.
  assert (H : one_call_each w).
  { eapply run_one_call; [|exact Hes | exact Hrun]. split; [reflexivity | constructor]. }
  destruct H as [Hp Hnd]. split; [exact Hp | now rewrite <- Hp].
Qed.

Lemma X8_one_call_in_flight_per_drone_witness :
  exists w, App.run App.initialWorld [App.Toggle; App.Think 0; App.Think 0; App.Think 5] = Some w
            /\ App.thinkingDrones w = map id (App.pending w)
            /\ NoDup (map id (App.pending w)).
Proof.
  eexists. split; [vm_compute; reflexivity|].
  apply (X8_one_call_in_flight_per_drone [App.Toggle; App.Think 0; App.Think 0; App.Think 5]);
    vm_compute; reflexivity.
Defined.



(** X10. A decision, or an error, that arrives for a drone whose live
    entry on the roster of its swarm is Disabled, or is not there, is
    dropped: the only effect is that the drone's id leaves the guard. *)
Theorem X10_answer_for_a_disabled_drone_is_dropped (w : App.World) (drone : Drone)
    (o : App.OracleOutcome) :
  match find (fun d => String.eqb (id d) (id drone)) (App.swarm_of w (swarmId drone)) with
  | Some cur => App.is_disabled cur
  | None => true
  end = true ->
  App.runDroneLogic_resume w drone o = App.runDroneLogic_finally w drone.
Proof.
  intros H. unfold App.runDroneLogic_resume.
  destruct (find _ _) as [cur|]; [rewrite H|]; cbn [negb];
    destruct o as [s|msg]; destruct (App.running w); reflexivity.
Qed.

Lemma X10_answer_for_a_disabled_drone_is_dropped_witness :
  exists drone,
    nth_error (App.redDrones App.initialWorld) 0 = Some drone
    /\ App.runDroneLogic_resume Sample.casualty drone (Sample.attack "b-drone-0")
       = App.runDroneLogic_finally Sample.casualty drone.
Proof.
  eexists. split; [vm_compute; reflexivity|].
  apply X10_answer_for_a_disabled_drone_is_dropped. vm_compute; reflexivity.
Defined.

(** X11. A decision that arrives while the simulation runs, for a drone
    that is on its roster, not Disabled, and whose id has the prefix of its
    swarm: an Attack that names an enemy which is not Disabled is accepted.
    The drone turns Attacking with that enemy as its targetId, nothing else
    of it and no other drone changes, and the log gains one entry, the
    stratagem with its justification, signed by the drone. *)
Theorem X11_attack_on_a_live_enemy_is_accepted (w : App.World) (drone : Drone)
    (s : IndividualStratagem) (t : string) :
  App.running w = true ->
  (exists cur, find (fun d => String.eqb (id d) (id drone)) (App.swarm_of w (swarmId drone))
               = Some cur /\ App.is_disabled cur = false) ->
  JS.startsWith (id drone) "b-" = App.swarm_eqb (swarmId drone) blue ->
  action_type (action s) = ATTACK ->
  target_id (action s) = Some t ->
  t <> EmptyString ->
  (exists e, In e (App.enemy_of w (swarmId drone)) /\ id e = t /\ App.is_disabled e = false) ->
  let after := App.runDroneLogic_resume w drone (App.Resolved (Some s)) in
  Forall2 (fun d d' => if String.eqb (id d) (id drone)
                       then d' = App.with_targetId (Some t) (App.with_status Attacking d)
                       else d' = d)
          (App.swarm_of w (swarmId drone)) (App.swarm_of after (swarmId drone))
  /\ App.enemy_of after (swarmId drone) = App.enemy_of w (swarmId drone)
  /\ App.logs after
     = App.addLog_updater (App.logs w)
         (mkLogEntry (String JS.dquote (stratagem_name s) ++ String JS.dquote ": "
                      ++ justification s)
                     Stratagem (Some (id drone))).
Proof.
  intros Hrun [cur [Hfind Hlive]] Hprefix Hatt Ht Hne [e [Hin [He Hel]]] after.
  subst after. unfold App.runDroneLogic_resume.
  rewrite Hrun, Hfind, Hlive, Hatt, Ht. cbn [negb].
  change (App.activeEnemies (App.addLog w _ _ _) drone) with (App.activeEnemies w drone).
  replace (JS.truthy_string t) with true by (destruct t; [contradiction | reflexivity]).
  replace (existsb _ (App.activeEnemies w drone)) with true.
  - cbn [andb]. split; [|split].
    + rewrite (proj1 (finally_update _ _ _ _ _ Hprefix)), swarm_of_addLog.
      apply Forall2_updater. intros d. unfold updater.
      destruct (String.eqb (id d) (id drone)); reflexivity.
    + rewrite (proj2 (finally_update _ _ _ _ _ Hprefix)). apply enemy_of_addLog.
    + unfold App.runDroneLogic_finally. cbn [App.logs App.set_thinking].
      now destruct (update_frame (App.addLog w (String JS.dquote (stratagem_name s)
                                                ++ String JS.dquote ": " ++ justification s)
                                    Stratagem (Some (id drone)))
                      (id drone)
                      (mkPartial None None None (Some Attacking) None None (Some (Some t))))
        as (_ & _ & -> & _).
  - symmetry. apply existsb_exists. exists e. split.
    + unfold App.activeEnemies. apply filter_In. split; [exact Hin | now rewrite Hel].
    + rewrite He. apply String.eqb_refl.
Qed.

Lemma X11_attack_on_a_live_enemy_is_accepted_witness :
  let w := App.toggle App.initialWorld in
  let drone := mkDrone "b-drone-0" blue (mkVector 250 500) Idle (mkVector 250 500) 100 None in
  let s := mkStratagem "Focused Fire" "Strike where the enemy is weak."
             (mkAction ATTACK (Some "r-drone-0") None) in
  let after := App.runDroneLogic_resume w drone (App.Resolved (Some s)) in
  Forall2 (fun d d' => if String.eqb (id d) (id drone)
                       then d' = App.with_targetId (Some "r-drone-0")
                                   (App.with_status Attacking d)
                       else d' = d)
          (App.swarm_of w (swarmId drone)) (App.swarm_of after (swarmId drone))
  /\ App.enemy_of after (swarmId drone) = App.enemy_of w (swarmId drone)
  /\ App.logs after
     = App.addLog_updater (App.logs w)
         (mkLogEntry (String JS.dquote (stratagem_name s) ++ String JS.dquote ": "
                      ++ justification s)
                     Stratagem (Some (id drone))).
Proof.
  intros w drone s after.
  apply (X11_attack_on_a_live_enemy_is_accepted w drone s "r-drone-0").
  - reflexivity.
  - eexists. split; vm_compute; reflexivity.
  - reflexivity.
  - reflexivity.
  - reflexivity.
  - discriminate.
  - eexists. split; [left; reflexivity | split; reflexivity].
Defined.

Lemma logs_finally_update w k u drone :
  App.logs (App.runDroneLogic_finally (App.updateDroneIntent w k u) drone) = App.logs w.
Proof.
  unfold App.runDroneLogic_finally. cbn [App.logs App.set_thinking].
  now destruct (update_frame w k u) as (_ & _ & -> & _).
Qed.

(** X12. A call that settles with no stratagem, or with an error, while the
    simulation runs, for a drone that is on its roster, not Disabled, and
    whose id has the prefix of its swarm: the drone turns Idle and keeps
    everything else, its targetId included; no other drone changes; the log
    gains one Error entry signed by the drone, which for an error carries
    the error's message. *)
Theorem X12_failed_decision_idles_the_drone (w : App.World) (drone : Drone) :
  App.running w = true ->
  (exists cur, find (fun d => String.eqb (id d) (id drone)) (App.swarm_of w (swarmId drone))
               = Some cur /\ App.is_disabled cur = false) ->
  JS.startsWith (id drone) "b-" = App.swarm_eqb (swarmId drone) blue ->
  let settles := fun o text =>
    let after := App.runDroneLogic_resume w drone o in
    Forall2 (fun d d' => if String.eqb (id d) (id drone)
                         then d' = App.with_status Idle d
                         else d' = d)
            (App.swarm_of w (swarmId drone)) (App.swarm_of after (swarmId drone))
    /\ App.enemy_of after (swarmId drone) = App.enemy_of w (swarmId drone)
    /\ App.logs after
       = App.addLog_updater (App.logs w) (mkLogEntry text Error (Some (id drone))) in
  settles (App.Resolved None) "Failed to produce a valid stratagem. Holding position."
  /\ forall msg, settles (App.Rejected msg)
                   ("An error occurred during decision making: " ++ msg).
Proof.
  intros Hrun [cur [Hfind Hlive]] Hprefix settles. subst settles. cbv beta zeta.
  unfold App.runDroneLogic_resume. rewrite Hrun, Hfind, Hlive. cbn [negb].
  assert (Hidle : forall l, Forall2 (fun d d' => if String.eqb (id d) (id drone)
                                                 then d' = App.with_status Idle d else d' = d)
                              l (map (updater (id drone) (App.set_status Idle)) l)).
  { intros l. apply Forall2_updater. intros d. unfold updater.
    destruct (String.eqb (id d) (id drone)); reflexivity. }
  split; [|intros msg];
    (split; [|split];
     [ rewrite (proj1 (finally_update _ _ _ _ _ Hprefix)), swarm_of_addLog; apply Hidle
     | rewrite (proj2 (finally_update _ _ _ _ _ Hprefix)); apply enemy_of_addLog
     | rewrite logs_finally_update; reflexivity ]).
Qed.

Lemma X12_failed_decision_idles_the_drone_witness :
  let w := App.toggle App.initialWorld in
  let drone := mkDrone "r-drone-2" red (mkVector 370 100) Idle (mkVector 370 100) 100 None in
  let settles := fun o text =>
    let after := App.runDroneLogic_resume w drone o in
    Forall2 (fun d d' => if String.eqb (id d) (id drone)
                         then d' = App.with_status Idle d
                         else d' = d)
            (App.swarm_of w (swarmId drone)) (App.swarm_of after (swarmId drone))
    /\ App.enemy_of after (swarmId drone) = App.enemy_of w (swarmId drone)
    /\ App.logs after
       = App.addLog_updater (App.logs w) (mkLogEntry text Error (Some (id drone))) in
  settles (App.Resolved None) "Failed to produce a valid stratagem. Holding position."
  /\ forall msg, settles (App.Rejected msg)
                   ("An error occurred during decision making: " ++ msg).
Proof.
  intros w drone.
  apply (X12_failed_decision_idles_the_drone w drone).
  - reflexivity.
  - eexists. split; vm_compute; reflexivity.
  - reflexivity.
Defined.

Lemma map_unmatched k u (l : list Drone) :
  existsb (fun d => String.eqb (id d) k) l = false -> map (updater k u) l = l.
Proof.
  induction l as [|a l IH]; simpl; [reflexivity|].
  intros H. apply Bool.orb_false_iff in H. destruct H as [Ha Hl].
  unfold updater at 1. rewrite Ha. now rewrite IH.
Qed.

(** X13. An update for an id that no drone carries on the roster chosen by
    the id's prefix is lost without a trace: the world is unchanged. This
    is so also when a drone of that id sits on the other roster. *)
Theorem X13_update_for_an_unknown_id_is_lost (w : App.World) (k : string) (u : PartialDrone) :
  existsb (fun d => String.eqb (id d) k)
          (if JS.startsWith k "b-" then App.blueDrones w else App.redDrones w) = false ->
  App.updateDroneIntent w k u = w.
Proof.
  intros H. unfold App.updateDroneIntent.
  change (fun d => if String.eqb (id d) k then spread d u else d) with (updater k u).
  destruct (JS.startsWith k "b-"); rewrite (map_unmatched _ _ _ H); now destruct w.
Qed.

Lemma X13_update_for_an_unknown_id_is_lost_witness :
  App.updateDroneIntent Sample.duel "scout" (App.set_status Moving) = Sample.duel.
Proof. apply X13_update_for_an_unknown_id_is_lost. vm_compute; reflexivity. Defined.

(** ** The log along a run *)

Lemma addLog_updater_bound prev e : (List.length (App.addLog_updater prev e) <= 101)%nat.
Proof.
  unfold App.addLog_updater. rewrite length_app, slice_last_length. simpl. lia.
Qed.

Lemma strike_log_bound random st key tkey :
  (List.length (App.tk_logs st) <= 101)%nat ->
  (List.length (App.tk_logs (App.strike random st key tkey)) <= 101)%nat.
Proof.
  intros H. unfold App.strike.
  destruct (_ <? _)%float; cbn [App.tk_drones App.tick_addLog];
    destruct (JS.get _ tkey) as [t|]; try destruct (health t =? 0);
    cbn [App.tk_logs App.tick_addLog]; auto using addLog_updater_bound.
Qed.

Lemma tick_body_log_bound random st key :
  (List.length (App.tk_logs st) <= 101)%nat ->
  (List.length (App.tk_logs (App.tick_body random st key)) <= 101)%nat.
Proof.
  intros H. unfold App.tick_body.
  destruct (JS.get (App.tk_drones st) key) as [drone|]; [|exact H].
  destruct (App.is_disabled drone); [exact H|].
  destruct (if DroneStatus_eqb (status drone) Attacking then _ else None) as [tkey|].
  - destruct (JS.get (App.tk_drones st) tkey) as [target|]; [|exact H].
    destruct (negb (App.is_disabled target)); [|exact H].
    destruct (_ <? _)%float; [exact H | now apply strike_log_bound].
  - destruct (DroneStatus_eqb (status drone) Moving); [|exact H].
    destruct (_ <? _)%float; exact H.
Qed.

Lemma tick_loop_log_bound random keys : forall st,
  (List.length (App.tk_logs st) <= 101)%nat ->
  (List.length (App.tk_logs (fold_left (App.tick_body random) keys st)) <= 101)%nat.
Proof.
  induction keys as [|k keys IH]; intros st H; simpl; [exact H|].
  apply IH. now apply tick_body_log_bound.
Qed.

Lemma fire_log_bound w e w' :
  (List.length (App.logs w) <= 101)%nat -> App.fire w e = Some w' ->
  (List.length (App.logs w') <= 101)%nat.
Proof.
  intros H. destruct e as [random | i | i o | | ]; simpl.
  - destruct (App.running w); [|discriminate]. intros [= <-].
    unfold App.simulationInterval.
    destruct (_ || _); cbn [App.logs App.addLog App.set_logs];
      [apply addLog_updater_bound | now apply tick_loop_log_bound].
  - destruct (nth_error (App.captured w) i) as [drone|]; [|discriminate].
    intros [= <-]. unfold App.runDroneLogic_begin.
    destruct (_ || _); [exact H|]. cbn [App.logs App.set_pending].
    now destruct (update_frame (App.set_thinking w (App.add (App.thinkingDrones w) (id drone)))
                    (id drone) (mkPartial None None None (Some Assessing) None None None))
      as (_ & _ & -> & _).
  - destruct (nth_error (App.pending w) i) as [drone|]; [|discriminate].
    intros [= <-].
    destruct (resume_shape (App.set_pending w (App.remove_nth i (App.pending w))) drone o)
      as (w1 & -> & _ & _ & _ & Hl).
    unfold App.runDroneLogic_finally. cbn [App.logs App.set_thinking]. apply Hl. exact H.
  - intros [= <-]. unfold App.toggle. destruct (App.running w); exact H.
  - intros [= <-]. unfold App.resetSimulation. apply addLog_updater_bound.
Qed.

(** X14. Along every run of the component the log holds at most 101
    entries, whatever the ticks, the decisions and the errors write. *)
Theorem X14_log_is_bounded (es : list App.Event) (w : App.World) :
  App.run App.initialWorld es = Some w ->
  (List.length (App.logs w) <= 101)%nat.
Proof.
  assert (H : forall es w0 w, (List.length (App.logs w0) <= 101)%nat ->
                App.run w0 es = Some w -> (List.length (App.logs w) <= 101)%nat).
  { clear. induction es as [|e es IH]; simpl; intros w0 w H.
    - now intros [= <-].
    - destruct (App.fire w0 e) as [w1|] eqn:E; [|discriminate].
      apply IH. eapply fire_log_bound; eassumption. }
  apply H. simpl. lia.
Qed.

Lemma X14_log_is_bounded_witness :
  exists w, App.run App.initialWorld (Sample.assault 3) = Some w
            /\ (List.length (App.logs w) <= 101)%nat.
Proof.
  eexists. split; [vm_compute; reflexivity|].
  apply (X14_log_is_bounded (Sample.assault 3)). vm_compute; reflexivity.
Defined.

(* ================================================================== *)
(** * The oracle client: the paths the retry loop takes *)
(* ================================================================== *)





(** X16. The first request that succeeds ends the call. When the requests
    before the n-th all failed with rate-limit errors and the n-th, at most
    the third, returns a value, the call returns that value after n
    requests and n - 1 waits. And a value that a call returns is always
    the value of the last request it sent. *)
Theorem X16_first_success_ends_the_call
        (sem : string -> string) (backend : nat -> Outcome string)
        (random : nat -> Q) :
  let call := getGoogleAIAction sem backend random true in
  (forall n v,
      (1 <= n <= 3)%nat ->
      (forall k, (1 <= k < n)%nat ->
                 exists e, request sem backend k = Throws e /\ isRateLimitError e = true) ->
      request sem backend n = Returns v ->
      outcome call = Returns v /\ attempts call = n
      /\ List.length (waits call) = (n - 1)%nat)
  /\ (forall v, outcome call = Returns v ->
                (1 <= attempts call <= 3)%nat
                /\ request sem backend (attempts call) = Returns v).
Proof.
  cbn zeta. split.
  - intros n v Hn Hfail Hret.
    cbv beta iota zeta delta [getGoogleAIAction negb attempt_loop MAX_RETRIES Nat.sub
                              Nat.ltb Nat.leb].
    destruct n as [|[|[|[|n]]]]; try lia.
    + rewrite Hret. repeat split.
    + destruct (Hfail 1%nat ltac:(lia)) as [e1 [H1 R1]].
      rewrite H1, R1. cbn [andb]. rewrite Hret. repeat split.
    + destruct (Hfail 1%nat ltac:(lia)) as [e1 [H1 R1]].
      destruct (Hfail 2%nat ltac:(lia)) as [e2 [H2 R2]].
      rewrite H1, R1. cbn [andb]. rewrite H2, R2. cbn [andb]. rewrite Hret. repeat split.
  - intros v.
    cbv beta iota zeta delta [getGoogleAIAction negb attempt_loop MAX_RETRIES Nat.sub
                              Nat.ltb Nat.leb].
    destruct (request sem backend 1) as [v1|e1] eqn:H1.
    { cbn [outcome attempts]. intros [= <-]. split; [lia | exact H1]. }
    destruct (isRateLimitError e1); cbn [andb outcome attempts]; [|discriminate].
    destruct (request sem backend 2) as [v2|e2] eqn:H2.
    { cbn [outcome attempts]. intros [= <-]. split; [lia | exact H2]. }
    destruct (isRateLimitError e2); cbn [andb outcome attempts]; [|discriminate].
    destruct (request sem backend 3) as [v3|e3] eqn:H3.
    { cbn [outcome attempts]. intros [= <-]. split; [lia | exact H3]. }
    destruct (isRateLimitError e3); cbn [andb outcome attempts]; discriminate.
Qed.

Lemma X16_first_success_ends_the_call_witness :
  let backend := fun n => if Nat.eqb n 1 then Throws Sample.rate_limited
                          else Returns Sample.hold_document in
  let call := getGoogleAIAction (fun _ => "") backend (fun _ => 1 # 4) true in
  exists v, request (fun _ => "") backend 2 = Returns v
            /\ outcome call = Returns v /\ attempts call = 2%nat
            /\ List.length (waits call) = (2 - 1)%nat.
Proof.
  intros backend call. eexists. split; [vm_compute; reflexivity|].
  apply (proj1 (X16_first_success_ends_the_call (fun _ => "") backend (fun _ => 1 # 4)) 2%nat).
  - lia.
  - intros k Hk. assert (k = 1%nat) by lia. subst k.
    exists Sample.rate_limited. split; reflexivity.
  - vm_compute; reflexivity.
Defined.

(** Leading text without the first character of [sub] hides no
    occurrence of it. *)
Lemma includes_skip_first (ins b : string) (p : ascii) (sub : string) :
  char_in p ins = false ->
  JS.includes (ins ++ b) (String p sub) = JS.includes b (String p sub).
Proof.
  induction ins as [|c ins IH]; [reflexivity|].
  cbn [char_in]. intros H. apply orb_false_iff in H. destruct H as [Hc Hins].
  change (JS.startsWith (String c (ins ++ b)) (String p sub)
          || JS.includes (ins ++ b) (String p sub)
          = JS.includes b (String p sub)).
  rewrite (IH Hins). cbn [JS.startsWith]. now rewrite Hc.
Qed.

(** X17. A response that cannot be parsed after cleaning is an Error, and
    the retry loop takes it for a rate-limit error exactly when the text
    the engine gives for the syntax error holds [429] or
    [RESOURCE_EXHAUSTED]: the sentence the client puts before that text
    holds neither. *)
Theorem X17_unparsable_response_and_the_retry_test (sem : string -> string) (text : string) :
  JS.JSON_parse (clean text) = None ->
  exists e, cleanAndParseJson sem text = Throws e
            /\ instanceof_Error e = true
            /\ isRateLimitError e
               = JS.includes (sem (clean text)) "429"
                 || JS.includes (sem (clean text)) "RESOURCE_EXHAUSTED".
Proof.
  intros H. unfold cleanAndParseJson. rewrite H. eexists. split; [reflexivity|].
  split; [reflexivity|].
  unfold isRateLimitError, new_Error. cbn [instanceof_Error error_message andb].
  rewrite !includes_skip_first by reflexivity. reflexivity.
Qed.

Lemma X17_unparsable_response_and_the_retry_test_witness :
  exists e, cleanAndParseJson (fun s => "Unexpected token in " ++ s) "code 429" = Throws e
            /\ instanceof_Error e = true
            /\ isRateLimitError e
               = JS.includes ("Unexpected token in " ++ clean "code 429") "429"
                 || JS.includes ("Unexpected token in " ++ clean "code 429")
                                "RESOURCE_EXHAUSTED".
Proof.
  apply (X17_unparsable_response_and_the_retry_test (fun s => "Unexpected token in " ++ s)
           "code 429").
  vm_compute; reflexivity.
Defined.

(** ** parseRetryDelay *)

Lemma indexOf_from_absent (c : ascii) (s : string) (i : Z) :
  char_in c s = false -> JS.indexOf_from i s (String c "") = -1.
Proof.
  revert i. induction s as [|a s IH]; intros i; [reflexivity|].
  cbn [char_in]. intros H. apply orb_false_iff in H. destruct H as [Ha Hs].
  cbn [JS.indexOf_from JS.startsWith]. rewrite Ha. cbn [andb]. now apply IH.
Qed.

Lemma digits_value_nonneg (s : string) : forall acc, 0 <= acc -> 0 <= digits_value acc s.
Proof.
  induction s as [|c s IH]; intros acc H; cbn [digits_value]; [exact H|].
  apply IH. pose proof (Nat2Z.is_nonneg (nat_of_ascii c - 48)). lia.
Qed.

Lemma parseFloat_decimal_nonneg (int frac : string) : (0 <= parseFloat_decimal int frac)%Q.
Proof.
  unfold parseFloat_decimal.
  assert (Ha : (0 <= inject_Z (digits_value 0 int))%Q).
  { unfold Qle; simpl. pose proof (digits_value_nonneg int 0 (Z.le_refl 0)). lia. }
  assert (Hq : (0 <= inject_Z (digits_value 0 frac)
                     / inject_Z (10 ^ Z.of_nat (String.length frac)))%Q).
  { apply Qle_shift_div_l.
    - unfold Qlt; simpl. assert (0 < 10 ^ Z.of_nat (String.length frac)) by (apply Z.pow_pos_nonneg; lia). lia.
    - rewrite Qmult_0_l. unfold Qle; simpl.
      pose proof (digits_value_nonneg frac 0 (Z.le_refl 0)). lia. }
  set (A := inject_Z (digits_value 0 int)) in *.
  set (B := (_ / _)%Q) in *. clearbody A B. lra.
Qed.

(** X18. The delay read in an error message. A message without an opening
    brace carries none; and a delay that is read is never negative. *)
Theorem X18_retry_delay_is_sound (errorMessage : string) :
  (char_in "{"%char errorMessage = false -> parseRetryDelay errorMessage = None)
  /\ (forall delay, parseRetryDelay errorMessage = Some delay -> (0 <= delay)%Q).
Proof.
  split.
  - intros H. unfold parseRetryDelay, JS.indexOf.
    now rewrite (indexOf_from_absent "{"%char errorMessage 0 H).
  - intros delay. unfold parseRetryDelay.
    repeat match goal with
           | |- context [match ?x with _ => _ end] => destruct x; try discriminate
           end.
    intros [= <-].
    match goal with
    | |- context [parseFloat_decimal ?a ?b] =>
        pose proof (parseFloat_decimal_nonneg a b) as H;
        set (P := parseFloat_decimal a b) in *; clearbody P
    end.
    unfold inject_Z. lra.
Qed.

Lemma X18_retry_delay_is_sound_witness :
  parseRetryDelay "429 Too Many Requests" = None
  /\ (0 <= inject_Z 27000)%Q.
Proof.
  split.
  - apply (proj1 (X18_retry_delay_is_sound "429 Too Many Requests")). reflexivity.
  - apply (proj2 (X18_retry_delay_is_sound Sample.quota_error_message)).
    vm_compute; reflexivity.
Defined.

(* ================================================================== *)
(** * The principle rotation clock *)
(* ================================================================== *)

Lemma array_indexOf_at (l : list string) : forall i b p,
  NoDup l -> nth_error l i = Some p ->
  JS.array_indexOf_from b l p = b + Z.of_nat i.
Proof.
  induction l as [|q l IH]; intros [|i] b p Hnd Hn; simpl in Hn; try discriminate.
  - injection Hn as ->. cbn [JS.array_indexOf_from]. rewrite String.eqb_refl. lia.
  - inversion Hnd as [|? ? Hnotin Hnd']; subst. cbn [JS.array_indexOf_from].
    replace (String.eqb q p) with false.
    + rewrite (IH i (b + 1) p Hnd' Hn). lia.
    + symmetry. apply String.eqb_neq. intros ->. apply Hnotin.
      eapply nth_error_In; eassumption.
Qed.

Lemma array_indexOf_absent (l : list string) : forall b p,
  ~ In p l -> JS.array_indexOf_from b l p = -1.
Proof.
  induction l as [|q l IH]; intros b p Hp; cbn [JS.array_indexOf_from]; [reflexivity|].
  replace (String.eqb q p) with false.
  - apply IH. intros H. apply Hp. now right.
  - symmetry. apply String.eqb_neq. intros ->. apply Hp. now left.
Qed.

Lemma nextPrinciple_at (l : list string) i p :
  NoDup l -> nth_error l i = Some p ->
  App.nextPrinciple l p = nth_error l (S i mod List.length l).
Proof.
  intros Hnd Hn. unfold App.nextPrinciple, JS.array_indexOf.
  rewrite (array_indexOf_at l i 0 p Hnd Hn).
  assert (Hlen : (i < List.length l)%nat) by (apply nth_error_Some; congruence).
  f_equal. replace (0 + Z.of_nat i + 1) with (Z.of_nat (S i)) by lia.
  rewrite <- Nat2Z.inj_mod. apply Nat2Z.id.
Qed.

Lemma rotate_at (l : list string) i p :
  NoDup l -> nth_error l i = Some p ->
  forall k, App.rotate l k p = nth_error l ((i + k) mod List.length l).
Proof.
  intros Hnd Hn.
  assert (Hlen : (i < List.length l)%nat) by (apply nth_error_Some; congruence).
  induction k as [|k IH]; cbn [App.rotate].
  - rewrite Nat.add_0_r, Nat.mod_small by exact Hlen. now rewrite Hn.
  - rewrite IH.
    assert (Hj : ((i + k) mod List.length l < List.length l)%nat)
      by (apply Nat.mod_upper_bound; lia).
    destruct (nth_error l ((i + k) mod List.length l)) as [q|] eqn:Hq;
      [|apply nth_error_None in Hq; lia].
    rewrite (nextPrinciple_at l _ q Hnd Hq). f_equal.
    replace (S ((i + k) mod List.length l)) with ((i + k) mod List.length l + 1)%nat by lia.
    rewrite Nat.Div0.add_mod_idemp_l. f_equal. lia.
Qed.

(** X19. The rotation of the guiding principle, over a list of principles
    that names none twice. From the principle at index i the clock moves
    to the one at index i + 1, and from the last to the first; from a text
    that is not on the list it moves to the first, which is undefined
    when the list is empty; and after as many periods as the list is long
    the principle in force is again the one it started from. *)
Theorem X19_principles_rotate (principles : list string) (p : string) :
  NoDup principles ->
  (forall i, nth_error principles i = Some p ->
             App.nextPrinciple principles p
             = nth_error principles (S i mod List.length principles))
  /\ (~ In p principles -> App.nextPrinciple principles p = nth_error principles 0)
  /\ (In p principles -> App.rotate principles (List.length principles) p = Some p).
Proof.
  intros Hnd. split; [|split].
  - intros i Hn. now apply nextPrinciple_at.
  - intros Hp. unfold App.nextPrinciple, JS.array_indexOf.
    rewrite (array_indexOf_absent principles 0 p Hp).
    change (-1 + 1) with 0. now rewrite Zmod_0_l.
  - intros Hp. apply In_nth_error in Hp. destruct Hp as [i Hn].
    rewrite (rotate_at principles i p Hnd Hn).
    assert (Hlen : (i < List.length principles)%nat) by (apply nth_error_Some; congruence).
    replace (i + List.length principles)%nat with (i + 1 * List.length principles)%nat by lia.
    rewrite Nat.Div0.mod_add, Nat.mod_small by exact Hlen. exact Hn.
Qed.

Lemma X19_principles_rotate_witness :
  App.nextPrinciple ["Laying Plans"; "Waging War"; "Attack by Stratagem"] "Attack by Stratagem"
  = Some "Laying Plans".
Proof.
  apply (proj1 (X19_principles_rotate ["Laying Plans"; "Waging War"; "Attack by Stratagem"]
                  "Attack by Stratagem"
                  ltac:(repeat (constructor; [simpl; intuition discriminate|]); constructor))
           2%nat).
  reflexivity.
Defined.

(* ================================================================== *)
(** * The sanitizer on the responses models give *)
(* ================================================================== *)

(** ** Trimming *)

Lemma trimStart_head (s : string) :
  JS.trimStart s = "" \/ exists c u, JS.trimStart s = String c u /\ JS.is_space c = false.
Proof.
  induction s as [|c s IH]; [now left|]. cbn [JS.trimStart].
  destruct (JS.is_space c) eqn:E; [exact IH|]. right. eauto.
Qed.

Lemma trimEnd_trimEnd (s : string) : JS.trimEnd (JS.trimEnd s) = JS.trimEnd s.
Proof.
  induction s as [|c s IH]; [reflexivity|]. cbn [JS.trimEnd].
  destruct (JS.trimEnd s) as [|b r] eqn:E.
  - destruct (JS.is_space c) eqn:Ec; [reflexivity|]. cbn [JS.trimEnd]. now rewrite Ec.
  - change (JS.trimEnd (String c (String b r))) with
      (match JS.trimEnd (String b r) with
       | EmptyString => if JS.is_space c then EmptyString else String c EmptyString
       | r' => String c r'
       end).
    now rewrite IH.
Qed.

Lemma trimEnd_head (c : ascii) (u : string) :
  JS.is_space c = false -> exists r, JS.trimEnd (String c u) = String c r.
Proof.
  intros Hc. cbn [JS.trimEnd]. destruct (JS.trimEnd u); rewrite ?Hc; eauto.
Qed.

Lemma trim_trim (s : string) : JS.trim (JS.trim s) = JS.trim s.
Proof.
  unfold JS.trim. destruct (trimStart_head s) as [-> | (c & u & -> & Hc)]; [reflexivity|].
  destruct (trimEnd_head c u Hc) as [r Er]. rewrite Er.
  cbn [JS.trimStart]. rewrite Hc, <- Er. apply trimEnd_trimEnd.
Qed.

Lemma trimStart_blank (s : string) : all_space s = true -> JS.trimStart s = "".
Proof.
  induction s as [|c s IH]; [reflexivity|]. cbn [all_space JS.trimStart].
  intros H. apply andb_true_iff in H. destruct H as [-> H]. now apply IH.
Qed.

(** X20. A response that holds white space only, or nothing, is an error:
    cleaning leaves the empty text, which is no JSON. *)
Theorem X20_blank_response_is_an_error (sem : string -> string) (text : string) :
  all_space text = true ->
  cleanAndParseJson sem text
  = Throws (new_Error ("Invalid JSON format after cleaning. Details: " ++ sem "")).
Proof.
  intros H. unfold cleanAndParseJson, clean, JS.trim.
  rewrite (trimStart_blank text H). reflexivity.
Qed.

Lemma X20_blank_response_is_an_error_witness :
  cleanAndParseJson (fun _ => "Unexpected end of JSON input") ("  " ++ Sample.newline)
  = Throws (new_Error "Invalid JSON format after cleaning. Details: Unexpected end of JSON input").
Proof.
  apply (X20_blank_response_is_an_error (fun _ => "Unexpected end of JSON input")
           ("  " ++ Sample.newline)).
  reflexivity.
Defined.

(** ** The comma expression *)

Lemma trailing_comma_at_shape (s : string) (n : nat) (r : string) :
  trailing_comma_at s = Some (n, r) ->
  String.length r = 1%nat /\ (2 <= n <= String.length s)%nat.
Proof.
  unfold trailing_comma_at. destruct s as [|c u]; [discriminate|].
  destruct (Ascii.eqb_spec c ","%char) as [-> | Hc].
  - destruct (JS.trimStart u) as [|b t] eqn:Et; [discriminate|].
    destruct (is_closer b); [|discriminate]. intros [= <- <-].
    assert (Hlen : (String.length (String b t) <= String.length u)%nat).
    { rewrite <- Et. clear. induction u as [|a u IH]; [simpl; lia|].
      cbn [JS.trimStart]. destruct (JS.is_space a); cbn [String.length] in *; lia. }
    cbn [String.length] in *. split; [reflexivity | lia].
  - intros H. exfalso.
    destruct c as [[] [] [] [] [] [] [] []]; try discriminate H. now apply Hc.
Qed.

Lemma strip_commas_length (s : string) : forall skip,
  (String.length (JS.replace_all trailing_comma_at skip s) + Nat.min skip (String.length s)
   <= String.length s)%nat.
Proof.
  induction s as [|c s IH]; intros skip; [simpl; lia|].
  rewrite replace_all_cons. destruct skip as [|k].
  - destruct (trailing_comma_at (String c s)) as [[n r]|] eqn:E.
    + destruct (trailing_comma_at_shape _ _ _ E) as [Hr Hn].
      rewrite str_length_app, Hr. specialize (IH (Nat.pred n)).
      cbn [String.length] in *. lia.
    + specialize (IH 0%nat). cbn [String.length]. lia.
  - specialize (IH k). cbn [String.length]. lia.
Qed.

Lemma strip_commas_none (s : string) :
  has_trailing_comma s = false -> JS.replace_all trailing_comma_at 0 s = s.
Proof.
  induction s as [|c s IH]; [reflexivity|]. cbn [has_trailing_comma].
  destruct (trailing_comma_at (String c s)) eqn:E; [discriminate|].
  intros H. now rewrite replace_all_cons, E, (IH H).
Qed.

Lemma strip_commas_some (s : string) :
  has_trailing_comma s = true ->
  (String.length (JS.replace_all trailing_comma_at 0 s) < String.length s)%nat.
Proof.
  induction s as [|c s IH]; [discriminate|]. cbn [has_trailing_comma].
  rewrite replace_all_cons.
  destruct (trailing_comma_at (String c s)) as [[n r]|] eqn:E.
  - intros _. destruct (trailing_comma_at_shape _ _ _ E) as [Hr Hn].
    rewrite str_length_app, Hr. pose proof (strip_commas_length s (Nat.pred n)).
    cbn [String.length] in *. lia.
  - intros H. specialize (IH H). cbn [String.length]. lia.
Qed.

(** X21. A plain object, with neither fence nor think tag, is handed to
    the parser exactly as it came when no comma in it is followed, after
    optional white space, by a closing brace or bracket. When there is
    such a comma, anywhere in the text, inside a string value too, the
    text handed on is shorter than the response. *)
Theorem X21_plain_object_and_its_commas (doc : string) :
  plain_object doc ->
  (has_trailing_comma doc = false -> clean doc = doc)
  /\ (has_trailing_comma doc = true
      -> (String.length (clean doc) < String.length doc)%nat).
Proof.
  intros H. rewrite (clean_plain doc H). split.
  - apply strip_commas_none.
  - apply strip_commas_some.
Qed.

Lemma X21_plain_object_and_its_commas_witness :
  clean Sample.hold_document = Sample.hold_document
  /\ (String.length (clean (Sample.quoted "{'justification':'left,] then right'}"))
      < String.length (Sample.quoted "{'justification':'left,] then right'}"))%nat.
Proof.
  split.
  - apply (proj1 (X21_plain_object_and_its_commas Sample.hold_document
                    ltac:(repeat split; [eexists; reflexivity | ..]; reflexivity))).
    reflexivity.
  - apply (proj2 (X21_plain_object_and_its_commas
                    (Sample.quoted "{'justification':'left,] then right'}")
                    ltac:(repeat split; [eexists; reflexivity | ..]; reflexivity))).
    reflexivity.
Defined.

(** ** Searching in a text made of parts *)

Lemma startsWith_self (a b : string) : JS.startsWith (a ++ b) a = true.
Proof.
  induction a as [|c a IH]; [destruct b; reflexivity|].
  cbn [append JS.startsWith]. now rewrite Ascii.eqb_refl, IH.
Qed.

Lemma after_first_unfold (s sub : string) :
  JS.after_first s sub
  = if JS.startsWith s sub then Some (JS.drop (String.length sub) s)
    else match s with
         | EmptyString => None
         | String _ s' => JS.after_first s' sub
         end.
Proof. destruct s; reflexivity. Qed.

Lemma before_first_unfold (s sub : string) :
  JS.before_first s sub
  = if JS.startsWith s sub then Some EmptyString
    else match s with
         | EmptyString => None
         | String c s' => option_map (String c) (JS.before_first s' sub)
         end.
Proof. destruct s; reflexivity. Qed.

Lemma after_first_skip (pre rest : string) (p : ascii) (sub : string) :
  char_in p pre = false ->
  JS.after_first (pre ++ rest) (String p sub) = JS.after_first rest (String p sub).
Proof.
  induction pre as [|a pre IH]; [reflexivity|].
  cbn [char_in]. intros H. apply orb_false_iff in H. destruct H as [Ha Hpre].
  cbn [append]. rewrite after_first_unfold. cbn [JS.startsWith]. rewrite Ha.
  cbn [andb]. now apply IH.
Qed.

Lemma after_first_here (sub rest : string) : JS.after_first (sub ++ rest) sub = Some rest.
Proof. now rewrite after_first_unfold, startsWith_self, drop_app. Qed.

Lemma before_first_skip (w : string) (p : ascii) (sub post : string) :
  char_in p w = false ->
  JS.before_first (w ++ String p sub ++ post) (String p sub) = Some w.
Proof.
  induction w as [|a w IH].
  - intros _. change ("" ++ String p sub ++ post) with (String p sub ++ post).
    rewrite before_first_unfold.
    now rewrite (startsWith_self (String p sub) post).
  - cbn [char_in]. intros H. apply orb_false_iff in H. destruct H as [Ha Hw].
    change (String a w ++ String p sub ++ post)
      with (String a (w ++ String p sub ++ post)).
    rewrite before_first_unfold. cbn [JS.startsWith]. rewrite Ha.
    cbn [andb]. now rewrite (IH Hw).
Qed.

Lemma last_char_split (s : string) (e : ascii) :
  last_char s = Some e -> exists d, s = d ++ String e "".
Proof.
  induction s as [|c s IH]; [discriminate|]. destruct s as [|b s].
  - intros [= ->]. now exists "".
  - intros H. destruct (IH H) as [d Hd]. exists (String c d). cbn [append]. now rewrite <- Hd.
Qed.

Lemma includes_prefix (a b sub : string) :
  JS.includes (a ++ b) sub = false -> JS.includes a sub = false.
Proof.
  induction a as [|c a IH].
  - cbn [append]. intros H. destruct sub as [|p sub]; [destruct b; discriminate H|].
    reflexivity.
  - cbn [append]. intros H. destruct (includes_tail _ _ _ H) as [Hs Hi].
    cbn [JS.includes]. rewrite (IH Hi), orb_false_r.
    destruct (JS.startsWith (String c a) sub) eqn:E; [|reflexivity].
    pose proof (startsWith_weaken (String c a) b sub E) as W.
    cbn [append] in W. congruence.
Qed.

Lemma space_is_foreign (ws : string) (p : ascii) :
  all_space ws = true -> JS.is_space p = false -> char_in p ws = false.
Proof.
  intros Hw Hp. destruct (char_in p ws) eqn:E; [|reflexivity].
  rewrite (all_space_char_in ws p Hw E) in Hp. discriminate.
Qed.

Lemma trimStart_suffix (s : string) : exists a, s = a ++ JS.trimStart s.
Proof.
  induction s as [|c s [a IH]]; [now exists ""|]. cbn [JS.trimStart].
  destruct (JS.is_space c); [|now exists ""].
  exists (String c a). cbn [append]. now rewrite <- IH.
Qed.

Lemma trimEnd_prefix (s : string) : exists b, s = JS.trimEnd s ++ b.
Proof.
  induction s as [|c s [b IH]]; [now exists ""|]. cbn [JS.trimEnd].
  destruct (JS.trimEnd s) as [|k r].
  - destruct (JS.is_space c); [now exists (String c s)|].
    exists s. reflexivity.
  - exists b. cbn [append] in *. now rewrite <- IH.
Qed.

Lemma includes_trim (s sub : string) :
  JS.includes s sub = false -> JS.includes (JS.trim s) sub = false.
Proof.
  intros H. unfold JS.trim.
  destruct (trimStart_suffix s) as [a Ha]. rewrite Ha in H.
  apply includes_suffix in H.
  destruct (trimEnd_prefix (JS.trimStart s)) as [b Hb]. rewrite Hb in H.
  now apply includes_prefix in H.
Qed.

Lemma indexOf_from_skip (c : ascii) (pre r : string) (i : Z) :
  char_in c pre = false ->
  JS.indexOf_from i (pre ++ String c r) (String c "") = i + Z.of_nat (String.length pre).
Proof.
  revert i. induction pre as [|a pre IH]; intros i.
  - intros _. cbn [append JS.indexOf_from JS.startsWith]. rewrite Ascii.eqb_refl.
    cbn [andb String.length]. lia.
  - cbn [char_in]. intros H. apply orb_false_iff in H. destruct H as [Ha Hpre].
    cbn [append JS.indexOf_from JS.startsWith]. rewrite Ha. cbn [andb].
    rewrite (IH (i + 1) Hpre). cbn [String.length]. lia.
Qed.

Lemma lastIndexOf_from_absent (c : ascii) (s : string) (i : Z) :
  char_in c s = false -> JS.lastIndexOf_from i s (String c "") = -1.
Proof.
  revert i. induction s as [|a s IH]; intros i; [reflexivity|].
  cbn [char_in]. intros H. apply orb_false_iff in H. destruct H as [Ha Hs].
  rewrite lastIndexOf_from_cons, (IH (i + 1) Hs). cbn [JS.startsWith]. rewrite Ha.
  reflexivity.
Qed.

Lemma lastIndexOf_from_tail (doc post : string) : forall i,
  0 <= i -> last_char doc = Some "}"%char -> char_in "}"%char post = false ->
  JS.lastIndexOf_from i (doc ++ post) "}" = i + Z.of_nat (String.length doc) - 1.
Proof.
  induction doc as [|c doc IH]; intros i Hi Hl Hp; [discriminate|].
  destruct doc as [|b doc].
  - injection Hl as ->. cbn [append]. rewrite lastIndexOf_from_cons.
    rewrite (lastIndexOf_from_absent "}"%char post (i + 1) Hp).
    cbn [JS.startsWith Ascii.eqb Bool.eqb andb String.length]. cbn. lia.
  - change (last_char (String b doc) = Some "}"%char) in Hl.
    change (String c (String b doc) ++ post) with (String c (String b doc ++ post)).
    rewrite lastIndexOf_from_cons, (IH (i + 1) ltac:(lia) Hl Hp).
    change (String.length (String c (String b doc))) with (S (String.length (String b doc))).
    destruct (0 <=? i + 1 + Z.of_nat (String.length (String b doc)) - 1) eqn:E; [lia|].
    apply Z.leb_gt in E. lia.
Qed.

Lemma lastIndexOf_from_prefix (a b sub : string) : forall i,
  0 <= JS.lastIndexOf_from (i + Z.of_nat (String.length a)) b sub ->
  JS.lastIndexOf_from i (a ++ b) sub
  = JS.lastIndexOf_from (i + Z.of_nat (String.length a)) b sub.
Proof.
  induction a as [|c a IH]; intros i.
  - cbn [append String.length]. now rewrite Z.add_0_r.
  - cbn [append]. rewrite lastIndexOf_from_cons.
    replace (i + Z.of_nat (String.length (String c a)))
      with (i + 1 + Z.of_nat (String.length a)) by (cbn [String.length]; lia).
    intros H. rewrite (IH (i + 1) H).
    apply Z.leb_le in H. now rewrite H.
Qed.

Lemma std_substring_head (b c : string) :
  String.substring 0 (String.length b) (b ++ c) = b.
Proof.
  induction b as [|k b IH]; [destruct c; reflexivity|]. cbn. now rewrite IH.
Qed.

Lemma std_substring_middle (a b c : string) :
  String.substring (String.length a) (String.length b) (a ++ b ++ c) = b.
Proof.
  induction a as [|k a IH]; [exact (std_substring_head b c)|]. exact IH.
Qed.

Lemma substring_middle (a b c : string) (lo hi : Z) :
  lo = Z.of_nat (String.length a) ->
  hi = Z.of_nat (String.length a) + Z.of_nat (String.length b) ->
  JS.substring (a ++ b ++ c) lo hi = b.
Proof.
  intros -> ->. unfold JS.substring. rewrite !str_length_app.
  set (A := String.length a). set (B := String.length b). set (C := String.length c).
  replace (Z.min (Z.max 0 (Z.min (Z.of_nat A) (Z.of_nat (A + (B + C)))))
                 (Z.max 0 (Z.min (Z.of_nat A + Z.of_nat B) (Z.of_nat (A + (B + C))))))
    with (Z.of_nat A) by lia.
  replace (Z.max (Z.max 0 (Z.min (Z.of_nat A) (Z.of_nat (A + (B + C)))))
                 (Z.max 0 (Z.min (Z.of_nat A + Z.of_nat B) (Z.of_nat (A + (B + C))))))
    with (Z.of_nat A + Z.of_nat B) by lia.
  replace (Z.to_nat (Z.of_nat A)) with A by lia.
  replace (Z.to_nat (Z.of_nat A + Z.of_nat B - Z.of_nat A)) with B by lia.
  apply std_substring_middle.
Qed.

(** X22. An object with prose around it. When the response, trimmed, is an
    object that begins with an opening brace and ends with a closing one,
    with text before it that holds no opening brace and text after it that
    holds no closing brace, and the whole holds neither a fence nor a think
    tag, the text before and after is cut away: what remains is the
    object, less its commas before a closer. *)
Theorem X22_prose_around_an_object_is_cut (s pre doc post : string) :
  JS.trim s = pre ++ doc ++ post ->
  JS.includes (JS.trim s) "<think>" = false ->
  JS.includes (JS.trim s) fence = false ->
  char_in "{"%char pre = false ->
  char_in "}"%char post = false ->
  (exists rest, doc = String "{"%char rest) ->
  last_char doc = Some "}"%char ->
  clean s = JS.replace_all trailing_comma_at 0 doc.
Proof.
  intros Htrim Hthink Hfence Hpre Hpost [rest Hdoc] Hlast.
  assert (Hlen : (2 <= String.length doc)%nat).
  { subst doc. destruct rest; [discriminate Hlast | simpl; lia]. }
  unfold clean. rewrite (remove_think_none _ Hthink), trim_trim.
  unfold fence_capture. rewrite (after_first_none _ _ Hfence).
  rewrite Htrim.
  assert (Efirst : JS.indexOf (pre ++ doc ++ post) "{" = Z.of_nat (String.length pre)).
  { subst doc. unfold JS.indexOf. cbn [append].
    now rewrite (indexOf_from_skip "{"%char pre _ 0 Hpre). }
  assert (Elast : JS.lastIndexOf (pre ++ doc ++ post) "}"
                  = Z.of_nat (String.length pre) + Z.of_nat (String.length doc) - 1).
  { unfold JS.lastIndexOf.
    assert (E : JS.lastIndexOf_from (0 + Z.of_nat (String.length pre)) (doc ++ post) "}"
                = Z.of_nat (String.length pre) + Z.of_nat (String.length doc) - 1).
    { rewrite (lastIndexOf_from_tail doc post (0 + Z.of_nat (String.length pre))
                 ltac:(lia) Hlast Hpost).
      lia. }
    rewrite lastIndexOf_from_prefix; rewrite E; [reflexivity | lia]. }
  rewrite Efirst, Elast.
  replace ((-1 <? Z.of_nat (String.length pre))
           && (Z.of_nat (String.length pre)
               <? Z.of_nat (String.length pre) + Z.of_nat (String.length doc) - 1))
    with true
    by (symmetry; apply andb_true_iff; split; apply Z.ltb_lt; lia).
  rewrite (substring_middle pre doc post); [reflexivity | reflexivity | lia].
Qed.

Lemma X22_prose_around_an_object_is_cut_witness :
  clean (" Here is my move: " ++ Sample.hold_document ++ " Good luck!" ++ Sample.newline)
  = JS.replace_all trailing_comma_at 0 Sample.hold_document.
Proof.
  apply (X22_prose_around_an_object_is_cut _ "Here is my move: " Sample.hold_document
           " Good luck!").
  - reflexivity.
  - reflexivity.
  - reflexivity.
  - reflexivity.
  - reflexivity.
  - eexists. reflexivity.
  - reflexivity.
Defined.

(** ** A fenced object *)

Lemma space_then_brace_is_not_json (ws u : string) :
  all_space ws = true -> JS.startsWith (ws ++ String "{"%char u) "json" = false.
Proof.
  destruct ws as [|c ws]; [reflexivity|]. cbn [all_space append JS.startsWith].
  intros H. apply andb_true_iff in H. destruct H as [Hc _].
  destruct (Ascii.eqb_spec c "j"%char) as [-> | _]; [discriminate Hc | reflexivity].
Qed.

(** Group 1 of the fence expression, for an object between fences. *)
Lemma fence_capture_fenced (pre tag ws1 doc ws2 post : string) :
  char_in "`"%char pre = false ->
  tag = "" \/ tag = "json" ->
  all_space ws1 = true -> all_space ws2 = true ->
  (exists rest, doc = String "{"%char rest) ->
  last_char doc = Some "}"%char ->
  JS.includes doc fence = false ->
  fence_capture (pre ++ fence ++ tag ++ ws1 ++ doc ++ ws2 ++ fence ++ post) = Some doc.
Proof.
  intros Hpre Htag Hw1 Hw2 [rest Hdoc] Hlast Hfence.
  unfold fence_capture.
  rewrite (after_first_skip pre _ "`"%char "``" Hpre).
  change (String "`" "``") with fence. rewrite after_first_here.
  set (tail := ws2 ++ fence ++ post).
  assert (E1 : (if JS.startsWith (tag ++ ws1 ++ doc ++ tail) "json"
                then JS.drop 4 (tag ++ ws1 ++ doc ++ tail)
                else tag ++ ws1 ++ doc ++ tail)
               = ws1 ++ doc ++ tail).
  { destruct Htag as [-> | ->].
    - change ("" ++ ws1 ++ doc ++ tail) with (ws1 ++ doc ++ tail).
      rewrite Hdoc. change (String "{" rest ++ tail) with (String "{"%char (rest ++ tail)).
      now rewrite (space_then_brace_is_not_json ws1 _ Hw1).
    - reflexivity. }
  rewrite E1.
  assert (E2 : JS.trimStart (ws1 ++ doc ++ tail) = doc ++ tail).
  { rewrite Hdoc. change (String "{" rest ++ tail) with (String "{"%char (rest ++ tail)).
    apply trimStart_all_space; [exact Hw1 | reflexivity]. }
  rewrite E2.
  assert (E3 : JS.before_first (doc ++ tail) fence = Some (doc ++ ws2)).
  { destruct (last_char_split doc "}"%char Hlast) as [d Hd].
    rewrite Hd in Hfence. pose proof (includes_prefix _ _ _ Hfence) as Hd0.
    rewrite Hd, !str_app_assoc.
    change (String "}" "" ++ tail) with (String "}"%char tail).
    rewrite (before_first_app d "}"%char tail fence Hd0 eq_refl ltac:(discriminate)).
    unfold tail. change fence with (String "`"%char "``") at 1 2.
    rewrite (before_first_skip ws2 "`"%char "``" post
               (space_is_foreign ws2 "`"%char Hw2 eq_refl)).
    reflexivity. }
  rewrite E3. now rewrite (trimEnd_app_space doc ws2 "}"%char Hlast eq_refl Hw2).
Qed.

(** X23. A fenced object. When the response, trimmed, holds an object
    between two fences, with an optional [json] after the opening fence
    and any white space, or none, on both sides of the object, whatever
    text without a backquote comes before the opening fence and whatever
    comes after the closing one is dropped with the fences: what remains
    is the object, less its commas before a closer. The object begins with
    an opening brace, ends with a closing one and holds no fence; the
    response holds no think tag. *)
Theorem X23_fenced_object_is_unwrapped (s pre tag ws1 doc ws2 post : string) :
  JS.trim s = pre ++ fence ++ tag ++ ws1 ++ doc ++ ws2 ++ fence ++ post ->
  JS.includes (JS.trim s) "<think>" = false ->
  char_in "`"%char pre = false ->
  tag = "" \/ tag = "json" ->
  all_space ws1 = true -> all_space ws2 = true ->
  (exists rest, doc = String "{"%char rest) ->
  last_char doc = Some "}"%char ->
  JS.includes doc fence = false ->
  clean s = JS.replace_all trailing_comma_at 0 doc.
Proof.
  intros Htrim Hthink Hpre Htag Hw1 Hw2 Hstart Hlast Hfence.
  unfold clean. rewrite (remove_think_none _ Hthink), trim_trim, Htrim.
  rewrite (fence_capture_fenced pre tag ws1 doc ws2 post Hpre Htag Hw1 Hw2 Hstart Hlast Hfence).
  destruct Hstart as [rest ->].
  now rewrite (trim_fixed "{"%char rest "}"%char eq_refl Hlast eq_refl).
Qed.

Lemma X23_fenced_object_is_unwrapped_witness :
  clean ("My move:" ++ Sample.newline ++ fence ++ Sample.hold_document_trailing_comma
         ++ Sample.newline ++ fence ++ " Done.")
  = JS.replace_all trailing_comma_at 0 Sample.hold_document_trailing_comma.
Proof.
  apply (X23_fenced_object_is_unwrapped _ ("My move:" ++ Sample.newline) ""
           "" Sample.hold_document_trailing_comma Sample.newline " Done.").
  - reflexivity.
  - reflexivity.
  - reflexivity.
  - now left.
  - reflexivity.
  - reflexivity.
  - eexists. reflexivity.
  - reflexivity.
  - reflexivity.
Defined.

(** ** A think block *)

Lemma no_closing_tag_across (c : ascii) (t rest : string) :
  JS.startsWith (String c t) "</think>" = false ->
  JS.startsWith (String c (t ++ "</think>" ++ rest)) "</think>" = false.
Proof.
  intros H.
  repeat (destruct t as [|? t];
          [cbn in H |- *; rewrite ?andb_false_r; reflexivity|]).
  exact H.
Qed.

Lemma before_first_closing_tag (t rest : string) :
  JS.includes t "</think>" = false ->
  JS.before_first (t ++ "</think>" ++ rest) "</think>" = Some t.
Proof.
  induction t as [|c t IH]; [reflexivity|].
  intros H. destruct (includes_tail _ _ _ H) as [Hs Hi].
  change (String c t ++ "</think>" ++ rest) with (String c (t ++ "</think>" ++ rest)).
  rewrite before_first_unfold, (no_closing_tag_across c t rest Hs), (IH Hi).
  reflexivity.
Qed.

Lemma remove_leading_think (t rest : string) :
  JS.includes t "</think>" = false ->
  JS.includes rest "<think>" = false ->
  JS.replace_all think_at 0 ("<think>" ++ t ++ "</think>" ++ rest) = rest.
Proof.
  intros Ht Hrest.
  change ("<think>" ++ t ++ "</think>" ++ rest)
    with (String "<"%char ("think>" ++ t ++ "</think>" ++ rest)).
  rewrite replace_all_cons.
  assert (E : think_at (String "<"%char ("think>" ++ t ++ "</think>" ++ rest))
              = Some (7 + String.length t + 8, "")%nat).
  { unfold think_at.
    change (JS.startsWith (String "<"%char ("think>" ++ t ++ "</think>" ++ rest)) "<think>")
      with true.
    change (JS.drop 7 (String "<"%char ("think>" ++ t ++ "</think>" ++ rest)))
      with (t ++ "</think>" ++ rest).
    now rewrite (before_first_closing_tag t rest Ht). }
  rewrite E.
  assert (Esplit : "think>" ++ t ++ "</think>" ++ rest = ("think>" ++ t ++ "</think>") ++ rest)
    by (rewrite !str_app_assoc; reflexivity).
  rewrite Esplit.
  change (JS.replace_all think_at (Nat.pred (7 + String.length t + 8))
            (("think>" ++ t ++ "</think>") ++ rest) = rest).
  replace (Nat.pred (7 + String.length t + 8))
    with (String.length ("think>" ++ t ++ "</think>") + 0)%nat
    by (rewrite !str_length_app; simpl; lia).
  rewrite replace_all_skip. now apply remove_think_none.
Qed.

(** X24. A leading think block. When the response, trimmed, begins with a
    think block, and neither the block holds a closing tag before its end
    nor the text after it an opening tag, the response is cleaned as the
    text after the block is: the block is gone before anything else is
    looked at. *)
Theorem X24_leading_think_block_is_removed (s t rest : string) :
  JS.trim s = "<think>" ++ t ++ "</think>" ++ rest ->
  JS.includes t "</think>" = false ->
  JS.includes rest "<think>" = false ->
  clean s = clean rest.
Proof.
  intros Htrim Ht Hrest. unfold clean.
  rewrite Htrim, (remove_leading_think t rest Ht Hrest).
  rewrite (remove_think_none _ (includes_trim rest "<think>" Hrest)), trim_trim.
  reflexivity.
Qed.

Lemma X24_leading_think_block_is_removed_witness :
  clean ("<think>The enemy is far. I hold.</think>" ++ Sample.newline ++ Sample.hold_document)
  = clean (Sample.newline ++ Sample.hold_document).
Proof.
  apply (X24_leading_think_block_is_removed _ "The enemy is far. I hold."
           (Sample.newline ++ Sample.hold_document));
    reflexivity.
Defined.

(* ================================================================== *)
(** * Invariants of a battle *)
(* ================================================================== *)

Lemma map_rel_Forall2 {V} (R : V -> V -> Prop) (m' m : JS.Map V) :
  map_rel R m' m -> Forall2 R (JS.values m') (JS.values m).
Proof. induction 1 as [|e' e l' l [_ Hr] _ IH]; simpl; constructor; assumption. Qed.

(** A relation that the loop of the tick keeps between the map and its
    start holds between the rosters the tick commits and the rosters it
    read. *)
Lemma tick_rosters_rel (R : Drone -> Drone -> Prop) random w :
  (forall d' d, R d' d -> swarmId d' = swarmId d) ->
  (forall keys st,
      map_rel R (App.tk_drones (fold_left (App.tick_body random) keys st)) (App.tk_drones st)) ->
  rosters_intact w ->
  Forall2 R (App.blueDrones (App.simulationInterval random w)) (App.blueDrones w)
  /\ Forall2 R (App.redDrones (App.simulationInterval random w)) (App.redDrones w).
Proof.
  intros Hside Hrel H. pose proof (intact_distinct w H) as Hnd.
  destruct H as (_ & _ & Sb & Sr).
  destruct (simulationInterval_rosters random w) as [-> ->].
  assert (Hnext : App.nextDronesState w = map (fun d => (id d, d)) (App.all_drones w)).
  { unfold App.nextDronesState. fold (App.all_drones w).
    now rewrite (fill_in_order id (App.all_drones w) []). }
  assert (Hvals : JS.values (App.nextDronesState w) = App.all_drones w).
  { rewrite Hnext. unfold JS.values. rewrite map_map. apply map_id. }
  pose proof (map_rel_Forall2 R _ _
                (Hrel (JS.keys (App.nextDronesState w))
                      (App.mkTick (App.nextDronesState w) (App.logs w) 0))) as Hall.
  cbn [App.tk_drones] in Hall. rewrite Hvals in Hall.
  destruct (rosters_split w Sb Sr) as [Eb Er].
  split.
  - rewrite <- Eb.
    apply (filter_side (fun s => App.swarm_eqb s blue)); [exact Hside | exact Hall].
  - rewrite <- Er.
    apply (filter_side (fun s => negb (App.swarm_eqb s blue))); [exact Hside | exact Hall].
Qed.

(** X25. A battle that is decided stays decided. When every drone of a
    swarm is Disabled at the start of a tick, the tick leaves that swarm
    as it is and stops the simulation, again if need be; when the swarm is
    the blue one the victory line names the Red Swarm. *)
Theorem X25_wiped_out_swarm_ends_the_battle (random : nat -> float) (w : App.World) :
  rosters_intact w ->
  let w' := App.simulationInterval random w in
  (forallb App.is_disabled (App.blueDrones w) = true ->
   App.blueDrones w' = App.blueDrones w
   /\ App.simulationState w' = Stopped
   /\ exists earlier,
        App.logs w' = (earlier ++ [mkLogEntry "Victory for Red Swarm! The battle is over."
                                              Success (Some "System")])%list)
  /\ (forallb App.is_disabled (App.redDrones w) = true ->
      App.redDrones w' = App.redDrones w /\ App.simulationState w' = Stopped).
Proof.
  intros H w'. subst w'.
  pose proof (intact_distinct w H) as Hnd. destruct H as (_ & _ & Sb & Sr).
  destruct (tick_rosters random w Hnd Sb Sr) as [Tb Tr].
  assert (Hsame : forall l' l, Forall2 ticked l' l -> forallb App.is_disabled l = true -> l' = l).
  { induction 1 as [|d' d l' l T _ IH]; simpl; [reflexivity|].
    intros Hd. apply andb_true_iff in Hd. destruct Hd as [Hd Hl].
    destruct T as (_ & _ & _ & Heq & _). now rewrite (Heq Hd), (IH Hl). }
  assert (Hdead : forall l, forallb App.is_disabled l = true ->
                            existsb (fun d => negb (App.is_disabled d)) l = false).
  { induction l as [|d l IH]; simpl; [reflexivity|].
    intros Hd. apply andb_true_iff in Hd. destruct Hd as [-> Hl]. now apply IH. }
  pose proof (X := simulationInterval_rosters random w). cbv zeta in X.
  split; intros Hall.
  - pose proof (Hsame _ _ Tb Hall) as Eb. split; [exact Eb|].
    destruct X as [Xb _]. rewrite Eb in Xb.
    unfold App.simulationInterval. rewrite <- Xb, (Hdead _ Hall). cbn [negb orb].
    split; [reflexivity|]. eexists. reflexivity.
  - pose proof (Hsame _ _ Tr Hall) as Er. split; [exact Er|].
    destruct X as [_ Xr]. rewrite Er in Xr.
    unfold App.simulationInterval. rewrite <- Xr, (Hdead _ Hall).
    rewrite orb_true_r. reflexivity.
Qed.

Lemma X25_wiped_out_swarm_ends_the_battle_witness :
  let w := App.set_drones Sample.casualty
             (App.blueDrones Sample.casualty)
             (map (App.with_status Disabled) (App.redDrones Sample.casualty)) in
  let w' := App.simulationInterval Sample.quiet w in
  App.redDrones w' = App.redDrones w /\ App.simulationState w' = Stopped.
Proof.
  intros w.
  apply (proj2 (X25_wiped_out_swarm_ends_the_battle Sample.quiet w
                  ltac:(repeat split; try reflexivity; repeat constructor))).
  reflexivity.
Defined.

(** ** No healing *)

Lemma wears_no_heal l' l :
  Forall2 wears l' l -> Forall health_ok l ->
  Forall2 (fun d' d => id d' = id d /\ health d' <= health d) l' l.
Proof.
  induction 1 as [|d' d l' l (Hi & _ & Hh) _ IH]; intros HF; constructor.
  - inversion HF as [|? ? Hd _]; subst. unfold health_ok in Hd. split; [exact Hi | lia].
  - inversion HF; subst. auto.
Qed.

Lemma same_body_no_heal l l' :
  Forall2 same_body l l' ->
  Forall2 (fun d' d => id d' = id d /\ health d' <= health d) l' l.
Proof.
  induction 1 as [|d d' l l' (Hi & _ & _ & Hh) _ IH]; constructor; [|exact IH].
  split; [exact Hi | lia].
Qed.

Lemma fire_no_heal w e w' :
  rosters_intact w -> healthy w -> is_reset e = false -> App.fire w e = Some w' ->
  Forall2 (fun d' d => id d' = id d /\ health d' <= health d)
          (App.all_drones w') (App.all_drones w).
Proof.
  intros Hi Hh Hr.
  assert (Hsame : Forall2 (fun d' d => id d' = id d /\ health d' <= health d)
                          (App.all_drones w) (App.all_drones w)).
  { apply Forall2_same. intros d. split; [reflexivity | lia]. }
  assert (Hkept : forall w1, bodies_kept w w1 ->
            Forall2 (fun d' d => id d' = id d /\ health d' <= health d)
                    (App.all_drones w1) (App.all_drones w)).
  { intros w1 [Kb Kr]. unfold App.all_drones.
    apply Forall2_app; now apply same_body_no_heal. }
  destruct e as [random | i | i o | | ]; simpl; try discriminate.
  - destruct (App.running w); [|discriminate]. intros [= <-].
    destruct (tick_rosters_rel wears random w) as [Tb Tr];
      [intros d' d Hw; apply Hw | intros; apply tick_loop_wears | exact Hi |].
    assert (Hb : Forall health_ok (App.blueDrones w)).
    { apply Forall_forall. intros d Hd. apply Hh. unfold App.all_drones.
      apply in_or_app. now left. }
    assert (Hrd : Forall health_ok (App.redDrones w)).
    { apply Forall_forall. intros d Hd. apply Hh. unfold App.all_drones.
      apply in_or_app. now right. }
    unfold App.all_drones. apply Forall2_app; now apply wears_no_heal.
  - destruct (nth_error (App.captured w) i) as [drone|]; [|discriminate].
    intros [= <-]. destruct (App.runDroneLogic_begin w drone) as [w1|] eqn:E; [|exact Hsame].
    apply Hkept. eapply begin_bodies_kept; eassumption.
  - destruct (nth_error (App.pending w) i) as [drone|]; [|discriminate].
    intros [= <-]. apply Hkept.
    exact (resume_bodies_kept (App.set_pending w (App.remove_nth i (App.pending w))) drone o).
  - intros [= <-]. unfold App.toggle. destruct (App.running w); exact Hsame.
Qed.

Lemma run_no_heal es : forall w w',
  rosters_intact w -> healthy w -> forallb (fun e => negb (is_reset e)) es = true ->
  App.run w es = Some w' ->
  Forall2 (fun d' d => id d' = id d /\ health d' <= health d)
          (App.all_drones w') (App.all_drones w).
Proof.
  induction es as [|e es IH]; simpl; intros w w' Hi Hh Hes.
  - intros [= <-]. apply Forall2_same. intros d. split; [reflexivity | lia].
  - apply andb_prop in Hes. destruct Hes as [He Hes]. apply Bool.negb_true_iff in He.
    destruct (App.fire w e) as [w1|] eqn:E; [|discriminate]. intros Hrun.
    eapply Forall2_chain; [| eapply IH; [| | exact Hes | exact Hrun] |
                            eapply fire_no_heal; eassumption].
    + intros a b c [I1 H1] [I2 H2]. split; [congruence | lia].
    + eapply fire_intact; eassumption.
    + eapply fire_healthy; eassumption.
Qed.

(** X26. There is no healing. Between two moments of a run with no reset in
    between, no drone's health goes up: drone by drone, in roster order,
    the later health is at most the earlier one. *)
Theorem X26_no_healing_between_resets (before after : list App.Event) (w w' : App.World) :
  App.run App.initialWorld before = Some w ->
  forallb (fun e => negb (is_reset e)) after = true ->
  App.run w after = Some w' ->
  Forall2 (fun d' d => id d' = id d /\ health d' <= health d)
          (App.all_drones w') (App.all_drones w).
Proof.
  intros Hw Hes Hrun. eapply run_no_heal; [| | exact Hes | exact Hrun].
  - eapply run_intact; [|exact Hw]. now apply initial_intact.
  - eapply run_healthy; [exact Hw | exact initialWorld_healthy].
Qed.

Lemma X26_no_healing_between_resets_witness :
  exists w w',
    App.run App.initialWorld [App.Toggle; App.Think 0] = Some w
    /\ App.run w [App.Answer 0 (Sample.attack "r-drone-0"); App.Tick Sample.quiet] = Some w'
    /\ Forall2 (fun d' d => id d' = id d /\ health d' <= health d)
               (App.all_drones w') (App.all_drones w).
Proof.
  eexists. eexists. split; [vm_compute; reflexivity|]. split; [vm_compute; reflexivity|].
  apply (X26_no_healing_between_resets [App.Toggle; App.Think 0]
           [App.Answer 0 (Sample.attack "r-drone-0"); App.Tick Sample.quiet]);
    vm_compute; reflexivity.
Defined.

(** ** No friendly fire *)

Lemma retargets_refl d : retargets d d.
Proof. unfold retargets; repeat split; auto. Qed.

Lemma retargets_trans a b c : retargets a b -> retargets b c -> retargets a c.
Proof.
  unfold retargets. intros (I1 & S1 & T1 & A1) (I2 & S2 & T2 & A2).
  split; [congruence|]. split; [congruence|]. split; [|auto].
  destruct T1 as [T1 | T1]; [|now right].
  destruct T2 as [T2 | T2]; [left | right]; congruence.
Qed.

Ltac retarget :=
  intros; unfold retargets; cbn; repeat split; auto; discriminate.

Lemma strike_retargets random st key tkey :
  map_rel retargets (App.tk_drones (App.strike random st key tkey)) (App.tk_drones st).
Proof.
  unfold App.strike.
  set (m1 := JS.mutate (App.tk_drones st) tkey _).
  assert (H1 : map_rel retargets m1 (App.tk_drones st)).
  { apply mutate_rel; [exact retargets_refl | retarget]. }
  set (st2 := if (_ <? _)%float then _ else _).
  assert (E2 : App.tk_drones st2 = m1) by (subst st2; destruct (_ <? _)%float; reflexivity).
  rewrite E2. destruct (JS.get m1 tkey) as [t|]; [|rewrite E2; exact H1].
  destruct (health t =? 0); [|rewrite E2; exact H1].
  simpl. rewrite E2.
  eapply map_rel_trans; [exact retargets_trans | | exact H1].
  eapply map_rel_trans; [exact retargets_trans | |].
  - apply mutate_rel; [exact retargets_refl | retarget].
  - apply mutate_rel; [exact retargets_refl | retarget].
Qed.

Lemma tick_body_retargets random st key :
  map_rel retargets (App.tk_drones (App.tick_body random st key)) (App.tk_drones st).
Proof.
  unfold App.tick_body.
  destruct (JS.get (App.tk_drones st) key) as [drone|];
    [|apply map_rel_refl; exact retargets_refl].
  destruct (App.is_disabled drone); [apply map_rel_refl; exact retargets_refl|].
  destruct (if DroneStatus_eqb (status drone) Attacking then _ else None) as [tkey|].
  - destruct (JS.get (App.tk_drones st) tkey) as [target|]; simpl.
    + destruct (negb (App.is_disabled target)); simpl.
      * destruct (_ <? _)%float; simpl.
        -- apply mutate_rel; [exact retargets_refl | retarget].
        -- apply strike_retargets.
      * apply mutate_rel; [exact retargets_refl | retarget].
    + apply mutate_rel; [exact retargets_refl | retarget].
  - destruct (DroneStatus_eqb (status drone) Moving);
      [|apply map_rel_refl; exact retargets_refl].
    destruct (_ <? _)%float; simpl; apply mutate_rel; [exact retargets_refl | retarget
                                                       | exact retargets_refl | retarget].
Qed.

Lemma tick_loop_retargets random keys st :
  map_rel retargets (App.tk_drones (fold_left (App.tick_body random) keys st))
          (App.tk_drones st).
Proof.
  revert st; induction keys as [|k keys IH]; intros st; simpl.
  - apply map_rel_refl; exact retargets_refl.
  - eapply map_rel_trans; [exact retargets_trans | apply IH | apply tick_body_retargets].
Qed.

Lemma retargets_aims ids l' l :
  Forall2 retargets l' l -> Forall (aims_at ids) l -> Forall (aims_at ids) l'.
Proof.
  induction 1 as [|d' d l' l (_ & _ & T & _) _ IH]; intros HF; [constructor|].
  inversion HF; subst. constructor; [|auto].
  unfold aims_at in *. destruct T as [-> | ->]; [assumption | exact I].
Qed.

Lemma blue_ids_prefix k :
  In k (map id (App.createInitialSwarm blue)) -> JS.startsWith k "b-" = true.
Proof.
  intros H. vm_compute in H.
  repeat (destruct H as [<- | H]; [reflexivity|]). contradiction.
Qed.

Lemma red_ids_prefix k :
  In k (map id (App.createInitialSwarm red)) -> JS.startsWith k "b-" = false.
Proof.
  intros H. vm_compute in H.
  repeat (destruct H as [<- | H]; [reflexivity|]). contradiction.
Qed.

Lemma intact_sided w : rosters_intact w -> Forall sided (App.all_drones w).
Proof.
  intros (Ib & Ir & Sb & Sr). unfold App.all_drones. apply Forall_app. split.
  - apply Forall_forall. intros d Hd. unfold sided.
    rewrite Forall_forall in Sb. rewrite (Sb d Hd).
    apply blue_ids_prefix. rewrite <- Ib. now apply in_map.
  - apply Forall_forall. intros d Hd. unfold sided.
    rewrite Forall_forall in Sr. rewrite (Sr d Hd).
    apply red_ids_prefix. rewrite <- Ir. now apply in_map.
Qed.

Lemma update_no_friendly_fire w k u :
  no_friendly_fire w ->
  match p_targetId u with
  | Some (Some t) =>
      In t (map id (App.createInitialSwarm (if JS.startsWith k "b-" then red else blue)))
  | _ => True
  end ->
  no_friendly_fire (App.updateDroneIntent w k u).
Proof.
  intros [Fb Fr] Hu.
  assert (Hmap : forall ids l,
            Forall (aims_at ids) l ->
            match p_targetId u with Some (Some t) => In t ids | _ => True end ->
            Forall (aims_at ids)
                   (map (fun d => if String.eqb (id d) k then spread d u else d) l)).
  { intros ids l HF Ht. apply Forall_forall. intros d Hin.
    apply in_map_iff in Hin. destruct Hin as [d0 [<- Hin0]].
    rewrite Forall_forall in HF. specialize (HF d0 Hin0).
    destruct (String.eqb (id d0) k); [|exact HF].
    unfold aims_at, spread in *. cbn [targetId].
    destruct (p_targetId u) as [[t|]|]; auto. }
  unfold App.updateDroneIntent.
  destruct (JS.startsWith k "b-"); split; cbn [App.blueDrones App.redDrones App.set_drones];
    auto.
Qed.

Lemma update_closures w k u :
  App.captured (App.updateDroneIntent w k u) = App.captured w
  /\ App.pending (App.updateDroneIntent w k u) = App.pending w.
Proof. unfold App.updateDroneIntent. destruct (JS.startsWith k "b-"); split; reflexivity. Qed.

Lemma no_friendly_fire_frame w w' :
  App.blueDrones w' = App.blueDrones w -> App.redDrones w' = App.redDrones w ->
  no_friendly_fire w -> no_friendly_fire w'.
Proof. unfold no_friendly_fire. now intros -> ->. Qed.

Lemma accepted_target_is_an_enemy w drone t :
  rosters_intact w -> sided drone ->
  existsb (fun e => String.eqb (id e) t) (App.activeEnemies w drone) = true ->
  In t (map id (App.createInitialSwarm
                  (if JS.startsWith (id drone) "b-" then red else blue))).
Proof.
  intros (Ib & Ir & _) Hs He. unfold sided in Hs. rewrite Hs.
  apply existsb_exists in He. destruct He as [e [Hin E]].
  apply String.eqb_eq in E. subst t.
  unfold App.activeEnemies in Hin. apply filter_In in Hin. destruct Hin as [Hin _].
  destruct (swarmId drone); cbn [App.swarm_eqb App.enemy_of] in *.
  - rewrite <- Ir. now apply in_map.
  - rewrite <- Ib. now apply in_map.
Qed.

Lemma resume_no_friendly_fire w drone o :
  rosters_intact w -> sided drone -> no_friendly_fire w ->
  no_friendly_fire (App.runDroneLogic_resume w drone o).
Proof.
  intros Hi Hs H. unfold App.runDroneLogic_resume, App.runDroneLogic_finally.
  eapply no_friendly_fire_frame; [reflexivity | reflexivity |].
  destruct o as [[s|]|msg]; destruct (App.running w); cbn [negb]; try exact H;
    destruct (find _ _) as [c|]; try exact H;
    destruct (App.is_disabled c); cbn [negb]; try exact H.
  - destruct (action_type (action s)).
    + apply update_no_friendly_fire; [exact H | exact I].
    + destruct (target_id (action s)) as [t|].
      * destruct (JS.truthy_string t && _) eqn:E.
        -- apply update_no_friendly_fire; [exact H|]. cbn [p_targetId].
           apply andb_true_iff in E. destruct E as [_ E].
           exact (accepted_target_is_an_enemy w drone t Hi Hs E).
        -- apply update_no_friendly_fire; [exact H | exact I].
      * apply update_no_friendly_fire; [exact H | exact I].
    + apply update_no_friendly_fire; [exact H | exact I].
  - apply update_no_friendly_fire; [exact H | exact I].
  - apply update_no_friendly_fire; [exact H | exact I].
Qed.

Lemma resume_closures w drone o :
  App.captured (App.runDroneLogic_resume w drone o) = App.captured w
  /\ App.pending (App.runDroneLogic_resume w drone o) = App.pending w.
Proof.
  unfold App.runDroneLogic_resume, App.runDroneLogic_finally.
  cbn [App.captured App.pending App.set_thinking].
  destruct o as [[s|]|msg]; destruct (App.running w); cbn [negb];
    try destruct (find _ _) as [c|]; try destruct (App.is_disabled c); cbn [negb];
    try destruct (action_type (action s));
    try destruct (target_id (action s)) as [t|]; try destruct (_ && _);
    repeat match goal with
           | |- context [App.updateDroneIntent ?a ?b ?c] =>
               destruct (update_closures a b c) as (-> & ->)
           end;
    split; reflexivity.
Qed.

Lemma Forall_remove_nth {A} (P : A -> Prop) (l : list A) : forall i,
  Forall P l -> Forall P (App.remove_nth i l).
Proof.
  induction l as [|a l IH]; intros [|i] HF; simpl; try constructor;
    inversion HF; subst; auto.
Qed.

Lemma fire_closures_sided w e w' :
  rosters_intact w -> closures_sided w -> App.fire w e = Some w' -> closures_sided w'.
Proof.
  intros Hi [Hc Hp]. unfold closures_sided.
  destruct e as [random | i | i o | | ]; simpl.
  - destruct (App.running w); [|discriminate]. intros [= <-].
    unfold App.simulationInterval. destruct (_ || _); now split.
  - destruct (nth_error (App.captured w) i) as [drone|] eqn:Hn; [|discriminate].
    intros [= <-]. unfold App.runDroneLogic_begin. destruct (_ || _); [now split|].
    cbn [App.captured App.pending App.set_pending].
    destruct (update_closures (App.set_thinking w (App.add (App.thinkingDrones w) (id drone)))
                (id drone) (mkPartial None None None (Some Assessing) None None None))
      as (-> & ->).
    cbn [App.captured App.pending App.set_thinking]. split; [exact Hc|].
    apply Forall_app. split; [exact Hp|]. constructor; [|constructor].
    rewrite Forall_forall in Hc. apply Hc. eapply nth_error_In; eassumption.
  - destruct (nth_error (App.pending w) i) as [drone|]; [|discriminate].
    intros [= <-].
    destruct (resume_closures (App.set_pending w (App.remove_nth i (App.pending w))) drone o)
      as (-> & ->).
    cbn [App.captured App.pending App.set_pending]. split; [exact Hc|].
    now apply Forall_remove_nth.
  - intros [= <-]. unfold App.toggle. destruct (App.running w); [now split|].
    unfold App.start_thinking. cbn [App.captured App.pending App.set_captured App.set_state
                                    App.blueDrones App.redDrones].
    split; [|exact Hp]. apply Forall_app. split; [exact Hc|].
    pose proof (intact_sided w Hi) as Hall. unfold App.all_drones in Hall.
    apply Forall_forall. intros d Hd. apply filter_In in Hd.
    rewrite Forall_forall in Hall. now apply Hall.
  - intros [= <-]. now split.
Qed.

Lemma fire_no_friendly_fire w e w' :
  rosters_intact w -> closures_sided w -> no_friendly_fire w ->
  App.fire w e = Some w' -> no_friendly_fire w'.
Proof.
  intros Hi [Hc Hp] H.
  destruct e as [random | i | i o | | ]; simpl.
  - destruct (App.running w); [|discriminate]. intros [= <-].
    destruct (tick_rosters_rel retargets random w) as [Tb Tr];
      [intros d' d T; apply T | intros; apply tick_loop_retargets | exact Hi |].
    destruct H as [Fb Fr]. split; eapply retargets_aims; eassumption.
  - destruct (nth_error (App.captured w) i) as [drone|]; [|discriminate].
    intros [= <-]. unfold App.runDroneLogic_begin. destruct (_ || _); [exact H|].
    eapply no_friendly_fire_frame; [reflexivity | reflexivity |].
    apply update_no_friendly_fire; [exact H | exact I].
  - destruct (nth_error (App.pending w) i) as [drone|] eqn:Hn; [|discriminate].
    intros [= <-]. apply resume_no_friendly_fire; [exact Hi | | exact H].
    rewrite Forall_forall in Hp. apply Hp. eapply nth_error_In; eassumption.
  - intros [= <-]. unfold App.toggle. destruct (App.running w); exact H.
  - intros [= <-]. unfold App.resetSimulation, no_friendly_fire, App.createInitialSwarm.
    cbn [App.blueDrones App.redDrones App.addLog App.set_logs].
    split; apply Forall_forall; intros d Hd; apply in_map_iff in Hd;
      destruct Hd as [n [<- _]]; exact I.
Qed.

Lemma run_no_friendly_fire es : forall w w',
  rosters_intact w -> closures_sided w -> no_friendly_fire w ->
  App.run w es = Some w' -> no_friendly_fire w'.
Proof.
  induction es as [|e es IH]; simpl; intros w w' Hi Hc H.
  - now intros [= <-].
  - destruct (App.fire w e) as [w1|] eqn:E; [|discriminate].
    apply IH.
    + eapply fire_intact; eassumption.
    + eapply fire_closures_sided; eassumption.
    + eapply fire_no_friendly_fire; eassumption.
Qed.

(** X27. No friendly fire. Along every run of the component from its
    initial state, a targetId that is set on a drone is the id of one of
    the drones of the other swarm: no decision, however late it arrives,
    and no tick makes a drone target its own side, or a drone that does
    not exist. *)
Theorem X27_targets_are_enemies (es : list App.Event) (w : App.World) :
  App.run App.initialWorld es = Some w ->
  no_friendly_fire w.
Proof.
  apply run_no_friendly_fire.
  - now apply initial_intact.
  - split; constructor.
  - unfold no_friendly_fire, App.initialWorld, App.createInitialSwarm.
    cbn [App.blueDrones App.redDrones].
    split; apply Forall_forall; intros d Hd; apply in_map_iff in Hd;
      destruct Hd as [n [<- _]]; exact I.
Qed.

Lemma X27_targets_are_enemies_witness :
  exists w, App.run App.initialWorld (Sample.assault 2) = Some w /\ no_friendly_fire w.
Proof.
  eexists. split; [vm_compute; reflexivity|].
  apply (X27_targets_are_enemies (Sample.assault 2)). vm_compute; reflexivity.
Defined.

(** ** Damage goes to the target only *)

Lemma map_rel_get {V} (R : V -> V -> Prop) (m' m : JS.Map V) k v' :
  map_rel R m' m -> JS.get m' k = Some v' -> exists v, JS.get m k = Some v /\ R v' v.
Proof.
  induction 1 as [|[k1 a1] [k2 a2] l' l [Hk Hr] _ IH]; simpl in *; [discriminate|].
  subst k2. destruct (String.eqb k1 k).
  - intros [= <-]. eauto.
  - exact IH.
Qed.

Lemma retargets_targets k d' d : retargets d' d -> targets k d' = true -> targets k d = true.
Proof.
  unfold targets. intros (_ & _ & T & A) H. apply andb_true_iff in H. destruct H as [Hs Ht].
  assert (Hatt : status d' = Attacking) by (destruct (status d'); try discriminate; reflexivity).
  rewrite (A Hatt). cbn [DroneStatus_eqb andb].
  destruct T as [<- | T]; [exact Ht | rewrite T in Ht; discriminate].
Qed.

Lemma truthy_target_targets drone tkey :
  DroneStatus_eqb (status drone) Attacking = true ->
  App.truthy_target (targetId drone) = Some tkey ->
  targets tkey drone = true.
Proof.
  intros Hs Ht. unfold targets. rewrite Hs. cbn [andb].
  unfold App.truthy_target in Ht. destruct (targetId drone) as [t|]; [|discriminate].
  destruct (JS.truthy_string t); [|discriminate]. injection Ht as ->. apply String.eqb_refl.
Qed.

(** The body of the loop, seen from a drone that no attacker targets. *)
Lemma tick_body_untargeted random st key k d :
  (forall key' drone, JS.get (App.tk_drones st) key' = Some drone -> targets k drone = false) ->
  JS.get (App.tk_drones st) k = Some d ->
  exists d', JS.get (App.tk_drones (App.tick_body random st key)) k = Some d'
             /\ health d' = health d /\ App.is_disabled d' = App.is_disabled d.
Proof.
  intros Hno Hk. unfold App.tick_body.
  destruct (JS.get (App.tk_drones st) key) as [drone|] eqn:Hd; [|eauto].
  destruct (App.is_disabled drone) eqn:Hlive; [eauto|].
  assert (Hown : forall f, health (f drone) = health drone ->
                   App.is_disabled (f drone) = false ->
                   exists d', JS.get (JS.mutate (App.tk_drones st) key f) k = Some d'
                              /\ health d' = health d /\ App.is_disabled d' = App.is_disabled d).
  { intros f Hh Hs. rewrite get_mutate, Hk.
    destruct (String.eqb key k) eqn:E; [|eauto].
    apply String.eqb_eq in E; subst k. rewrite Hk in Hd. injection Hd as ->.
    cbn [option_map]. eexists. split; [reflexivity|]. split; [exact Hh | congruence]. }
  destruct (DroneStatus_eqb (status drone) Attacking) eqn:Hatt.
  - destruct (App.truthy_target (targetId drone)) as [tkey|] eqn:Ht.
    + assert (Hne : String.eqb tkey k = false).
      { apply String.eqb_neq. intros ->.
        pose proof (Hno key drone Hd) as N.
        pose proof (truthy_target_targets drone k Hatt Ht) as Y. congruence. }
      destruct (JS.get (App.tk_drones st) tkey) as [target|] eqn:Htg.
      * destruct (App.is_disabled target) eqn:Htl; cbn [negb].
        -- cbn [App.tk_drones]. now apply Hown.
        -- destruct (_ <? _)%float.
           ++ cbn [App.tk_drones]. now apply Hown.
           ++ unfold App.strike.
              set (dmg := fun t => App.with_health _ t).
              match goal with |- context [if ?c then App.tick_addLog ?a ?b ?t ?au else ?a'] =>
                set (st2 := if c then App.tick_addLog a b t au else a') end.
              assert (E2 : App.tk_drones st2 = JS.mutate (App.tk_drones st) tkey dmg).
              { subst st2. destruct (_ <? _)%float; reflexivity. }
              destruct (JS.get (App.tk_drones st2) tkey) as [t|].
              ** destruct (health t =? 0).
                 --- cbn [App.tk_drones App.tick_addLog]. rewrite E2, !get_mutate, Hne, Hk.
                     destruct (String.eqb key k) eqn:E; [|eauto].
                     apply String.eqb_eq in E; subst k. rewrite Hk in Hd. injection Hd as ->.
                     cbn [option_map]. eexists. split; [reflexivity|].
                     split; [reflexivity | now rewrite Hlive].
                 --- rewrite E2, get_mutate, Hne. eauto.
              ** rewrite E2, get_mutate, Hne. eauto.
      * cbn [App.tk_drones]. now apply Hown.
    + destruct (DroneStatus_eqb (status drone) Moving) eqn:Hmov; [|eauto].
      destruct (status drone); discriminate.
  - destruct (DroneStatus_eqb (status drone) Moving) eqn:Hmov; [|eauto].
    destruct (_ <? _)%float; cbn [App.tk_drones]; apply Hown; try reflexivity.
    unfold App.is_disabled in *. exact Hlive.
Qed.

Lemma tick_loop_untargeted random keys : forall st k d,
  (forall key' drone, JS.get (App.tk_drones st) key' = Some drone -> targets k drone = false) ->
  JS.get (App.tk_drones st) k = Some d ->
  exists d', JS.get (App.tk_drones (fold_left (App.tick_body random) keys st)) k = Some d'
             /\ health d' = health d /\ App.is_disabled d' = App.is_disabled d.
Proof.
  induction keys as [|key keys IH]; intros st k d Hno Hk; simpl; [eauto|].
  destruct (tick_body_untargeted random st key k d Hno Hk) as (d1 & H1 & Hh1 & Hs1).
  destruct (IH (App.tick_body random st key) k d1) as (d2 & H2 & Hh2 & Hs2).
  - intros key' drone Hg.
    destruct (map_rel_get retargets _ _ key' drone (tick_body_retargets random st key) Hg)
      as (drone0 & Hg0 & R).
    destruct (targets k drone) eqn:E; [|reflexivity].
    rewrite <- (Hno key' drone0 Hg0). symmetry. exact (retargets_targets k _ _ R E).
  - exact H1.
  - exists d2. split; [exact H2|]. split; congruence.
Qed.

Lemma get_listed_id (l : list Drone) k d :
  JS.get (map (fun d => (id d, d)) l) k = Some d -> id d = k.
Proof.
  induction l as [|a l IH]; simpl; [discriminate|].
  destruct (String.eqb (id a) k) eqn:E; [|exact IH].
  intros [= <-]. now apply String.eqb_eq.
Qed.

(** X28. Damage goes to the target only. A drone that no Attacking drone
    has as its targetId at the start of a tick comes out of the tick with
    the health it had, and Disabled only if it was. *)
Theorem X28_untargeted_drone_keeps_health (random : nat -> float) (w : App.World)
    (k : string) :
  rosters_intact w ->
  existsb (targets k) (App.all_drones w) = false ->
  Forall2 (fun d' d => id d = k ->
                       health d' = health d /\ App.is_disabled d' = App.is_disabled d)
          (App.all_drones (App.simulationInterval random w)) (App.all_drones w).
Proof.
  intros H Hno. pose proof (intact_distinct w H) as Hnd. destruct H as (_ & _ & Sb & Sr).
  set (R := fun d' d : Drone =>
              swarmId d' = swarmId d
              /\ (id d = k -> health d' = health d /\ App.is_disabled d' = App.is_disabled d)).
  assert (Hnext : App.nextDronesState w = map (fun d => (id d, d)) (App.all_drones w)).
  { unfold App.nextDronesState. fold (App.all_drones w).
    now rewrite (fill_in_order id (App.all_drones w) []). }
  assert (Hkeys : JS.keys (App.nextDronesState w) = map id (App.all_drones w)).
  { rewrite Hnext. unfold JS.keys. rewrite map_map. reflexivity. }
  assert (Hvals : JS.values (App.nextDronesState w) = App.all_drones w).
  { rewrite Hnext. unfold JS.values. rewrite map_map. apply map_id. }
  assert (Hquiet : forall key' drone, JS.get (App.nextDronesState w) key' = Some drone ->
                     targets k drone = false).
  { intros key' drone Hg. rewrite Hnext in Hg. apply get_listed in Hg.
    destruct (targets k drone) eqn:E; [|reflexivity].
    rewrite <- Hno. symmetry. apply existsb_exists. eauto. }
  set (st0 := App.mkTick (App.nextDronesState w) (App.logs w) 0).
  set (st := fold_left (App.tick_body random) (JS.keys (App.nextDronesState w)) st0).
  assert (Hall : Forall2 R (JS.values (App.tk_drones st)) (App.all_drones w)).
  { rewrite <- Hvals. apply related_values.
    - apply (map_rel_same_keys wears). subst st. apply tick_loop_wears.
    - now rewrite Hkeys.
    - intros key v Hg.
      destruct (tick_loop_ticked random (JS.keys (App.nextDronesState w)) st0 key v Hg)
        as (v' & Hv' & T).
      exists v'. split; [exact Hv'|]. split; [apply T|].
      intros Hid.
      assert (key = k).
      { rewrite Hnext in Hg. apply get_listed_id in Hg. congruence. }
      subst key.
      destruct (tick_loop_untargeted random (JS.keys (App.nextDronesState w)) st0 k v
                  Hquiet Hg) as (v2 & Hv2 & Hh & Hs).
      fold st in Hv', Hv2. rewrite Hv' in Hv2. injection Hv2 as <-. now split. }
  destruct (rosters_split w Sb Sr) as [Eb Er].
  destruct (simulationInterval_rosters random w) as [Rb Rr]. fold st0 in Rb, Rr. fold st in Rb, Rr.
  unfold App.all_drones at 1. rewrite Rb, Rr.
  unfold App.all_drones at 1. rewrite <- Eb, <- Er.
  apply Forall2_app; (apply (Forall2_weaken R); [intros d' d T; apply T|]).
  - apply (filter_side (fun s => App.swarm_eqb s blue)); [|exact Hall].
    intros d' d T; apply T.
  - apply (filter_side (fun s => negb (App.swarm_eqb s blue))); [|exact Hall].
    intros d' d T; apply T.
Qed.

Lemma X28_untargeted_drone_keeps_health_witness :
  Forall2 (fun d' d => id d = "r-drone-1" ->
                       health d' = health d /\ App.is_disabled d' = App.is_disabled d)
          (App.all_drones (App.simulationInterval Sample.quiet Sample.casualty))
          (App.all_drones Sample.casualty).
Proof.
  apply (X28_untargeted_drone_keeps_health Sample.quiet Sample.casualty "r-drone-1").
  - repeat split; try reflexivity; repeat constructor.
  - reflexivity.
Defined.
